(** * torch._custom_op.impl: registration and lookup of custom operators

    A shallow embedding of [torch/_custom_op/impl.py].  Python objects that
    are mutated in place ([CustomOp] instances, the module-level
    [global_registry], the [torch.ops] name table) are modelled by explicit
    state passing; a raised exception is a value of type [Error] and the
    state reached when it was raised is kept, as in Python.  The host
    dispatcher ([torch._C], [torch.library], [torchgen]) is not part of the
    file and enters through the record [Host]. *)

From Stdlib Require Import Ascii String.
From stdpp Require Import base option list strings gmap pretty.

(** ** Python strings *)

Module PyStr.

(** The double-quote character (the source uses it inside some messages). *)
Definition dq : string := String "034"%char EmptyString.

(** [s.startswith(p)]. *)
Fixpoint startswith (p s : string) : bool :=
  match p, s with
  | EmptyString, _ => true
  | String a p', String b s' => if decide (a = b) then startswith p' s' else false
  | String _ _, EmptyString => false
  end.

(** [s[n:]]. *)
Fixpoint drop (n : nat) (s : string) : string :=
  match n, s with
  | O, _ => s
  | S n', String _ s' => drop n' s'
  | S _, EmptyString => EmptyString
  end.

(** [sub in s]: some suffix of [s] starts with [sub]. *)
Fixpoint contains (sub s : string) : bool :=
  if startswith sub s then true
  else match s with
       | EmptyString => false
       | String _ s' => contains sub s'
       end.

(** [s.split(sep, 1)] for a non-empty [sep]: [None] stands for the
    one-element list [[s]], [Some (a, b)] for the two-element list
    [[a, b]] cut at the leftmost occurrence of [sep]. *)
Fixpoint split1 (sep s : string) : option (string * string) :=
  if startswith sep s then Some (EmptyString, drop (String.length sep) s)
  else match s with
       | EmptyString => None
       | String c s' =>
           match split1 sep s' with
           | Some (a, b) => Some (String c a, b)
           | None => None
           end
       end.

(** [s.split(sep)] for a non-empty [sep]; [n] bounds the number of cuts
    and [String.length s] is always enough. *)
Fixpoint split_upto (n : nat) (sep s : string) : list string :=
  match n with
  | O => [s]
  | S n' =>
      match split1 sep s with
      | None => [s]
      | Some (a, b) => a :: split_upto n' sep b
      end
  end.

Definition split (sep s : string) : list string :=
  split_upto (String.length s) sep s.

(** [sep.join(l)]. *)
Fixpoint join (sep : string) (l : list string) : string :=
  match l with
  | [] => EmptyString
  | [x] => x
  | x :: rest => x +:+ sep +:+ join sep rest
  end.

(** [c.lower()] on one ASCII character, and [s.lower()]. *)
Definition lower_char (c : ascii) : ascii :=
  let n := nat_of_ascii c in
  if decide (65 ≤ n ≤ 90)%nat then ascii_of_nat (n + 32)%nat else c.

Fixpoint lower (s : string) : string :=
  match s with
  | EmptyString => EmptyString
  | String c s' => String (lower_char c) (lower s')
  end.

(** [sub] occurs in [s] as a contiguous piece. *)
Definition occurs_in (sub s : string) : Prop :=
  ∃ pre post, s = pre +:+ sub +:+ post.

End PyStr.

(** ** Exceptions *)

Inductive ExnClass :=
  | ValueError
  | RuntimeError
  | NotImplementedError
  | AssertionError
  | KeyError
  | AttributeError
  | ReferenceError
  | HostError.

(** A raised exception: its class and its message. *)
Record Error := Raise { exn_class : ExnClass; exn_msg : string }.

Global Instance ExnClass_eq_dec : EqDecision ExnClass.
Proof. solve_decision. Defined.
Global Instance Error_eq_dec : EqDecision Error.
Proof. solve_decision. Defined.

(** A computation that returns or raises. *)
Definition Result (A : Type) : Type := Error + A.

Abbreviation Ok := (@inr Error _).
Abbreviation Err := (@inl Error _).

Definition rbind {A B} (m : Result A) (k : A → Result B) : Result B :=
  match m with
  | inl e => inl e
  | inr a => k a
  end.

Definition is_ok {A} (r : Result A) : bool :=
  match r with inr _ => true | inl _ => false end.

(** A method: it reads and mutates a state [S], and returns or raises.
    The state at the point of the [raise] is what the caller sees. *)
Definition Py (S A : Type) : Type := S → Result A * S.

Definition pret {S A} (a : A) : Py S A := λ s, (inr a, s).
Definition praise {S A} (e : Error) : Py S A := λ s, (inl e, s).
Definition pbind {S A B} (m : Py S A) (k : A → Py S B) : Py S B :=
  λ s, match m s with
       | (inl e, s') => (inl e, s')
       | (inr a, s') => k a s'
       end.
Definition plift {S A} (r : Result A) : Py S A := λ s, (r, s).

Declare Scope py_scope.
Delimit Scope py_scope with py.
Notation "x <- m ;; k" := (pbind m (λ x, k))
  (at level 100, m at next level, right associativity) : py_scope.
Notation "m ;;; k" := (pbind m (λ _, k))
  (at level 100, right associativity) : py_scope.

(** ** Module constants *)

Definition SUPPORTED_DEVICE_TYPE_TO_KEY : gmap string string :=
  <["cpu" := "CPU"]> (<["cuda" := "CUDA"]> ∅).

Definition RESERVED_NS : gset string :=
  {["prim"; "prims"; "aten"; "at"; "torch"; "pytorch"]}.

(** ** Name validation *)

Definition err_no_namespace (qualname : string) : Error :=
  Raise ValueError
    ("Expected there to be a namespace in " +:+ qualname +:+ ", i.e. The " +:+
     "operator name should look something like ns::foo").

Definition err_overload (qualname : string) : Error :=
  Raise ValueError
    ("The torch.custom_ops APIs do not handle overloads, " +:+
     "i.e. operator names with '.' in them. " +:+
     "Please name your operator something like ns::foo. " +:+
     "Got: " +:+ qualname).

Definition parse_qualname (qualname : string) : Result (string * string) :=
  match PyStr.split1 "::" qualname with
  | None => Err (err_no_namespace qualname)
  | Some (ns, name) =>
      if PyStr.contains "." name then Err (err_overload qualname)
      else Ok (ns, name)
  end.

Definition err_ns_dot (ns : string) : Error :=
  Raise ValueError
    ("custom_op(..., ns=" +:+ PyStr.dq +:+ ns +:+ PyStr.dq +:+
     "): expected ns to not contain any . (and be a " +:+
     "valid variable name)").

Definition err_ns_reserved (ns : string) : Error :=
  Raise ValueError
    ("custom_op(..., ns='" +:+ ns +:+ "'): '" +:+ ns +:+
     "' is a reserved namespace, " +:+
     "please choose something else. ").

Definition validate_namespace (ns : string) : Result unit :=
  if PyStr.contains "." ns then Err (err_ns_dot ns)
  else if decide (ns ∈ RESERVED_NS) then Err (err_ns_reserved ns)
  else Ok tt.

Definition err_device_type (device_type : string) : Error :=
  Raise ValueError
    ("CustomOp.impl(device_types=[" +:+ device_type +:+
     ", ...]): we only support device_type " +:+
     "in dict_keys(['cpu', 'cuda']).").

Definition validate_device_type (device_type : string) : Result unit :=
  match SUPPORTED_DEVICE_TYPE_TO_KEY !! device_type with
  | None => Err (err_device_type device_type)
  | Some _ => Ok tt
  end.

(** ** Type annotations and signatures ([typing], [inspect]) *)

(** The annotations the module distinguishes.  [T_other] stands for any
    other class, by its name. *)
#[local] Unset Elimination Schemes.
Inductive PyType :=
  | T_Tensor                      (* torch.Tensor *)
  | T_int
  | T_float
  | T_bool
  | T_str
  | T_Number                      (* torch.types.Number *)
  | T_dtype                       (* torch.dtype *)
  | T_device                      (* torch.device *)
  | T_Optional (t : PyType)       (* typing.Optional[t] *)
  | T_Sequence (t : PyType)       (* typing.Sequence[t] *)
  | T_List (t : PyType)           (* typing.List[t] *)
  | T_Tuple (ts : list PyType)    (* typing.Tuple[ts] *)
  | T_other (name : string).
#[local] Set Elimination Schemes.

(** Induction on annotations, with the items of a tuple covered. *)
Section PyType_nested_induction.
Variable P : PyType → Prop.
Hypothesis HTensor : P T_Tensor.
Hypothesis Hint : P T_int.
Hypothesis Hfloat : P T_float.
Hypothesis Hbool : P T_bool.
Hypothesis Hstr : P T_str.
Hypothesis HNumber : P T_Number.
Hypothesis Hdtype : P T_dtype.
Hypothesis Hdevice : P T_device.
Hypothesis HOptional : ∀ t, P t → P (T_Optional t).
Hypothesis HSequence : ∀ t, P t → P (T_Sequence t).
Hypothesis HList : ∀ t, P t → P (T_List t).
Hypothesis HTuple : ∀ ts, Forall P ts → P (T_Tuple ts).
Hypothesis Hother : ∀ n, P (T_other n).

Fixpoint PyType_nested_ind (t : PyType) : P t :=
  match t with
  | T_Tensor => HTensor
  | T_int => Hint
  | T_float => Hfloat
  | T_bool => Hbool
  | T_str => Hstr
  | T_Number => HNumber
  | T_dtype => Hdtype
  | T_device => Hdevice
  | T_Optional x => HOptional x (PyType_nested_ind x)
  | T_Sequence x => HSequence x (PyType_nested_ind x)
  | T_List x => HList x (PyType_nested_ind x)
  | T_Tuple ts =>
      HTuple ts
        ((fix go (l : list PyType) : Forall P l :=
            match l with
            | [] => List.Forall_nil P
            | x :: rest =>
                List.Forall_cons P x rest (PyType_nested_ind x) (go rest)
            end) ts)
  | T_other n => Hother n
  end.
End PyType_nested_induction.

(** [inspect.Parameter.empty], the value [None], or a type. *)
Inductive Annotation :=
  | A_empty
  | A_None
  | A_type (t : PyType).

Inductive ParamKind :=
  | POSITIONAL_ONLY
  | POSITIONAL_OR_KEYWORD
  | VAR_POSITIONAL
  | KEYWORD_ONLY
  | VAR_KEYWORD.

Record Param := {
  p_name : string;
  p_kind : ParamKind;
  p_annotation : Annotation;
  p_has_default : bool          (* param.default is not Parameter.empty *)
}.

(** [inspect.signature(func)]; [sig_str] is the text of [str(sig)]. *)
Record Signature := {
  parameters : list Param;
  return_annotation : Annotation;
  sig_str : string
}.

Fixpoint PyType_eqb (a b : PyType) {struct a} : bool :=
  let fix all_eqb (l1 l2 : list PyType) {struct l1} : bool :=
    match l1, l2 with
    | [], [] => true
    | x :: l1', y :: l2' => PyType_eqb x y && all_eqb l1' l2'
    | _, _ => false
    end in
  match a, b with
  | T_Tensor, T_Tensor | T_int, T_int | T_float, T_float | T_bool, T_bool
  | T_str, T_str | T_Number, T_Number | T_dtype, T_dtype
  | T_device, T_device => true
  | T_Optional x, T_Optional y => PyType_eqb x y
  | T_Sequence x, T_Sequence y => PyType_eqb x y
  | T_List x, T_List y => PyType_eqb x y
  | T_Tuple xs, T_Tuple ys => all_eqb xs ys
  | T_other n, T_other m => bool_decide (n = m)
  | _, _ => false
  end.

Definition Annotation_eqb (a b : Annotation) : bool :=
  match a, b with
  | A_empty, A_empty => true
  | A_None, A_None => true
  | A_type x, A_type y => PyType_eqb x y
  | _, _ => false
  end.

(** A Python [dict] built from a list of pairs: a later pair with the same
    key replaces the value of an earlier one. *)
Fixpoint dict_get {V} (k : Annotation) (d : list (Annotation * V)) : option V :=
  match d with
  | [] => None
  | (k', v) :: rest =>
      match dict_get k rest with
      | Some v' => Some v'
      | None => if Annotation_eqb k k' then Some v else None
      end
  end.

(** The text Python prints for a type: [repr_in] inside a [typing]
    construct, [type_repr] on its own. *)
Fixpoint repr_in (t : PyType) : string :=
  match t with
  | T_Tensor => "torch.Tensor"
  | T_int => "int"
  | T_float => "float"
  | T_bool => "bool"
  | T_str => "str"
  | T_Number => "typing.Union[int, float, bool]"
  | T_dtype => "torch.dtype"
  | T_device => "torch.device"
  | T_Optional T_Number => "typing.Union[int, float, bool, NoneType]"
  | T_Optional x => "typing.Optional[" +:+ repr_in x +:+ "]"
  | T_Sequence x => "typing.Sequence[" +:+ repr_in x +:+ "]"
  | T_List x => "typing.List[" +:+ repr_in x +:+ "]"
  | T_Tuple xs => "typing.Tuple[" +:+ PyStr.join ", " (map repr_in xs) +:+ "]"
  | T_other n => n
  end.

Definition type_repr (t : PyType) : string :=
  match t with
  | T_Tensor | T_int | T_float | T_bool | T_str | T_dtype | T_device
  | T_other _ => "<class '" +:+ repr_in t +:+ "'>"
  | _ => repr_in t
  end.

Definition annotation_repr (a : Annotation) : string :=
  match a with
  | A_empty => "<class 'inspect._empty'>"
  | A_None => "None"
  | A_type t => type_repr t
  end.

(** ** Schema inference *)

Definition supported_param (param : Param) : bool :=
  match p_kind param with
  | POSITIONAL_OR_KEYWORD | KEYWORD_ONLY => true
  | _ => false
  end.

Definition derived_seq_types (typ : PyType) : list PyType :=
  [T_Sequence typ; T_List typ].

Definition derived_types (base_type : PyType) (cpp_type : string)
    (list_base optional_base_list optional_list_base : bool)
    : list (Annotation * string) :=
  [(A_type base_type, cpp_type);
   (A_type (T_Optional base_type), cpp_type +:+ "?")]
  ++ (if list_base
      then map (λ seq_typ, (A_type seq_typ, cpp_type +:+ "[]"))
               (derived_seq_types base_type)
      else [])
  ++ (if optional_base_list
      then map (λ seq_typ, (A_type seq_typ, cpp_type +:+ "?[]"))
               (derived_seq_types (T_Optional base_type))
      else [])
  ++ (if optional_list_base
      then map (λ seq_typ, (A_type (T_Optional seq_typ), cpp_type +:+ "[]?"))
               (derived_seq_types base_type)
      else []).

Definition get_supported_param_types : list (Annotation * string) :=
  let data :=
    [(T_Tensor, "Tensor", true, true, false);
     (T_int, "SymInt", true, false, true);
     (T_float, "float", true, false, true);
     (T_bool, "bool", true, false, true);
     (T_str, "str", false, false, false);
     (T_Number, "Scalar", true, false, false);
     (T_dtype, "ScalarType", false, false, false);
     (T_device, "Device", false, false, false)] in
  concat (map (λ '(base, cpp, lb, obl, olb), derived_types base cpp lb obl olb)
              data).

Definition SUPPORTED_PARAM_TYPES : list (Annotation * string) :=
  get_supported_param_types.

Definition SUPPORTED_RETURN_TYPES : list (Annotation * string) :=
  [(A_type T_Tensor, "Tensor");
   (A_type (T_List T_Tensor), "Tensor[]");
   (A_type T_int, "SymInt");
   (A_type T_float, "float");
   (A_type T_bool, "bool");
   (A_type T_Number, "Scalar")].

Definition keys_repr {V} (d : list (Annotation * V)) : string :=
  "dict_keys([" +:+ PyStr.join ", " (map (λ kv, annotation_repr (fst kv)) d)
  +:+ "])".

Definition dict_repr (d : list (Annotation * string)) : string :=
  "{" +:+ PyStr.join ", "
            (map (λ kv, annotation_repr (fst kv) +:+ ": '" +:+ snd kv +:+ "'") d)
  +:+ "}".

(** [error_fn] of [infer_schema]. *)
Definition infer_error (sig : Signature) (what : string) : Error :=
  Raise ValueError
    ("infer_schema(func): " +:+ what +:+ " " +:+
     "Got func with signature " +:+ sig_str sig +:+ ")").

Definition err_unsupported_return (annotation : Annotation) : string :=
  "Return has unsupported type " +:+ annotation_repr annotation +:+ ". " +:+
  "The valid types are: " +:+ dict_repr SUPPORTED_RETURN_TYPES +:+ ".".

Fixpoint parse_return_args (err : Error) (args : list PyType)
    : Result (list string) :=
  match args with
  | [] => Ok []
  | arg :: rest =>
      match dict_get (A_type arg) SUPPORTED_RETURN_TYPES with
      | None => Err err
      | Some s => rbind (parse_return_args err rest) (λ ss, Ok (s :: ss))
      end
  end.

Definition parse_return (annotation : Annotation)
    (error_fn : string → Error) : Result string :=
  match annotation with
  | A_None => Ok "()"
  | A_type (T_Tuple args) =>
      rbind (parse_return_args
               (error_fn (err_unsupported_return annotation)) args)
            (λ ss, Ok ("(" +:+ PyStr.join ", " ss +:+ ")"))
  | _ =>
      match dict_get annotation SUPPORTED_RETURN_TYPES with
      | None => Err (error_fn (err_unsupported_return annotation))
      | Some s => Ok s
      end
  end.

Definition err_param_kind : string :=
  "We do not support positional-only args, varargs, or varkwargs.".

Definition err_no_annotation (name : string) : string :=
  "Parameter " +:+ name +:+ " must have a type annotation.".

Definition err_unsupported_param (name : string) (a : Annotation) : string :=
  "Parameter " +:+ name +:+ " has unsupported type " +:+ annotation_repr a +:+
  ". " +:+
  "The valid types are: " +:+ keys_repr SUPPORTED_PARAM_TYPES +:+ ".".

Definition err_default (name : string) : string :=
  "Parameter " +:+ name +:+ " has a default value; this is not supported. " +:+
  "If you want to use default values then create a function with " +:+
  "default values that invokes the custom op.".

Definition err_mutated (name : string) : string :=
  "Parameter " +:+ name +:+
  " is in mutable_args but only Tensors or collections of Tensors can be mutated".

(** One turn of the loop over [enumerate(sig.parameters.items())]. *)
Definition infer_param (sig : Signature) (mutated_args : list string)
    (idx : nat) (param : Param) : Result string :=
  let name := p_name param in
  if negb (supported_param param) then Err (infer_error sig err_param_kind)
  else match p_annotation param with
  | A_empty => Err (infer_error sig (err_no_annotation name))
  | annotation =>
    match dict_get annotation SUPPORTED_PARAM_TYPES with
    | None => Err (infer_error sig (err_unsupported_param name annotation))
    | Some schema_type =>
      if p_has_default param then Err (infer_error sig (err_default name))
      else if bool_decide (name ∈ mutated_args) then
        if negb (PyStr.startswith "Tensor" schema_type)
        then Err (infer_error sig (err_mutated name))
        else Ok ("Tensor(a" +:+ pretty idx +:+ "!)" +:+
                 PyStr.drop (String.length "Tensor") schema_type +:+
                 " " +:+ name)
      else Ok (schema_type +:+ " " +:+ name)
    end
  end.

Fixpoint infer_params (sig : Signature) (mutated_args : list string)
    (idx : nat) (ps : list Param) : Result (list string) :=
  match ps with
  | [] => Ok []
  | param :: rest =>
      rbind (infer_param sig mutated_args idx param) (λ s,
      rbind (infer_params sig mutated_args (S idx) rest) (λ ss,
      Ok (s :: ss)))
  end.

(** [infer_schema(prototype_function, mutated_args)], on the signature of
    the function. *)
Definition infer_schema (sig : Signature) (mutated_args : list string)
    : Result string :=
  rbind (infer_params sig mutated_args 0 (parameters sig)) (λ params,
  rbind (parse_return (return_annotation sig) (infer_error sig)) (λ ret,
  Ok ("(" +:+ PyStr.join ", " params +:+ ") -> " +:+ ret))).

(** ** Registered implementations *)

(** A Python callable as far as the module can tell callables apart:
    a user function, the wrapper [f_with_ctx] that [impl_abstract] builds,
    or the kernel that [construct_autograd_kernel] builds from its
    arguments. *)
Inductive Callable :=
  | UserFn (id : nat)
  | FWithCtx (f : Callable) (qualname location : string)
  | AutogradKernel (output_differentiability : option (list bool))
      (qualname : string) (save_for_backward_fn backward_fn : Callable).

Global Instance Callable_eq_dec : EqDecision Callable.
Proof. solve_decision. Defined.

Record FuncAndLocation := {
  func : Callable;
  location : string
}.

Global Instance FuncAndLocation_eq_dec : EqDecision FuncAndLocation.
Proof. solve_decision. Defined.

(** ** Function schemas ([torchgen.model])

    The parts of a parsed [FunctionSchema] the module reads.  Parsing itself
    belongs to [torchgen] and is a field of [Host]. *)

Inductive SchemaKind :=
  | functional | inplace | out | mutable | scratch.

Inductive BaseTy :=
  | BaseTy_int | BaseTy_SymInt | BaseTy_bool | BaseTy_float | BaseTy_Tensor
  | BaseTy_other (name : string).

Inductive SchemaType :=
  | BaseType (b : BaseTy)
  | ListType (elem : SchemaType) (size : option nat)
  | OptionalType (elem : SchemaType).

Global Instance SchemaKind_eq_dec : EqDecision SchemaKind.
Proof. solve_decision. Defined.
Global Instance BaseTy_eq_dec : EqDecision BaseTy.
Proof. solve_decision. Defined.
Global Instance SchemaType_eq_dec : EqDecision SchemaType.
Proof. solve_decision. Defined.

Record SchemaArgument := {
  arg_name : string;
  arg_has_default : bool        (* arg.default is not None *)
}.

Record SchemaReturn := {
  ret_annotation : option bool; (* None, or Some is_write *)
  ret_type : SchemaType;
  ret_type_str : string         (* str(ret.type) *)
}.

Record OperatorName := {
  base_name : string;           (* str(operator_name.name) *)
  overload_name : option string
}.

Record FunctionSchema := {
  schema_name : OperatorName;
  self_arg : bool;              (* schema.arguments.self_arg is not None *)
  flat_positional : list SchemaArgument;
  flat_kwarg_only : list SchemaArgument;
  returns : list SchemaReturn;
  schema_kind : SchemaKind;     (* schema.kind() *)
  schema_str : string           (* str(schema) *)
}.

(** ** The world outside the module *)

(** Handles handed out by the host. *)
Definition Lib := nat.
Definition OpHandle := nat.

(** An overload found under [torch.ops] (what [get_op] returns). *)
Record Overload := {
  ov_namespace : string;        (* op.namespace *)
  ov_name : string;             (* op.name() *)
  ov_schema : string            (* str(op._schema) *)
}.

(** An operator packet; [packet_default] is its attribute [default]. *)
Record OpPacket := {
  packet_default : option Overload
}.

(** Modelled from the spec: the name-indexed external table, [torch.ops],
    is not part of the file.  It is taken as a table from namespace and
    operator name to packet, with Python attribute access: [hasattr] is
    membership and [delattr] removes the entry.  [dispatcher] is the rest of
    the host's state, about which the module knows nothing. *)
Record External (D : Type) := {
  torch_ops : gmap string (gmap string OpPacket);
  dispatcher : D
}.
Arguments torch_ops {D} _.
Arguments dispatcher {D} _.

(** A Python function object handed to [custom_op]. *)
Record PyFunction := {
  fn_is_function : bool;        (* inspect.isfunction(func) *)
  fn_type_repr : string;        (* the text of type(func) *)
  fn_name : string;             (* func.__name__ *)
  fn_module : string;
  fn_doc : option string;
  fn_signature : Signature
}.

(** What the module hands to the host as a kernel: a user callable, or the
    proxy built by [autograd_kernel_indirection] around a weak reference to
    the operator at address [ref]. *)
Inductive Kernel :=
  | K_callable (f : Callable)
  | K_autograd_indirection (ref : nat).

(** The operations of the host the module calls. *)
Record Host (D : Type) := {
  (* torchgen.model.FunctionSchema.parse *)
  FunctionSchema_parse : string → Result FunctionSchema;
  (* torch._library.utils.is_functional_schema *)
  is_functional_schema : FunctionSchema → bool;
  (* torch.library.Library(ns, "FRAGMENT") *)
  Library_new : string → Py (External D) Lib;
  (* lib.define(schema_str, tags) *)
  Library_define : Lib → string → list string → Py (External D) unit;
  (* lib.impl(opname, fn, key) and library.impl(lib, opname, key)(fn) *)
  Library_impl : Lib → string → string → Kernel → Py (External D) unit;
  (* torch._C._dispatch_find_schema_or_throw *)
  dispatch_find_schema_or_throw : string → string → Py (External D) OpHandle;
  (* torch._C._dispatch_set_report_error_callback; the callback is
     report_error_callback applied to a weak reference to the operator *)
  dispatch_set_report_error_callback : OpHandle → nat → Py (External D) unit;
  (* torch._C._dispatch_has_kernel_for_dispatch_key; like the next one it
     raises for an operator the dispatcher does not know *)
  dispatch_has_kernel_for_dispatch_key :
    string → string → External D → Result bool;
  (* torch._C._dispatch_has_computed_kernel_for_dispatch_key *)
  dispatch_has_computed_kernel_for_dispatch_key :
    string → string → External D → Result bool
}.
Arguments FunctionSchema_parse {D} _.
Arguments is_functional_schema {D} _.
Arguments Library_new {D} _.
Arguments Library_define {D} _.
Arguments Library_impl {D} _.
Arguments dispatch_find_schema_or_throw {D} _.
Arguments dispatch_set_report_error_callback {D} _.
Arguments dispatch_has_kernel_for_dispatch_key {D} _.
Arguments dispatch_has_computed_kernel_for_dispatch_key {D} _.

(** ** The class [CustomOp] *)

Record CustomOp := {
  _schema : FunctionSchema;
  _cpp_ns : string;
  _lib : option Lib;                 (* None once deleted by [del self._lib] *)
  _ophandle : OpHandle + Overload;   (* a dispatcher handle, or an overload *)
  _opname : string;
  _qualname : string;
  op__name__ : option string;
  op__module__ : option string;
  op__doc__ : option string;
  _impls : gmap string FuncAndLocation;
  _registered_autograd_kernel_indirection : bool;
  (* None while the attribute has not been assigned *)
  _output_differentiability : option (option (list bool))
}.

Definition set_impls (f : gmap string FuncAndLocation → gmap string FuncAndLocation)
    (self : CustomOp) : CustomOp :=
  {| _schema := _schema self; _cpp_ns := _cpp_ns self; _lib := _lib self;
     _ophandle := _ophandle self; _opname := _opname self;
     _qualname := _qualname self; op__name__ := op__name__ self;
     op__module__ := op__module__ self; op__doc__ := op__doc__ self;
     _impls := f (_impls self);
     _registered_autograd_kernel_indirection :=
       _registered_autograd_kernel_indirection self;
     _output_differentiability := _output_differentiability self |}.

Definition set_lib (l : option Lib) (self : CustomOp) : CustomOp :=
  {| _schema := _schema self; _cpp_ns := _cpp_ns self; _lib := l;
     _ophandle := _ophandle self; _opname := _opname self;
     _qualname := _qualname self; op__name__ := op__name__ self;
     op__module__ := op__module__ self; op__doc__ := op__doc__ self;
     _impls := _impls self;
     _registered_autograd_kernel_indirection :=
       _registered_autograd_kernel_indirection self;
     _output_differentiability := _output_differentiability self |}.

Definition set_registered_indirection (b : bool) (self : CustomOp) : CustomOp :=
  {| _schema := _schema self; _cpp_ns := _cpp_ns self; _lib := _lib self;
     _ophandle := _ophandle self; _opname := _opname self;
     _qualname := _qualname self; op__name__ := op__name__ self;
     op__module__ := op__module__ self; op__doc__ := op__doc__ self;
     _impls := _impls self;
     _registered_autograd_kernel_indirection := b;
     _output_differentiability := _output_differentiability self |}.

Definition set_output_differentiability (o : option (list bool))
    (self : CustomOp) : CustomOp :=
  {| _schema := _schema self; _cpp_ns := _cpp_ns self; _lib := _lib self;
     _ophandle := _ophandle self; _opname := _opname self;
     _qualname := _qualname self; op__name__ := op__name__ self;
     op__module__ := op__module__ self; op__doc__ := op__doc__ self;
     _impls := _impls self;
     _registered_autograd_kernel_indirection :=
       _registered_autograd_kernel_indirection self;
     _output_differentiability := Some o |}.

Definition set_dunder (n m d : option string) (self : CustomOp) : CustomOp :=
  {| _schema := _schema self; _cpp_ns := _cpp_ns self; _lib := _lib self;
     _ophandle := _ophandle self; _opname := _opname self;
     _qualname := _qualname self; op__name__ := n;
     op__module__ := m; op__doc__ := d;
     _impls := _impls self;
     _registered_autograd_kernel_indirection :=
       _registered_autograd_kernel_indirection self;
     _output_differentiability := _output_differentiability self |}.

(** [CustomOp.__repr__]. *)
Definition CustomOp_repr (self : CustomOp) : string :=
  "<CustomOp(op=" +:+ PyStr.dq +:+ _qualname self +:+ PyStr.dq +:+ ")>".

Definition err_duplicate_impl (kind qualname location : string) : Error :=
  Raise RuntimeError
    ("Attempting to register a " +:+ kind +:+ " impl for operator " +:+
     qualname +:+ " " +:+
     "that already has a " +:+ kind +:+
     " impl registered from Python at " +:+
     location +:+ ". This is not supported.").

Definition err_key (k : string) : Error := Raise KeyError k.
Definition err_attribute (a : string) : Error := Raise AttributeError a.
Definition err_assert : Error := Raise AssertionError EmptyString.

Definition _has_impl (kind : string) (self : CustomOp) : bool :=
  bool_decide (is_Some (_impls self !! kind)).

Definition _get_impl (kind : string) (self : CustomOp) : Result FuncAndLocation :=
  match _impls self !! kind with
  | Some fl => Ok fl
  | None => Err (err_key kind)
  end.

(** [_register_impl(kind, func, stacklevel)].  [caller] is the text
    [filename:lineno] of the frame [stacklevel] levels up, which the method
    reads from the interpreter. *)
Definition _register_impl (kind : string) (f : Callable) (caller : string)
    : Py CustomOp unit :=
  λ self,
    if _has_impl kind self then
      match _impls self !! kind with
      | Some func_and_location =>
          (Err (err_duplicate_impl kind (_qualname self)
                  (location func_and_location)), self)
      | None => (Err (err_key kind), self)
      end
    else
      (Ok tt, set_impls (λ m, <[kind := {| func := f; location := caller |}]> m)
                self).

(** The path of the module, as frames report it. *)
Definition this_file : string := "torch/_custom_op/impl.py".

(** ** Lookup under [torch.ops] *)

Definition err_op_not_found (qualname : string) : Error :=
  Raise ValueError
    ("Could not find the operator " +:+ qualname +:+
     ". Please make sure you have " +:+
     "already registered the operator and (if registered from C++) " +:+
     "loaded it via torch.ops.load_library.").

Definition get_op {D} (qualname : string) (ext : External D) : Result Overload :=
  rbind (parse_qualname qualname) (λ '(ns, name),
  match torch_ops ext !! ns with
  | None => Err (err_op_not_found qualname)
  | Some opnamespace =>
      match opnamespace !! name with
      | None => Err (err_op_not_found qualname)
      | Some packet =>
          match packet_default packet with
          | None => Err (err_op_not_found qualname)
          | Some ov => Ok ov
          end
      end
  end).

(** ** Methods of [CustomOp]

    A method runs on the object [self] and on the world outside the module.
    [ref] is the address of [self]; it is what [weakref.proxy(self)] holds. *)

Section Methods.
Context {D : Type} (host : Host D).

Abbreviation Self := (CustomOp * External D)%type.

Definition on_self {A} (m : Py CustomOp A) : Py Self A :=
  λ '(self, ext), let '(r, self') := m self in (r, (self', ext)).

Definition on_ext {A} (m : Py (External D) A) : Py Self A :=
  λ '(self, ext), let '(r, ext') := m ext in (r, (self, ext')).

Definition get_self : Py Self CustomOp := λ s, (Ok (fst s), s).
Definition get_ext : Py Self (External D) := λ s, (Ok (snd s), s).

(** Reading [self._lib]. *)
Definition read_lib : Py Self Lib :=
  λ s, match _lib (fst s) with
       | Some l => (Ok l, s)
       | None => (Err (err_attribute "_lib"), s)
       end.

Local Open Scope py_scope.

Definition _register_autograd_kernel_indirection (ref : nat) : Py Self unit :=
  self <- get_self ;;
  if _registered_autograd_kernel_indirection self then praise err_assert
  else
    lib <- read_lib ;;
    on_ext (Library_impl host lib (_opname self) "Autograd"
              (K_autograd_indirection ref)) ;;;
    on_self (λ self, (Ok tt, set_registered_indirection true self)).

Definition err_has_library_impl (device_type qualname : string) : Error :=
  Raise RuntimeError
    ("impl(..., device_types=" +:+ device_type +:+ "): the operator " +:+
     qualname +:+ " " +:+
     "already has an implementation for this device type via a " +:+
     "pre-existing torch.library or TORCH_LIBRARY registration.").

Definition _check_doesnt_have_library_impl (device_type : string)
    : Py Self unit :=
  self <- get_self ;;
  if _has_impl device_type self then pret tt
  else match SUPPORTED_DEVICE_TYPE_TO_KEY !! device_type with
       | None => praise (err_key device_type)
       | Some key =>
           ext <- get_ext ;;
           has_kernel <- plift (dispatch_has_computed_kernel_for_dispatch_key
                                  host (_qualname self) key ext) ;;
           if has_kernel
           then praise (err_has_library_impl device_type (_qualname self))
           else pret tt
       end.

(** The argument of [impl]: one string, an iterable that can be read more
    than once (a list, a tuple, a set), or a one-shot iterator (a
    generator), which is used up by the first loop over it. *)
Inductive DeviceTypes :=
  | DT_str (s : string)
  | DT_iter (l : list string)
  | DT_once (l : list string).

(** What the validation loop of [impl] reads. *)
Definition device_type_list (device_types : DeviceTypes) : list string :=
  match device_types with
  | DT_str s => [s]
  | DT_iter l => l
  | DT_once l => l
  end.

(** What [set(device_types)] in [inner] reads, after the validation loop
    has run to its end. *)
Definition device_types_left (device_types : DeviceTypes) : list string :=
  match device_types with
  | DT_str s => [s]
  | DT_iter l => l
  | DT_once _ => []
  end.

Fixpoint validate_device_types (l : list string) : Result unit :=
  match l with
  | [] => Ok tt
  | device_type :: rest =>
      rbind (validate_device_type device_type) (λ _,
      validate_device_types rest)
  end.

(** The body of the loop of [inner] in [impl]. *)
Definition impl_one (f : Callable) (caller : string) (device_type : string)
    : Py Self unit :=
  _check_doesnt_have_library_impl device_type ;;;
  on_self (_register_impl device_type f caller) ;;;
  match SUPPORTED_DEVICE_TYPE_TO_KEY !! device_type with
  | None => praise (err_key device_type)
  | Some dispatch_key =>
      self <- get_self ;;
      lib <- read_lib ;;
      on_ext (Library_impl host lib (_opname self) dispatch_key (K_callable f))
  end.

Fixpoint for_each {S A} (body : A → Py S unit) (l : list A) : Py S unit :=
  match l with
  | [] => pret tt
  | x :: rest => body x ;;; for_each body rest
  end.

(** [inner] of [impl].  Python does not fix the order in which
    [set(device_types)] is visited; the order of [remove_dups] is taken,
    each device type once. *)
Definition impl_inner (device_types : list string) (f : Callable)
    (caller : string) : Py Self Callable :=
  for_each (impl_one f caller) (remove_dups device_types) ;;;
  pret f.

(** [self.impl(device_types)(f)]: the decorator is built, which validates
    the device types, and is then applied to [f]. *)
Definition impl (device_types : DeviceTypes) (f : Callable) (caller : string)
    : Py Self Callable :=
  plift (validate_device_types (device_type_list device_types)) ;;;
  impl_inner (device_types_left device_types) f caller.

(** [self.impl_factory()(f)]. *)
Definition impl_factory (f : Callable) (caller : string) : Py Self Callable :=
  on_self (_register_impl "factory" f caller) ;;;
  self <- get_self ;;
  lib <- read_lib ;;
  on_ext (Library_impl host lib (_opname self) "BackendSelect" (K_callable f)) ;;;
  pret f.

Definition err_meta_composite_implicit (qualname : string) : Error :=
  Raise RuntimeError
    ("impl_abstract(...): the operator " +:+ qualname +:+ " " +:+
     "already has an implementation for this device type via a " +:+
     "pre-existing registration to DispatchKey::CompositeImplicitAutograd." +:+
     "CompositeImplicitAutograd operators do not need an abstract impl; " +:+
     "instead, the operator will decompose into its constituents and those " +:+
     "can have abstract impls defined on them.").

Definition err_meta_exists (qualname : string) : Error :=
  Raise RuntimeError
    ("impl_abstract(...): the operator " +:+ qualname +:+ " " +:+
     "already has an DispatchKey::Meta implementation via a " +:+
     "pre-existing torch.library or TORCH_LIBRARY registration. " +:+
     "Please either remove that registration or don't call impl_abstract.").

Definition _check_doesnt_have_library_meta_impl : Py Self unit :=
  self <- get_self ;;
  ext <- get_ext ;;
  let has key :=
    plift (dispatch_has_kernel_for_dispatch_key host (_qualname self) key ext)
  in
  if _has_impl "abstract" self then pret tt
  else
    explicit <- has "CompositeExplicitAutograd" ;;
    escape <- (if explicit
               then meta <- has "Meta" ;; pret (negb meta)
               else pret false) ;;
    if escape then pret tt
    else
      implicit <- has "CompositeImplicitAutograd" ;;
      if implicit
      then praise (err_meta_composite_implicit (_qualname self))
      else
        meta <- has "Meta" ;;
        if meta then praise (err_meta_exists (_qualname self))
        else pret tt.

(** [self.impl_abstract()(f)]. *)
Definition impl_abstract (f : Callable) (caller : string) : Py Self Callable :=
  _check_doesnt_have_library_meta_impl ;;;
  on_self (_register_impl "abstract" f caller) ;;;
  self <- get_self ;;
  fl <- plift (_get_impl "abstract" self) ;;
  lib <- read_lib ;;
  on_ext (Library_impl host lib (_opname self) "Meta"
            (K_callable (FWithCtx f (_qualname self) (location fl)))) ;;;
  pret f.

(** *** The backward formula *)

Definition err_cannot_register_backward (self : CustomOp) (detail : string)
    : Error :=
  Raise RuntimeError
    ("Cannot use torch._custom_ops APIs to register backward " +:+
     "formula for " +:+ detail +:+ ". Got operator " +:+
     _qualname self +:+ " with schema: " +:+ schema_str (_schema self)).

Definition allowed_return_types : list (SchemaType * string) :=
  [(BaseType BaseTy_int, "int");
   (BaseType BaseTy_SymInt, "SymInt");
   (BaseType BaseTy_bool, "bool");
   (BaseType BaseTy_float, "float");
   (BaseType BaseTy_Tensor, "Tensor");
   (ListType (BaseType BaseTy_Tensor) None, "List[Tensor]")].

Definition allowed_return_types_repr : string :=
  "[" +:+ PyStr.join ", "
            (map (λ kv, "'" +:+ snd kv +:+ "'") allowed_return_types) +:+ "]".

Definition is_allowed_return (ret : SchemaReturn) : bool :=
  bool_decide (ret_type ret ∈ map fst allowed_return_types).

Definition _check_can_register_backward : Py Self unit :=
  self <- get_self ;;
  let schema := _schema self in
  let error detail := praise (err_cannot_register_backward self detail) in
  if negb (bool_decide (schema_kind schema = functional))
  then error "non-functional operator"
  else
    let rets := returns schema in
    match rets with
    | [] => error "operator with no returns"
    | _ =>
        if existsb (λ r, match ret_annotation r with
                         | Some is_write => negb is_write
                         | None => false
                         end) rets
        then error "operator that returns views"
        else
          match List.find (λ r, negb (is_allowed_return r)) rets with
          | Some ret =>
              error ("operator with return not in " +:+
                     allowed_return_types_repr +:+
                     " (got " +:+ ret_type_str ret +:+ ")")
          | None => pret tt
          end
    end.

Definition err_autograd_composite_implicit (qualname : string) : Error :=
  Raise RuntimeError
    ("impl_backward/impl_save_for_backward: the operator " +:+ qualname +:+
     " " +:+
     "already has an implementation for this device type via a " +:+
     "pre-existing registration to DispatchKey::CompositeImplicitAutograd." +:+
     "CompositeImplicitAutograd operators do not need an autograd formula; " +:+
     "instead, the operator will decompose into its constituents and those " +:+
     "can have autograd formulas defined on them.").

Definition err_autograd_exists (qualname key : string) : Error :=
  Raise RuntimeError
    ("impl_backward/impl_save_for_backward: " +:+
     "the operator " +:+ qualname +:+ " already has an Autograd kernel " +:+
     "registered to DispatchKey::" +:+ key +:+ " vi a pre-existing " +:+
     "torch.library or TORCH_LIBRARY registration. Please either " +:+
     "remove those registrations or don't use the torch._custom_ops APIs").

Definition _check_doesnt_have_library_autograd_impl : Py Self unit :=
  self <- get_self ;;
  ext <- get_ext ;;
  let has key :=
    plift (dispatch_has_kernel_for_dispatch_key host (_qualname self) key ext)
  in
  if _registered_autograd_kernel_indirection self then pret tt
  else
    implicit <- has "CompositeImplicitAutograd" ;;
    if implicit
    then praise (err_autograd_composite_implicit (_qualname self))
    else
      for_each (λ key,
                  has_kernel <- has key ;;
                  if has_kernel
                  then praise (err_autograd_exists (_qualname self) key)
                  else pret tt)
               ["Autograd"; "AutogradCPU"; "AutogradCUDA"].

(** [_register_autograd_kernel].  [construct_autograd_kernel] belongs to
    the sibling module [autograd]; the kernel it returns is kept as the
    constructor [AutogradKernel] applied to its arguments.  The method
    calls [_register_impl] with the default [stacklevel], so the recorded
    location is the line of [inner] that called the method, [caller]. *)
Definition _register_autograd_kernel (caller : string) : Py Self unit :=
  self <- get_self ;;
  if negb (_has_impl "backward" self) then praise err_assert
  else if negb (_has_impl "save_for_backward" self) then praise err_assert
  else
    match _output_differentiability self with
    | None => praise (err_attribute "_output_differentiability")
    | Some output_differentiability =>
        ext <- get_ext ;;
        _ <- plift (get_op (_qualname self) ext) ;;
        sfb <- plift (_get_impl "save_for_backward" self) ;;
        bwd <- plift (_get_impl "backward" self) ;;
        let kernel :=
          AutogradKernel output_differentiability (_qualname self)
            (func sfb) (func bwd) in
        on_self (_register_impl "autograd" kernel caller)
    end.

(** [self.impl_save_for_backward()(f)]; [inner] returns [None]. *)
Definition impl_save_for_backward (ref : nat) (f : Callable) (caller : string)
    : Py Self unit :=
  _check_can_register_backward ;;;
  _check_doesnt_have_library_autograd_impl ;;;
  self <- get_self ;;
  (if negb (_registered_autograd_kernel_indirection self)
   then _register_autograd_kernel_indirection ref
   else pret tt) ;;;
  on_self (_register_impl "save_for_backward" f caller) ;;;
  self <- get_self ;;
  if _has_impl "backward" self
  then _register_autograd_kernel (this_file +:+ ":567")
  else pret tt.

(** The argument [output_differentiability] of [impl_backward]: [None],
    something that is not a list, or a list whose items are bools
    ([Some b]) or something else ([None]).  [od_repr] is its text. *)
Inductive OutputDiff :=
  | OD_None
  | OD_not_list (od_repr : string)
  | OD_list (items : list (option bool)) (od_repr : string).

Definition err_output_differentiability (repr : string) : Error :=
  Raise RuntimeError
    ("impl_backward(output_differentiability): expected " +:+
     "output_differentiability to be a list of bools with " +:+
     "length equal to the number of outputs of this CustomOp " +:+
     "got: " +:+ repr).

Fixpoint all_bools (items : list (option bool)) : option (list bool) :=
  match items with
  | [] => Some []
  | Some b :: rest => option_map (cons b) (all_bools rest)
  | None :: _ => None
  end.

(** The checks [impl_backward] makes before it builds [inner]. *)
Definition check_output_differentiability (self : CustomOp)
    (od : OutputDiff) : Result (option (list bool)) :=
  match od with
  | OD_None => Ok None
  | OD_not_list repr => Err (err_output_differentiability repr)
  | OD_list items repr =>
      match all_bools items with
      | None => Err (err_output_differentiability repr)
      | Some l =>
          if bool_decide (length (returns (_schema self)) = length l)
          then Ok (Some l)
          else Err (err_output_differentiability repr)
      end
  end.

(** [self.impl_backward(output_differentiability)(f)]. *)
Definition impl_backward (ref : nat) (od : OutputDiff) (f : Callable)
    (caller : string) : Py Self unit :=
  self <- get_self ;;
  output_differentiability <- plift (check_output_differentiability self od) ;;
  _check_can_register_backward ;;;
  _check_doesnt_have_library_autograd_impl ;;;
  self <- get_self ;;
  (if negb (_registered_autograd_kernel_indirection self)
   then _register_autograd_kernel_indirection ref
   else pret tt) ;;;
  on_self (_register_impl "backward" f caller) ;;;
  on_self (λ self, (Ok tt,
     set_output_differentiability output_differentiability self)) ;;;
  self <- get_self ;;
  if _has_impl "save_for_backward" self
  then _register_autograd_kernel (this_file +:+ ":631")
  else pret tt.

End Methods.

(** ** Schema checks of [custom_op] *)

Definition err_not_functional (schema : FunctionSchema) : Error :=
  Raise ValueError
    ("custom_op only supports functional operators " +:+
     "(ops that do not mutate any inputs, do not return " +:+
     "views of the inputs, and has at least one return). " +:+
     "Got the following non-functional schema: " +:+ schema_str schema).

Definition err_self_arg (schema : FunctionSchema) : Error :=
  Raise ValueError
    ("custom_op does not support arguments named 'self'. Please " +:+
     "rename your argument. Got: " +:+ schema_str schema).

Definition validate_schema {D} (host : Host D) (schema : FunctionSchema)
    : Result unit :=
  if negb (is_functional_schema host schema) then Err (err_not_functional schema)
  else if self_arg schema then Err (err_self_arg schema)
  else Ok tt.

Definition err_manual_param_kind (sig : Signature) : Error :=
  Raise ValueError
    ("custom_op(..., manual_schema)(func): positional-only args, " +:+
     "varargs, and kwargs are not supported. Please rewrite `func` " +:+
     "to not have them. Got `func` with signature: " +:+ sig_str sig).

Definition err_manual_annotations (sig : Signature) : Error :=
  Raise ValueError
    ("custom_op(..., manual_schema)(func): When passing in a manual " +:+
     "schema, we expect `func` to have no type annotations to avoid " +:+
     "ambiguity. Got `func` with signature: " +:+ sig_str sig).

Definition err_manual_mismatch (sig : Signature) (schema : FunctionSchema)
    : Error :=
  Raise ValueError
    ("custom_op(..., manual_schema)(func): When passing in a manual " +:+
     "schema, we expect `func`'s signature to match `manual_schema` " +:+
     "(aside from type annotations). " +:+
     "func's signature: " +:+ sig_str sig +:+ ", manual_schema: " +:+
     schema_str schema).

Definition err_manual_defaults (sig : Signature) (schema : FunctionSchema)
    : Error :=
  Raise ValueError
    ("custom_op(..., manual_schema)(func): " +:+
     "neither func nor manual_schema should have default " +:+
     "arguments. Got " +:+
     "func's signature: " +:+ sig_str sig +:+ ", manual_schema: " +:+
     schema_str schema).

(** The loop of [compare] over [zip(sig_args, schema_args)]. *)
Fixpoint compare_zip (sig : Signature) (schema : FunctionSchema)
    (sig_args : list Param) (schema_args : list SchemaArgument) : Result unit :=
  match sig_args, schema_args with
  | param :: ps, arg :: args =>
      if negb (bool_decide (p_name param = arg_name arg))
      then Err (err_manual_mismatch sig schema)
      else if p_has_default param || arg_has_default arg
      then Err (err_manual_defaults sig schema)
      else compare_zip sig schema ps args
  | _, _ => Ok tt
  end.

Definition compare (sig : Signature) (schema : FunctionSchema)
    (sig_args : list Param) (schema_args : list SchemaArgument) : Result unit :=
  if negb (bool_decide (length sig_args = length schema_args))
  then Err (err_manual_mismatch sig schema)
  else compare_zip sig schema sig_args schema_args.

Definition has_kind (k : ParamKind) (param : Param) : bool :=
  match k, p_kind param with
  | POSITIONAL_OR_KEYWORD, POSITIONAL_OR_KEYWORD => true
  | KEYWORD_ONLY, KEYWORD_ONLY => true
  | _, _ => false
  end.

Definition validate_function_matches_schema (schema : FunctionSchema)
    (fn : PyFunction) : Result unit :=
  let sig := fn_signature fn in
  if negb (forallb supported_param (parameters sig))
  then Err (err_manual_param_kind sig)
  else if existsb (λ p, negb (Annotation_eqb (p_annotation p) A_empty))
                  (parameters sig)
          || negb (Annotation_eqb (return_annotation sig) A_empty)
  then Err (err_manual_annotations sig)
  else
    let positional := filter (λ p, has_kind POSITIONAL_OR_KEYWORD p = true)
                             (parameters sig) in
    let kwargonly := filter (λ p, has_kind KEYWORD_ONLY p = true)
                            (parameters sig) in
    rbind (compare sig schema positional (flat_positional schema)) (λ _,
    compare sig schema kwargonly (flat_kwarg_only schema)).

(** ** The global registry and the objects it holds *)

(** The state of the process as the module sees it.  [heap] holds the
    [CustomOp] objects by address; [global_registry] is the module-level
    dict, from qualified name to the address of the object it refers to. *)
Record World (D : Type) := {
  global_registry : gmap string nat;
  heap : gmap nat CustomOp;
  next_addr : nat;
  external : External D
}.
Arguments global_registry {D} _.
Arguments heap {D} _.
Arguments next_addr {D} _.
Arguments external {D} _.

Definition err_dead_reference : Error :=
  Raise ReferenceError "weakly-referenced object no longer exists".

Section Module.
Context {D : Type} (host : Host D).

Local Open Scope py_scope.

(** Calling a method on the object at address [ref]. *)
Definition with_self {A} (ref : nat) (m : Py (CustomOp * External D) A)
    : Py (World D) A :=
  λ w, match heap w !! ref with
       | None => (Err err_dead_reference, w)
       | Some self =>
           let '(r, (self', ext')) := m (self, external w) in
           (r, {| global_registry := global_registry w;
                  heap := <[ref := self']> (heap w);
                  next_addr := next_addr w;
                  external := ext' |})
       end.

(** Calling the host. *)
Definition with_ext {A} (m : Py (External D) A) : Py (World D) A :=
  λ w, let '(r, ext') := m (external w) in
       (r, {| global_registry := global_registry w;
              heap := heap w;
              next_addr := next_addr w;
              external := ext' |}).

Definition err_private_constructor : Error :=
  Raise RuntimeError
    ("The CustomOp constructor is private and we do not guarantee " +:+
     "BC for it. Please use custom_op(...) to create a CustomOp object").

(** [CustomOp.__init__]; the result is the address of the new object. *)
Definition CustomOp_init (lib : Lib) (cpp_ns : string)
    (schema : FunctionSchema) (operator_name : string)
    (ophandle : OpHandle + Overload) (_private_access : bool)
    : Py (World D) nat :=
  λ w,
    if negb _private_access then (Err err_private_constructor, w)
    else
      let name := cpp_ns +:+ "::" +:+ operator_name in
      let self :=
        {| _schema := schema; _cpp_ns := cpp_ns; _lib := Some lib;
           _ophandle := ophandle; _opname := operator_name;
           _qualname := name; op__name__ := None;
           op__module__ := None; op__doc__ := None;
           _impls := ∅;
           _registered_autograd_kernel_indirection := false;
           _output_differentiability := None |} in
      let ref := next_addr w in
      (Ok ref,
       {| global_registry := <[name := ref]> (global_registry w);
          heap := <[ref := self]> (heap w);
          next_addr := S ref;
          external := external w |}).

Definition find_ophandle_or_throw (cpp_ns : string)
    (operator_name : OperatorName) : Py (External D) OpHandle :=
  let overload_name := default EmptyString (overload_name operator_name) in
  dispatch_find_schema_or_throw host
    (cpp_ns +:+ "::" +:+ base_name operator_name) overload_name.

Definition err_not_a_function (fn : PyFunction) : Error :=
  Raise ValueError
    ("custom_op(...)(func): Expected `func` to be a Python " +:+
     "function, got: " +:+ fn_type_repr fn).

Definition err_func_name (qualname name : string) (fn : PyFunction) : Error :=
  Raise ValueError
    ("custom_op(qualname='" +:+ qualname +:+
     "', ...)(func): expected `func` " +:+
     "to have name '" +:+ name +:+ "' but got '" +:+ fn_name fn +:+ "'. " +:+
     "Please either change the name of `func` or the qualname that " +:+
     "is passed to `custom_op`").

(** [custom_op(qualname, manual_schema)(func)]. *)
Definition custom_op (qualname : string) (manual_schema : option string)
    (fn : PyFunction) : Py (World D) nat :=
  if negb (fn_is_function fn) then praise (err_not_a_function fn)
  else
    names <- plift (parse_qualname qualname) ;;
    let '(ns, name) := names in
    plift (validate_namespace ns) ;;;
    if negb (bool_decide (fn_name fn = name))
    then praise (err_func_name qualname name fn)
    else
      schema <- match manual_schema with
                | None => plift (infer_schema (fn_signature fn) [])
                | Some s => pret s
                end ;;
      let schema_str := name +:+ schema in
      function_schema <- plift (FunctionSchema_parse host schema_str) ;;
      plift (validate_schema host function_schema) ;;;
      (match manual_schema with
       | Some _ => plift (validate_function_matches_schema function_schema fn)
       | None => pret tt
       end) ;;;
      lib <- with_ext (Library_new host ns) ;;
      with_ext (Library_define host lib schema_str []) ;;;
      ophandle <- with_ext (find_ophandle_or_throw ns
                              (schema_name function_schema)) ;;
      result <- CustomOp_init lib ns function_schema name (inl ophandle) true ;;
      with_self result (λ '(self, ext),
        (Ok tt, (set_dunder (Some (fn_name fn)) (Some (fn_module fn))
                   (fn_doc fn) self, ext))) ;;;
      with_ext (Library_impl host lib name "Autograd"
                  (K_autograd_indirection result)) ;;;
      with_ext (dispatch_set_report_error_callback host ophandle result) ;;;
      pret result.

End Module.

Section Lifetime.
Context {D : Type} (host : Host D).

Local Open Scope py_scope.

(** [CustomOp._destroy] on the object at address [ref].  The object
    itself stays in [heap]: the caller holds a reference to it. *)
Definition _destroy (ref : nat) : Py (World D) unit :=
  λ w,
    match heap w !! ref with
    | None => (Err err_dead_reference, w)
    | Some self =>
        match _lib self with
        | None => (Err (err_attribute "_lib"), w)
        | Some _ =>
            let heap' := <[ref := set_lib None self]> (heap w) in
            let ext' :=
              {| torch_ops := alter (delete (_opname self)) (_cpp_ns self)
                                    (torch_ops (external w));
                 dispatcher := dispatcher (external w) |} in
            match global_registry w !! _qualname self with
            | None =>
                (Err (err_key (_qualname self)),
                 {| global_registry := global_registry w; heap := heap';
                    next_addr := next_addr w; external := ext' |})
            | Some _ =>
                (Ok tt,
                 {| global_registry := delete (_qualname self)
                                              (global_registry w);
                    heap := heap';
                    next_addr := next_addr w; external := ext' |})
            end
        end
    end.

(** Reading through [weakref.proxy]: the object while it is alive, a
    [ReferenceError] once it has been freed. *)
Definition proxy_deref (ref : nat) (w : World D) : Result CustomOp :=
  match heap w !! ref with
  | Some self => Ok self
  | None => Err err_dead_reference
  end.

Definition proxy_has_impl (ref : nat) (kind : string) (w : World D)
    : Result bool :=
  rbind (proxy_deref ref w) (λ self, Ok (_has_impl kind self)).

Definition proxy_get_impl (ref : nat) (kind : string) (w : World D)
    : Result FuncAndLocation :=
  rbind (proxy_deref ref w) (_get_impl kind).

(** Python frees an object once nothing refers to it strongly: here, once
    it is neither in the registry nor among the addresses [held] by the
    program. *)
Definition collect (held : gset nat) (w : World D) : World D :=
  let live : gset nat := held ∪ map_img (global_registry w) in
  {| global_registry := global_registry w;
     heap := filter (λ kv, kv.1 ∈ live) (heap w);
     next_addr := next_addr w;
     external := external w |}.

(** [report_error_callback(custom_op, key)]: the exception it raises. *)
Definition report_error_callback (custom_op : CustomOp) (key : string)
    : Error :=
  let op := CustomOp_repr custom_op in
  if bool_decide (key = "Undefined") then
    Raise NotImplementedError
      (op +:+ ": There were no Tensor inputs to this operator " +:+
       "(e.g. you passed an empty list of Tensors). If your operator is a " +:+
       "factory function (that is, it takes no Tensors and constructs " +:+
       "a new one), then please use CustomOp.impl_factory to register " +:+
       "an implementation for it")
  else if bool_decide (key = "Meta") then
    Raise NotImplementedError
      (op +:+ ": when running with device='Meta' tensors: there is no " +:+
       "abstract impl registered for this CustomOp. Please register one via " +:+
       "CustomOp.impl_abstract to get this CustomOp to work with Meta tensors")
  else if bool_decide (key = "CPU") || bool_decide (key = "CUDA") then
    let device := PyStr.lower key in
    Raise NotImplementedError
      (op +:+ ": when running with device='" +:+ device +:+
       "' tensors: there is no " +:+
       device +:+ " impl registered for this CustomOp. Please register one via " +:+
       "CustomOp.impl(device_type='" +:+ device +:+ "')")
  else
    Raise NotImplementedError
      (op +:+ ": No implementation for dispatch key " +:+ key +:+
       ". It is likely " +:+
       "that we have not added this functionality yet, please either open an " +:+
       "issue or if you're feeling adventurous, use the low-level " +:+
       "torch.library API").

(** [custom_op_from_existing(op)]. *)
Definition custom_op_from_existing (op : Overload) : Py (World D) nat :=
  let ns := ov_namespace op in
  lib <- with_ext (Library_new host ns) ;;
  let name := List.last (PyStr.split "::" (ov_name op)) EmptyString in
  let schema_str := List.last (PyStr.split "::" (ov_schema op)) EmptyString in
  schema <- plift (FunctionSchema_parse host schema_str) ;;
  CustomOp_init lib ns schema name (inr op) true.

Definition err_custom_op_not_found (qualname : string) : Error :=
  Raise RuntimeError
    ("Could not find custom op " +:+ PyStr.dq +:+ qualname +:+ PyStr.dq +:+
     ". Did you register it via " +:+
     "the torch._custom_ops API?").

(** [_find_custom_op(qualname, also_check_torch_library)]. *)
Definition _find_custom_op (qualname : string)
    (also_check_torch_library : bool) : Py (World D) nat :=
  λ w,
    match global_registry w !! qualname with
    | Some ref => (Ok ref, w)
    | None =>
        if negb also_check_torch_library
        then (Err (err_custom_op_not_found qualname), w)
        else
          (overload <- plift (get_op qualname (external w)) ;;
           custom_op_from_existing overload) w
    end.

(** [get_abstract_impl(qualname)]. *)
Definition get_abstract_impl (qualname : string) (w : World D)
    : Result (option Callable) :=
  match global_registry w !! qualname with
  | None => Ok None
  | Some ref =>
      rbind (proxy_deref ref w) (λ custom_op,
      if negb (_has_impl "abstract" custom_op) then Ok None
      else rbind (_get_impl "abstract" custom_op) (λ fl, Ok (Some (func fl))))
  end.

(** Unpacking a list of [got] items into the two names [ns, name]. *)
Definition err_unpack (got : nat) : Error :=
  Raise ValueError
    (if (2 <? got)%nat then "too many values to unpack (expected 2)"
     else "not enough values to unpack (expected 2, got " +:+ pretty got +:+
          ")").

(** [_custom_op_with_schema(qualname, schema, needs_fixed_stride_order)]. *)
Definition _custom_op_with_schema (qualname schema : string)
    (needs_fixed_stride_order : bool) : Py (World D) Overload :=
  let parts := PyStr.split "::" qualname in
  match parts with
  | [ns; name] =>
      let schema_str := name +:+ schema in
      function_schema <- plift (FunctionSchema_parse host schema_str) ;;
      plift (validate_schema host function_schema) ;;;
      let tags := if needs_fixed_stride_order
                  then ["needs_fixed_stride_order"] else [] in
      lib <- with_ext (Library_new host ns) ;;
      with_ext (Library_define host lib schema_str tags) ;;;
      ophandle <- with_ext (find_ophandle_or_throw host ns
                              (schema_name function_schema)) ;;
      result <- CustomOp_init lib ns function_schema name (inl ophandle) true ;;
      with_self result (_register_autograd_kernel_indirection host result) ;;;
      with_ext (dispatch_set_report_error_callback host ophandle result) ;;;
      (λ w, (get_op qualname (external w), w))
  | _ => praise (err_unpack (length parts))
  end.

End Lifetime.

(** ** Dispatch *)

(** What the dispatcher knows about one argument of a call. *)
Record ArgProp := {
  is_tensor_family : bool;
  arg_kind : string               (* the device type of a tensor argument *)
}.

(** The device types in order of priority, as the docstring of [impl]
    gives them. *)
Definition DEVICE_PRIORITY : list string := ["cuda"; "cpu"].

Fixpoint index_of (k : string) (l : list string) : nat :=
  match l with
  | [] => O
  | x :: rest => if decide (k = x) then O else S (index_of k rest)
  end.

(** Position in the priority order; the kinds outside it come after it. *)
Definition rank (kind : string) : nat := index_of kind DEVICE_PRIORITY.

(** The total order of the kinds: those of [DEVICE_PRIORITY] first, in its
    order, then the kinds it does not name, among themselves in the order
    of their encodings as numbers.  The docstring orders only [cuda] and
    [cpu]; a total order makes the choice a function of the set of kinds
    present. *)
Definition before (k best : string) : bool :=
  (rank k <? rank best)%nat
  || ((rank k =? rank best)%nat && (encode k <? encode best)%positive).

Definition present_kinds (args : list ArgProp) : list string :=
  map arg_kind (List.filter is_tensor_family args).

Fixpoint highest_priority (best : string) (rest : list string) : string :=
  match rest with
  | [] => best
  | k :: rest' =>
      highest_priority (if before k best then k else best) rest'
  end.

Definition dispatch_key_of (kind : string) : string :=
  default kind (SUPPORTED_DEVICE_TYPE_TO_KEY !! kind).

(** Modelled from the spec: [select], the choice the host dispatcher makes
    when the operator is called ([CustomOp.__call__] hands the call to
    [torch._C._dispatch_call_boxed], which is not part of the file).  Among
    the kinds of the tensor-family arguments the one of highest priority is
    taken, and that kind's registered implementation is returned; with no
    tensor-family argument the factory implementation is returned if there
    is one.  A missing implementation is reported through
    [report_error_callback], with the key [Undefined] when there is no
    tensor-family argument. *)
Definition select (self : CustomOp) (args : list ArgProp)
    : Result FuncAndLocation :=
  match present_kinds args with
  | [] =>
      match _impls self !! "factory" with
      | Some r => Ok r
      | None => Err (report_error_callback self "Undefined")
      end
  | k :: ks =>
      let kind := highest_priority k ks in
      match _impls self !! kind with
      | Some r => Ok r
      | None => Err (report_error_callback self (dispatch_key_of kind))
      end
  end.

(** The error of the spec's taxonomy for a call without tensor inputs. *)
Definition NoTensorInputs (self : CustomOp) : Error :=
  report_error_callback self "Undefined".

Definition IncompleteComposition (self : CustomOp) : Error :=
  Raise RuntimeError
    ("IncompleteComposition: " +:+ CustomOp_repr self +:+
     " needs both a backward and a save_for_backward registration").

(** Modelled from the spec: the kernel [autograd_kernel_indirection] builds
    (the sibling module [autograd] is not part of the file).  When it is
    called it looks up the composed implementation, registered under
    [autograd], through its weak reference; without one the call fails with
    [IncompleteComposition]. *)
Definition autograd_kernel_indirection {D} (ref : nat) (w : World D)
    : Result Callable :=
  rbind (proxy_deref ref w) (λ custom_op,
  if _has_impl "autograd" custom_op
  then rbind (_get_impl "autograd" custom_op) (λ fl, Ok (func fl))
  else Err (IncompleteComposition custom_op)).

(** ** The naming rule *)

(** [q] reads [ns::sym], cut at its leftmost [sep]. *)
Definition cut_at_first (sep q ns sym : string) : Prop :=
  q = ns +:+ sep +:+ sym ∧
  ∀ ns' sym', q = ns' +:+ sep +:+ sym' → String.length ns ≤ String.length ns'.

(** The rule the two validators of the module, [parse_qualname] and
    [validate_namespace], enforce on a qualified name. *)
Definition name_rule (q : string) : Prop :=
  ∃ ns sym,
    cut_at_first "::" q ns sym ∧
    (¬ PyStr.occurs_in "." ns) ∧ (ns ∉ RESERVED_NS) ∧
    (¬ PyStr.occurs_in "." sym).

(** The rule [custom_op] enforces on a qualified name: that of the
    module's two validators, and a symbol that is not empty. *)
Definition declare_name_rule (q : string) : Prop :=
  ∃ ns sym,
    cut_at_first "::" q ns sym ∧
    (¬ PyStr.occurs_in "." ns) ∧ (ns ∉ RESERVED_NS) ∧
    sym ≠ EmptyString ∧ (¬ PyStr.occurs_in "." sym).

(** The rule as the specification words it: on top of the above, the
    namespace is not empty either. *)
Definition spec_name_rule (q : string) : Prop :=
  ∃ ns sym,
    q = ns +:+ "::" +:+ sym ∧
    ns ≠ EmptyString ∧ (¬ PyStr.occurs_in "." ns) ∧ (ns ∉ RESERVED_NS) ∧
    sym ≠ EmptyString ∧ (¬ PyStr.occurs_in "." sym).

(** ** Sample data *)

(** The schema [foo(Tensor x) -> Tensor]. *)
Definition sample_schema : FunctionSchema :=
  {| schema_name := {| base_name := "foo"; overload_name := None |};
     self_arg := false;
     flat_positional := [{| arg_name := "x"; arg_has_default := false |}];
     flat_kwarg_only := [];
     returns := [{| ret_annotation := None;
                    ret_type := BaseType BaseTy_Tensor;
                    ret_type_str := "Tensor" |}];
     schema_kind := functional;
     schema_str := "foo(Tensor x) -> Tensor" |}.

(** A freshly constructed operator [mylib::foo]. *)
Definition sample_op : CustomOp :=
  {| _schema := sample_schema; _cpp_ns := "mylib"; _lib := Some 0;
     _ophandle := inl 0; _opname := "foo"; _qualname := "mylib::foo";
     op__name__ := Some "foo"; op__module__ := Some "mylib";
     op__doc__ := None; _impls := ∅;
     _registered_autograd_kernel_indirection := false;
     _output_differentiability := None |}.

(** The signature of [def f(x: Tensor, n: int) -> Tensor]; the flags say
    whether a parameter is keyword-only, [text] is what [str(sig)] prints. *)
Definition param_kind (keyword_only : bool) : ParamKind :=
  if keyword_only then KEYWORD_ONLY else POSITIONAL_OR_KEYWORD.

Definition sig_tensor_int (kw_x kw_n : bool) (text : string) : Signature :=
  {| parameters :=
       [{| p_name := "x"; p_kind := param_kind kw_x;
           p_annotation := A_type T_Tensor; p_has_default := false |};
        {| p_name := "n"; p_kind := param_kind kw_n;
           p_annotation := A_type T_int; p_has_default := false |}];
     return_annotation := A_type T_Tensor;
     sig_str := text |}.

(** A host that accepts every request: every schema text parses to
    [sample_schema], every library call succeeds and changes nothing, and no
    kernel is reported as already present. *)
Definition lenient_host : Host unit :=
  {| FunctionSchema_parse := λ _, Ok sample_schema;
     is_functional_schema := λ _, true;
     Library_new := λ _, pret 0;
     Library_define := λ _ _ _, pret tt;
     Library_impl := λ _ _ _ _, pret tt;
     dispatch_find_schema_or_throw := λ _ _, pret 0;
     dispatch_set_report_error_callback := λ _ _, pret tt;
     dispatch_has_kernel_for_dispatch_key := λ _ _ _, Ok false;
     dispatch_has_computed_kernel_for_dispatch_key := λ _ _ _, Ok false |}.

(** [torch.ops] with the one operator [mylib::foo]. *)
Definition sample_overload : Overload :=
  {| ov_namespace := "mylib"; ov_name := "mylib::foo";
     ov_schema := "mylib::foo(Tensor x) -> Tensor" |}.

Definition sample_external : External unit :=
  {| torch_ops :=
       {[ "mylib" := {[ "foo" := {| packet_default := Some sample_overload |} ]} ]};
     dispatcher := tt |}.

(** The process before any operator has been declared. *)
Definition empty_world : World unit :=
  {| global_registry := ∅; heap := ∅; next_addr := 0;
     external := sample_external |}.

(** The function [def foo(x: Tensor) -> Tensor: ...]. *)
Definition sample_function : PyFunction :=
  {| fn_is_function := true;
     fn_type_repr := "<class 'function'>";
     fn_name := "foo";
     fn_module := "mylib";
     fn_doc := None;
     fn_signature :=
       {| parameters :=
            [{| p_name := "x"; p_kind := POSITIONAL_OR_KEYWORD;
                p_annotation := A_type T_Tensor; p_has_default := false |}];
          return_annotation := A_type T_Tensor;
          sig_str := "(x: torch.Tensor) -> torch.Tensor" |} |}.

Definition cuda_tensor : ArgProp :=
  {| is_tensor_family := true; arg_kind := "cuda" |}.
Definition cpu_tensor : ArgProp :=
  {| is_tensor_family := true; arg_kind := "cpu" |}.

(** Running a method on an operator and keeping the operator. *)
Definition op_after {D A} (m : Py (CustomOp * External D) A)
    (self : CustomOp) (ext : External D) : CustomOp :=
  fst (snd (m (self, ext))).

(** [mylib::foo] after [impl('cpu')(f1)] and [impl('cuda')(f2)]. *)
Definition op_cpu_cuda : CustomOp :=
  op_after (impl lenient_host (DT_str "cuda") (UserFn 2) "user.py:20")
    (op_after (impl lenient_host (DT_str "cpu") (UserFn 1) "user.py:10")
       sample_op sample_external)
    sample_external.

(** [mylib::foo] after [impl_factory()(f3)] and [impl('cpu')(f1)]. *)
Definition op_factory_cpu : CustomOp :=
  op_after (impl lenient_host (DT_str "cpu") (UserFn 1) "user.py:10")
    (op_after (impl_factory lenient_host (UserFn 3) "user.py:30")
       sample_op sample_external)
    sample_external.

Definition int_argument : ArgProp :=
  {| is_tensor_family := false; arg_kind := EmptyString |}.

(** ** The specification's wording of some properties *)

(** A name is accepted by [custom_op] only if it satisfies the
    specification's naming rule. *)
Definition spec_accepts_only_well_formed : Prop :=
  ∀ (host : Host unit) q manual_schema fn w r w',
    custom_op host q manual_schema fn w = (Ok r, w') → spec_name_rule q.

(** A name that breaks the specification's naming rule is refused by the
    name checks, [parse_qualname] or [validate_namespace]. *)
Definition spec_rejects_ill_formed : Prop :=
  ∀ q ns sym,
    ¬ spec_name_rule q →
    parse_qualname q = Ok (ns, sym) → validate_namespace ns ≠ Ok tt.

(** Storing an operator under a name that the registry already holds fails
    and changes nothing. *)
Definition spec_put_rejects_duplicates : Prop :=
  ∀ (w : World unit) lib ns schema name ophandle,
    is_Some (global_registry w !! (ns +:+ "::" +:+ name)) →
    ∃ e, CustomOp_init lib ns schema name ophandle true w = (Err e, w).

(** After [_destroy], no lookup of an implementation through a weak
    reference to the operator succeeds. *)
Definition spec_weak_lookup_fails_after_destroy : Prop :=
  ∀ (w : World unit) ref w',
    _destroy ref w = (Ok tt, w') →
    ∀ kind, is_ok (proxy_get_impl ref kind w') = false.

(** Two worlds with the same registry and the same objects. *)
Definition same_objects {D} (w w' : World D) : Prop :=
  global_registry w' = global_registry w ∧ heap w' = heap w ∧
  next_addr w' = next_addr w.

(** The world after [custom_op("mylib::foo")(foo)] on the lenient host. *)
Definition world_declared : World unit :=
  snd (custom_op lenient_host "mylib::foo" None sample_function empty_world).

(** ... and after [foo.impl_abstract()(f7)] on the operator, at address 0. *)
Definition world_abstract : World unit :=
  snd (with_self 0 (impl_abstract lenient_host (UserFn 7) "user.py:40")
         world_declared).

(** ** Sequences of registrations *)

(** Calls of [_register_impl] made one after the other, each with its kind,
    callable and caller, carrying on when one raises. *)
Fixpoint register_all (calls : list (string * Callable * string))
    (self : CustomOp) : CustomOp :=
  match calls with
  | [] => self
  | (kind, f, caller) :: rest =>
      register_all rest (snd (_register_impl kind f caller self))
  end.

(** One call of a registration method on an operator. *)
Inductive Call :=
  | Call_impl (device_types : DeviceTypes) (f : Callable) (caller : string)
  | Call_impl_factory (f : Callable) (caller : string)
  | Call_impl_abstract (f : Callable) (caller : string)
  | Call_impl_save_for_backward (f : Callable) (caller : string)
  | Call_impl_backward (od : OutputDiff) (f : Callable) (caller : string).

Definition run_call {D} (host : Host D) (ref : nat) (c : Call)
    : Py (CustomOp * External D) unit :=
  match c with
  | Call_impl device_types f caller =>
      pbind (impl host device_types f caller) (λ _, pret tt)
  | Call_impl_factory f caller =>
      pbind (impl_factory host f caller) (λ _, pret tt)
  | Call_impl_abstract f caller =>
      pbind (impl_abstract host f caller) (λ _, pret tt)
  | Call_impl_save_for_backward f caller =>
      impl_save_for_backward host ref f caller
  | Call_impl_backward od f caller =>
      impl_backward host ref od f caller
  end.

(** A program that makes the calls one after the other and carries on when
    one of them raises. *)
Fixpoint run_calls {D} (host : Host D) (ref : nat) (calls : list Call)
    (s : CustomOp * External D) : CustomOp * External D :=
  match calls with
  | [] => s
  | c :: rest => run_calls host ref rest (snd (run_call host ref c s))
  end.

(** Registering a kernel with the host leaves the table [torch.ops] as it
    is. *)
Definition host_keeps_torch_ops {D} (host : Host D) : Prop :=
  ∀ lib opname key kernel ext,
    torch_ops (snd (Library_impl host lib opname key kernel ext))
    = torch_ops ext.

(** The kinds that make up the backward formula. *)
Definition composition_kinds : list string :=
  ["autograd"; "backward"; "save_for_backward"].

(** The composed kernel is registered exactly when both pieces are, and
    [impl_backward] has assigned [_output_differentiability] once the
    backward piece is registered. *)
Definition op_inv (self : CustomOp) : Prop :=
  (is_Some (_impls self !! "autograd") ↔
     is_Some (_impls self !! "backward") ∧
     is_Some (_impls self !! "save_for_backward")) ∧
  (is_Some (_impls self !! "backward") →
     is_Some (_output_differentiability self)).

(** A step that touches neither the pieces of the backward formula nor
    what [_register_autograd_kernel] reads. *)
Definition neutral_step {D} (s s' : CustomOp * External D) : Prop :=
  (∀ k, k ∈ composition_kinds → _impls s'.1 !! k = _impls s.1 !! k) ∧
  _qualname s'.1 = _qualname s.1 ∧
  _output_differentiability s'.1 = _output_differentiability s.1 ∧
  torch_ops s'.2 = torch_ops s.2.

Definition neutral {D A} (m : Py (CustomOp * External D) A) : Prop :=
  ∀ s, neutral_step s (snd (m s)).

(** The invariant carried along a sequence of calls on the operator named
    [q], with [torch.ops] equal to [ops]. *)
Definition call_inv {D} (q : string) (ops : gmap string (gmap string OpPacket))
    (s : CustomOp * External D) : Prop :=
  op_inv s.1 ∧ _qualname s.1 = q ∧ torch_ops s.2 = ops.

Definition preserves {D A} (q : string)
    (ops : gmap string (gmap string OpPacket))
    (m : Py (CustomOp * External D) A) : Prop :=
  ∀ s, call_inv q ops s → call_inv q ops (snd (m s)).

(** ** Annotations of tensors *)

(** The annotations whose schema type starts with [Tensor]: the only ones a
    mutated parameter may have. *)
Definition tensor_annotations : list Annotation :=
  [A_type T_Tensor;
   A_type (T_Optional T_Tensor);
   A_type (T_Sequence T_Tensor);
   A_type (T_List T_Tensor);
   A_type (T_Sequence (T_Optional T_Tensor));
   A_type (T_List (T_Optional T_Tensor))].

(** Two parameters that differ at most in being keyword-only or not. *)
Definition same_but_kind (p p' : Param) : Prop :=
  p_name p = p_name p' ∧ p_annotation p = p_annotation p' ∧
  p_has_default p = p_has_default p' ∧
  supported_param p = true ∧ supported_param p' = true.

(** Two results of schema inference, on [sig] and on [sig'], that agree up
    to the text of the signature an error message quotes: the same value,
    or the error of [infer_schema] for the same reason. *)
Definition same_up_to_text {A} (sig sig' : Signature) (r r' : Result A)
    : Prop :=
  match r, r' with
  | inr a, inr a' => a = a'
  | inl e, inl e' =>
      ∃ what, e = infer_error sig what ∧ e' = infer_error sig' what
  | _, _ => False
  end.

(** The function [def foo(x): ...], without annotations. *)
Definition plain_function : PyFunction :=
  {| fn_is_function := true;
     fn_type_repr := "<class 'function'>";
     fn_name := "foo";
     fn_module := "mylib";
     fn_doc := None;
     fn_signature :=
       {| parameters :=
            [{| p_name := "x"; p_kind := POSITIONAL_OR_KEYWORD;
                p_annotation := A_empty; p_has_default := false |}];
          return_annotation := A_empty;
          sig_str := "(x)" |} |}.

(** A host like [lenient_host], except that every registration of a kernel
    is refused. *)
Definition refusing_host : Host unit :=
  {| FunctionSchema_parse := FunctionSchema_parse lenient_host;
     is_functional_schema := is_functional_schema lenient_host;
     Library_new := Library_new lenient_host;
     Library_define := Library_define lenient_host;
     Library_impl := λ _ _ _ _, praise (Raise HostError "kernel refused");
     dispatch_find_schema_or_throw :=
       dispatch_find_schema_or_throw lenient_host;
     dispatch_set_report_error_callback :=
       dispatch_set_report_error_callback lenient_host;
     dispatch_has_kernel_for_dispatch_key :=
       dispatch_has_kernel_for_dispatch_key lenient_host;
     dispatch_has_computed_kernel_for_dispatch_key :=
       dispatch_has_computed_kernel_for_dispatch_key lenient_host |}.

(** The record [_register_impl] stores. *)
Definition with_impl (kind : string) (f : Callable) (caller : string)
    (self : CustomOp) : CustomOp :=
  set_impls (λ m, <[kind := {| func := f; location := caller |}]> m) self.

(** Two states of an operator that differ at most in the flag
    [_registered_autograd_kernel_indirection]. *)
Definition differs_in_flag (self self1 : CustomOp) : Prop :=
  ∃ b, self1 = set_registered_indirection b self.

(** The record of the composed kernel that [_register_autograd_kernel]
    stores. *)
Definition autograd_record (output_differentiability : option (list bool))
    (qualname : string) (save_fn backward_fn : Callable) (caller : string)
    : FuncAndLocation :=
  {| func := AutogradKernel output_differentiability qualname
               save_fn backward_fn;
     location := caller |}.

(** The object that [custom_op] has built when it returns. *)
Definition declared_op (qualname ns : string) (fn : PyFunction)
    (function_schema : FunctionSchema) (lib : Lib) (ophandle : OpHandle)
    : CustomOp :=
  {| _schema := function_schema; _cpp_ns := ns; _lib := Some lib;
     _ophandle := inl ophandle; _opname := fn_name fn;
     _qualname := qualname; op__name__ := Some (fn_name fn);
     op__module__ := Some (fn_module fn); op__doc__ := fn_doc fn;
     _impls := ∅;
     _registered_autograd_kernel_indirection := false;
     _output_differentiability := None |}.

(** A schema [_check_can_register_backward] lets through: functional, with
    at least one return, none of them a view, each of an allowed type. *)
Definition differentiable_schema (schema : FunctionSchema) : Prop :=
  schema_kind schema = functional ∧
  returns schema ≠ [] ∧
  ∀ r, r ∈ returns schema →
       ret_annotation r ≠ Some false ∧
       ret_type r ∈ map fst allowed_return_types.

(** ** A host that defines an operator once *)

(** What the module relies on when an operator is declared twice, stated
    for a host: [defined ns schema_str ext] says that the host, in state
    [ext], holds the definition [schema_str] in namespace [ns].  A [define]
    that returns establishes it, the host calls that [custom_op] makes after
    [define] keep it, and while it holds a [define] of the same text in a
    library of the same namespace raises. *)
Record defines_once {D} (host : Host D)
    (defined : string → string → External D → Prop) : Prop := {
  define_records :
    ∀ ns lib schema_str tags ext ext1 ext2,
      Library_new host ns ext = (Ok lib, ext1) →
      Library_define host lib schema_str tags ext1 = (Ok tt, ext2) →
      defined ns schema_str ext2;
  define_refuses :
    ∀ ns lib schema_str tags ext ext1,
      defined ns schema_str ext →
      Library_new host ns ext = (Ok lib, ext1) →
      is_ok (Library_define host lib schema_str tags ext1).1 = false;
  defined_find :
    ∀ ns schema_str name overload ext,
      defined ns schema_str ext →
      defined ns schema_str
        (dispatch_find_schema_or_throw host name overload ext).2;
  defined_impl :
    ∀ ns schema_str lib opname key kernel ext,
      defined ns schema_str ext →
      defined ns schema_str (Library_impl host lib opname key kernel ext).2;
  defined_callback :
    ∀ ns schema_str ophandle ref ext,
      defined ns schema_str ext →
      defined ns schema_str
        (dispatch_set_report_error_callback host ophandle ref ext).2
}.

(** The state of a host that keeps its libraries, each with its namespace
    (a library's handle is its position), and the definitions made, each
    with the namespace of its library. *)
Record Definitions := {
  libraries : list string;
  definitions : list (string * string)
}.

Definition err_defined_twice (ns schema_str : string) : Error :=
  Raise RuntimeError
    ("Tried to register an operator (" +:+ ns +:+ "::" +:+ schema_str +:+
     ") with the same name and overload name multiple times.").

(** A host like [lenient_host], except that it refuses to define in a
    namespace a text that is already defined there. *)
Definition strict_host : Host Definitions :=
  {| FunctionSchema_parse := λ _, Ok sample_schema;
     is_functional_schema := λ _, true;
     Library_new := λ ns ext,
       (Ok (length (libraries (dispatcher ext))),
        {| torch_ops := torch_ops ext;
           dispatcher :=
             {| libraries := libraries (dispatcher ext) ++ [ns];
                definitions := definitions (dispatcher ext) |} |});
     Library_define := λ lib schema_str _ ext,
       match libraries (dispatcher ext) !! lib with
       | None => (Err (Raise RuntimeError "no such library"), ext)
       | Some ns =>
           if bool_decide ((ns, schema_str) ∈ definitions (dispatcher ext))
           then (Err (err_defined_twice ns schema_str), ext)
           else (Ok tt,
                 {| torch_ops := torch_ops ext;
                    dispatcher :=
                      {| libraries := libraries (dispatcher ext);
                         definitions :=
                           (ns, schema_str) :: definitions (dispatcher ext)
                      |} |})
       end;
     Library_impl := λ _ _ _ _, pret tt;
     dispatch_find_schema_or_throw := λ _ _, pret 0;
     dispatch_set_report_error_callback := λ _ _, pret tt;
     dispatch_has_kernel_for_dispatch_key := λ _ _ _, Ok false;
     dispatch_has_computed_kernel_for_dispatch_key := λ _ _ _, Ok false |}.

Definition strict_defined (ns schema_str : string)
    (ext : External Definitions) : Prop :=
  (ns, schema_str) ∈ definitions (dispatcher ext).

(** The process on the strict host before any operator has been
    declared. *)
Definition strict_world : World Definitions :=
  {| global_registry := ∅; heap := ∅; next_addr := 0;
     external := {| torch_ops := torch_ops sample_external;
                    dispatcher := {| libraries := [];
                                     definitions := [] |} |} |}.

(** ** The composed kernel and its pieces *)

(** The composed kernel is registered exactly when both pieces are, as the
    specification words it, after any calls on an operator that starts
    without implementations. *)
Definition spec_autograd_iff_both : Prop :=
  ∀ (host : Host unit) ref calls self0 ext0,
    _impls self0 = ∅ →
    let self := (run_calls host ref calls (self0, ext0)).1 in
    _has_impl "autograd" self = true ↔
    _has_impl "backward" self = true ∧
    _has_impl "save_for_backward" self = true.

(** The operator that a call [_custom_op_with_schema("mylib::foo.bar", ...)]
    leaves in the registry: the call raises in its last line, in [get_op],
    after the operator has been built and its indirection registered. *)
Definition op_overload_name : CustomOp :=
  {| _schema :=
       {| schema_name := {| base_name := "foo"; overload_name := Some "bar" |};
          self_arg := false;
          flat_positional := flat_positional sample_schema;
          flat_kwarg_only := [];
          returns := returns sample_schema;
          schema_kind := functional;
          schema_str := "foo.bar(Tensor x) -> Tensor" |};
     _cpp_ns := "mylib"; _lib := Some 0;
     _ophandle := inl 0; _opname := "foo.bar"; _qualname := "mylib::foo.bar";
     op__name__ := None; op__module__ := None; op__doc__ := None;
     _impls := ∅;
     _registered_autograd_kernel_indirection := true;
     _output_differentiability := None |}.

(** A step that removes no implementation and adds the composed kernel
    only to an operator that has both pieces. *)
Definition grows {D} (s s' : CustomOp * External D) : Prop :=
  (∀ k, is_Some (_impls s.1 !! k) → is_Some (_impls s'.1 !! k)) ∧
  (is_Some (_impls s'.1 !! "autograd") →
   is_Some (_impls s.1 !! "autograd") ∨
   (is_Some (_impls s'.1 !! "backward") ∧
    is_Some (_impls s'.1 !! "save_for_backward"))).

Definition growing {D A} (m : Py (CustomOp * External D) A) : Prop :=
  ∀ s, grows s (m s).2.

(** * Properties *)

(** ** Strings *)

Module PyStrFacts.
Import PyStr.

Local Arguments String.append : simpl nomatch.

Ltac ssimpl := cbn [startswith String.append drop contains split1 String.length].
Tactic Notation "ssimpl" "in" hyp(H) := cbn [startswith String.append drop contains split1 String.length] in H.
Tactic Notation "ssimpl" "in" "*" := cbn [startswith String.append drop contains split1 String.length] in *.

Lemma startswith_app p t : startswith p (p +:+ t) = true.
Proof. induction p as [|a p IH]; ssimpl; [done|]. by rewrite decide_True. Qed.

Lemma startswith_spec p s : startswith p s = true ↔ ∃ t, s = p +:+ t.
Proof.
  split.
  - revert s. induction p as [|a p IH]; intros s H; ssimpl in *.
    + by exists s.
    + destruct s as [|b s]; [done|].
      destruct (decide (a = b)) as [->|]; [|done].
      destruct (IH _ H) as [t ->]. by exists t.
  - intros [t ->]. apply startswith_app.
Qed.

Lemma drop_app p t : drop (String.length p) (p +:+ t) = t.
Proof. induction p as [|a p IH]; ssimpl; [by destruct t|done]. Qed.

Lemma app_assoc (a b c : string) : (a +:+ b) +:+ c = a +:+ b +:+ c.
Proof. induction a as [|x a IH]; ssimpl; [done|]. by f_equal. Qed.

Lemma startswith_nil_cut sep s a b :
  startswith sep s = false → s = a +:+ sep +:+ b → a ≠ EmptyString.
Proof. intros E -> ->. ssimpl in E. by rewrite startswith_app in E. Qed.

Lemma contains_spec sub s : contains sub s = true ↔ occurs_in sub s.
Proof.
  unfold occurs_in. induction s as [|c s IH].
  - ssimpl. destruct (startswith sub EmptyString) eqn:E.
    + split; [intros _|done].
      apply startswith_spec in E as [t E]. by exists EmptyString, t.
    + split; [done|]. intros (pre & post & E').
      destruct (startswith_nil_cut _ _ _ _ E E'). by destruct pre.
  - cbn [contains]. destruct (startswith sub (String c s)) eqn:E.
    + split; [intros _|done].
      apply startswith_spec in E as [t E]. by exists EmptyString, t.
    + rewrite IH. split.
      * intros (pre & post & ->). by exists (String c pre), post.
      * intros (pre & post & E').
        pose proof (startswith_nil_cut _ _ _ _ E E') as Hne.
        destruct pre as [|c' pre]; [done|]. ssimpl in E'.
        injection E' as -> ->. by exists pre, post.
Qed.

Lemma contains_false sub s : contains sub s = false ↔ ¬ occurs_in sub s.
Proof. rewrite <-contains_spec. by destruct (contains sub s). Qed.

Lemma split1_sound sep s a b :
  split1 sep s = Some (a, b) → cut_at_first sep s a b.
Proof.
  unfold cut_at_first. revert a b. induction s as [|c s IH]; intros a b.
  - ssimpl. destruct (startswith sep EmptyString) eqn:E; [|done].
    apply startswith_spec in E as [t E].
    destruct sep; [|done]. intros [= <- <-]. split; [done|].
    intros; ssimpl; lia.
  - cbn [split1]. destruct (startswith sep (String c s)) eqn:E.
    + apply startswith_spec in E as [t E].
      intros [= <- <-]. rewrite E, drop_app. split; [done|].
      intros; ssimpl; lia.
    + destruct (split1 sep s) as [[a0 b0]|] eqn:Es; [|done].
      intros [= <- <-]. destruct (IH _ _ eq_refl) as [-> Hmin].
      split; [done|]. intros a' b' E'.
      pose proof (startswith_nil_cut _ _ _ _ E E') as Hne.
      destruct a' as [|c' a']; [done|]. ssimpl in E'.
      injection E' as -> E'. specialize (Hmin _ _ E'). ssimpl. lia.
Qed.

Lemma split1_complete sep s a b :
  cut_at_first sep s a b → split1 sep s = Some (a, b).
Proof.
  unfold cut_at_first. revert a. induction s as [|c s IH]; intros a [E Hmin].
  - destruct a; [|done]. destruct sep; [|done]. ssimpl in E. by subst.
  - cbn [split1]. destruct (startswith sep (String c s)) eqn:Es.
    + apply startswith_spec in Es as [t Es].
      specialize (Hmin EmptyString t Es).
      destruct a; [|ssimpl in Hmin; lia]. ssimpl in E.
      rewrite Es, drop_app. rewrite Es in E. apply (inj _) in E. by subst.
    + pose proof (startswith_nil_cut _ _ _ _ Es E) as Hne.
      destruct a as [|c' a]; [done|]. ssimpl in E. injection E as -> E.
      rewrite (IH a); [done|]. split; [done|].
      intros a' b' E'. specialize (Hmin (String c' a') b').
      ssimpl in Hmin. rewrite E' in Hmin. specialize (Hmin eq_refl). lia.
Qed.

Lemma split1_spec sep s a b :
  split1 sep s = Some (a, b) ↔ cut_at_first sep s a b.
Proof. split; [apply split1_sound | apply split1_complete]. Qed.

End PyStrFacts.

(** ** Registration of implementations *)

Section RegisterImpl.

Lemma has_impl_true kind self :
  _has_impl kind self = true ↔ is_Some (_impls self !! kind).
Proof. unfold _has_impl. by rewrite bool_decide_eq_true. Qed.

Lemma has_impl_false kind self :
  _has_impl kind self = false ↔ _impls self !! kind = None.
Proof.
  unfold _has_impl. rewrite bool_decide_eq_false.
  by rewrite eq_None_not_Some.
Qed.

(** On a kind that is registered, [_register_impl] raises and changes
    nothing. *)
Lemma register_impl_present kind f caller self fl :
  _impls self !! kind = Some fl →
  _register_impl kind f caller self
  = (Err (err_duplicate_impl kind (_qualname self) (location fl)), self).
Proof.
  intros H. unfold _register_impl.
  rewrite (proj2 (has_impl_true kind self)) by (rewrite H; eauto).
  by rewrite H.
Qed.

(** On a kind that is not registered, it stores the record. *)
Lemma register_impl_absent kind f caller self :
  _impls self !! kind = None →
  _register_impl kind f caller self
  = (Ok tt, set_impls (λ m, <[kind := {| func := f; location := caller |}]> m)
              self).
Proof.
  intros H. unfold _register_impl.
  by rewrite (proj2 (has_impl_false kind self)).
Qed.

Lemma register_impl_ok_inv kind f caller self self' :
  _register_impl kind f caller self = (Ok tt, self') →
  _impls self !! kind = None ∧
  self' = set_impls (λ m, <[kind := {| func := f; location := caller |}]> m)
            self.
Proof.
  intros H. destruct (_impls self !! kind) as [fl|] eqn:E.
  - rewrite (register_impl_present _ _ _ _ _ E) in H. done.
  - rewrite (register_impl_absent _ _ _ _ E) in H. by injection H as <-.
Qed.

(** The message of the duplicate-registration error quotes the location
    of the earlier registration. *)
Lemma duplicate_message_has_location kind qualname loc :
  PyStr.occurs_in loc (exn_msg (err_duplicate_impl kind qualname loc)).
Proof.
  exists ("Attempting to register a " +:+ kind +:+ " impl for operator " +:+
          qualname +:+ " " +:+ "that already has a " +:+ kind +:+
          " impl registered from Python at "),
         ". This is not supported.".
  cbn [exn_msg err_duplicate_impl]. by rewrite !PyStrFacts.app_assoc.
Qed.

(** A record, once stored, is never replaced or removed by later
    registrations. *)
Lemma register_all_keeps calls self kind fl :
  _impls self !! kind = Some fl →
  _impls (register_all calls self) !! kind = Some fl ∧
  _qualname (register_all calls self) = _qualname self.
Proof.
  revert self. induction calls as [|[[k f] c] calls IH]; intros self H; [done|].
  cbn [register_all].
  destruct (_impls self !! k) as [fl'|] eqn:E.
  - rewrite (register_impl_present _ _ _ _ _ E). by apply IH.
  - rewrite (register_impl_absent _ _ _ _ E). cbn [snd].
    destruct (IH (set_impls
                    (λ m, <[k := {| func := f; location := c |}]> m) self))
      as [? ?]; [|done].
    cbn. rewrite lookup_insert_ne; [done|]. intros ->. congruence.
Qed.

End RegisterImpl.

(** C1.  Once kind [kind] has been registered on an operator, registering
    [kind] again fails, whatever the callable and whatever other
    registrations were attempted in between: the call raises the
    duplicate-registration [RuntimeError], whose message quotes the location
    of the first registration, and the operator, its map of implementations
    included, is left as it was, still holding the first record. *)
Theorem register_impl_twice (self self1 : CustomOp) (kind : string)
    (f g : Callable) (loc1 loc2 : string)
    (between : list (string * Callable * string)) :
  _register_impl kind f loc1 self = (Ok tt, self1) →
  let self2 := register_all between self1 in
  let e := err_duplicate_impl kind (_qualname self) loc1 in
  _register_impl kind g loc2 self2 = (Err e, self2) ∧
  exn_class e = RuntimeError ∧
  PyStr.occurs_in loc1 (exn_msg e) ∧
  _impls self2 !! kind = Some {| func := f; location := loc1 |}.
Proof.
  intros H self2 e. apply register_impl_ok_inv in H as [_ ->].
  destruct (register_all_keeps between
              (set_impls (λ m, <[kind := {| func := f; location := loc1 |}]> m)
                 self) kind {| func := f; location := loc1 |})
    as [Hk Hq]; [cbn; apply lookup_insert_eq|].
  fold self2 in Hk, Hq. cbn in Hq.
  split_and!; [|done| |done].
  - rewrite (register_impl_present _ _ _ _ _ Hk). by rewrite Hq.
  - apply duplicate_message_has_location.
Qed.

(** C1 at work: [cpu] registered on [sample_op], then [cuda], then [cpu]
    again. *)
Lemma register_impl_twice_witness :
  ∃ self1,
    _register_impl "cpu" (UserFn 1) "a.py:10" sample_op = (Ok tt, self1) ∧
    let self2 := register_all [("cuda", UserFn 2, "c.py:30")] self1 in
    _register_impl "cpu" (UserFn 1) "b.py:20" self2
    = (Err (err_duplicate_impl "cpu" "mylib::foo" "a.py:10"), self2).
Proof.
  eexists. split; [reflexivity|].
  refine (proj1 (register_impl_twice sample_op _ "cpu" (UserFn 1) (UserFn 1)
                   "a.py:10" "b.py:20" [("cuda", UserFn 2, "c.py:30")] _)).
  reflexivity.
Defined.

(** ** Schema inference *)

Lemma PyType_eqb_eq a b : PyType_eqb a b = true ↔ a = b.
Proof.
  revert b.
  induction a as [| | | | | | | |a IH|a IH|a IH|ts IH|n] using PyType_nested_ind;
    intros b; destruct b; cbn [PyType_eqb];
    try (split; [done | done]);
    try (rewrite IH; split; [by intros -> | by intros [= ->]]).
  - revert ts0. induction IH as [|x l Hx Hl IHl]; intros [|y l'];
      try (split; [done | done]).
    rewrite andb_true_iff, Hx, IHl.
    split; [by intros [-> [= ->]] | by intros [= -> ->]].
  - rewrite bool_decide_eq_true. split; [by intros -> | by intros [= ->]].
Qed.

Lemma Annotation_eqb_eq a b : Annotation_eqb a b = true ↔ a = b.
Proof.
  destruct a, b; cbn; try (split; [done | done]).
  rewrite PyType_eqb_eq. split; [by intros -> | by intros [= ->]].
Qed.

(** A key that [dict_get] finds is a key of the dict, with that value. *)
Lemma dict_get_elem {V} k (d : list (Annotation * V)) v :
  dict_get k d = Some v → (k, v) ∈ d.
Proof.
  induction d as [|[k' v'] d IH]; cbn; [done|].
  destruct (dict_get k d) as [v0|].
  - intros [= <-]. right. by apply IH.
  - destruct (Annotation_eqb k k') eqn:E; [|done].
    apply Annotation_eqb_eq in E as ->. intros [= <-]. left.
Qed.

(** C5.  For a function with parameters [(x: Tensor, n: int)] and return
    annotation [Tensor], [infer_schema] returns exactly the text
    [(Tensor x, SymInt n) -> Tensor]. *)
Theorem infer_schema_tensor_int (kw_x kw_n : bool) (text : string) :
  infer_schema (sig_tensor_int kw_x kw_n text) []
  = Ok "(Tensor x, SymInt n) -> Tensor".
Proof. destruct kw_x, kw_n; reflexivity. Qed.

(** ** Dispatch *)

Section Select.

Lemma rank_cuda k : rank k = 0 ↔ k = "cuda".
Proof.
  unfold rank, DEVICE_PRIORITY. cbn [index_of].
  destruct (decide (k = "cuda")); [done|].
  split; [|done]. by destruct (decide (k = "cpu")).
Qed.

(** Once the best kind so far is [cuda], it stays. *)
Lemma rank_cuda_0 : rank "cuda" = 0.
Proof. by apply rank_cuda. Qed.

Lemma before_cuda k : before k "cuda" = false.
Proof.
  unfold before. rewrite rank_cuda_0.
  destruct (decide (k = "cuda")) as [->|Hne].
  - by rewrite rank_cuda_0, Pos.ltb_irrefl.
  - assert (rank k ≠ 0) by (by rewrite rank_cuda).
    assert ((rank k <? 0) = false) as -> by (apply Nat.ltb_ge; lia).
    by assert ((rank k =? 0) = false) as -> by (by apply Nat.eqb_neq).
Qed.

Lemma cuda_before best : best ≠ "cuda" → before "cuda" best = true.
Proof.
  intros Hne. unfold before. rewrite rank_cuda_0.
  assert (rank best ≠ 0) by (by rewrite rank_cuda).
  by assert ((0 <? rank best) = true) as -> by (apply Nat.ltb_lt; lia).
Qed.

(** A [cuda] kind anywhere among the kinds wins. *)
Lemma highest_priority_has_cuda best rest :
  "cuda" ∈ best :: rest → highest_priority best rest = "cuda".
Proof.
  revert best. induction rest as [|k rest IH]; intros best Hin.
  - apply list_elem_of_singleton in Hin. by subst.
  - cbn [highest_priority]. apply IH.
    apply elem_of_cons in Hin as [<-|Hin].
    + rewrite before_cuda. left.
    + apply elem_of_cons in Hin as [<-|Hin]; [|by right].
      destruct (decide (best = "cuda")) as [->|Hne].
      * rewrite before_cuda. left.
      * rewrite cuda_before by done. left.
Qed.

(** The order of [before] is strict and total. *)
Lemma before_irrefl k : before k k = false.
Proof.
  unfold before. rewrite Nat.ltb_irrefl, Nat.eqb_refl, Pos.ltb_irrefl. done.
Qed.

Lemma before_total k k' : k ≠ k' → before k k' = true ∨ before k' k = true.
Proof.
  intros Hne. unfold before.
  destruct (Nat.lt_trichotomy (rank k) (rank k')) as [Hlt|[Heq|Hgt]].
  - left. apply orb_true_iff. left. by apply Nat.ltb_lt.
  - assert (encode k ≠ encode k') as He by (by intros ?%(inj encode)).
    rewrite Heq, Nat.eqb_refl, Nat.ltb_irrefl. cbn [orb andb].
    rewrite !Pos.ltb_lt. lia.
  - right. apply orb_true_iff. left. by apply Nat.ltb_lt.
Qed.

Lemma before_trans k1 k2 k3 :
  before k1 k2 = true → before k2 k3 = true → before k1 k3 = true.
Proof.
  unfold before. rewrite !orb_true_iff, !andb_true_iff, !Nat.ltb_lt,
    !Nat.eqb_eq, !Pos.ltb_lt.
  intros [?|[? ?]] [?|[? ?]]; [left; lia..|right; split; lia].
Qed.

Lemma before_asym k k' : before k k' = true → before k' k = false.
Proof.
  intros H. destruct (before k' k) eqn:E; [|done].
  pose proof (before_trans _ _ _ H E) as Hk. by rewrite before_irrefl in Hk.
Qed.

(** [highest_priority] returns the least kind of the list: one of its
    members, with no member before it. *)
Lemma highest_priority_least best rest :
  let r := highest_priority best rest in
  r ∈ best :: rest ∧ ∀ k, k ∈ best :: rest → before k r = false.
Proof.
  revert best. induction rest as [|k rest IH]; intros best; cbn zeta.
  - cbn [highest_priority]. split; [left|].
    intros k ->%list_elem_of_singleton. apply before_irrefl.
  - cbn [highest_priority].
    destruct (IH (if before k best then k else best)) as [Hin Hleast].
    set (r := highest_priority _ rest) in *. split.
    + apply elem_of_cons in Hin as [Hr|Hin]; [|by do 2 right].
      rewrite Hr. destruct (before k best); [right; left|left].
    + assert (before (if before k best then k else best) r = false) as Hb
        by (apply Hleast; left).
      intros x Hx. apply elem_of_cons in Hx as [->|Hx].
      * destruct (before k best) eqn:E; [|done].
        destruct (before best r) eqn:E'; [|done].
        by rewrite (before_trans _ _ _ E E') in Hb.
      * apply elem_of_cons in Hx as [->|Hx]; [|apply Hleast; by right].
        destruct (before k best) eqn:E; [done|].
        destruct (decide (k = best)) as [->|Hne]; [done|].
        destruct (before_total _ _ Hne) as [Hk|Hk]; [congruence|].
        destruct (before k r) eqn:E'; [|done].
        by rewrite (before_trans _ _ _ Hk E') in Hb.
Qed.

(** The choice depends on the kinds present, not on their order or
    number. *)
Lemma highest_priority_set best rest best' rest' :
  (∀ k, k ∈ best :: rest ↔ k ∈ best' :: rest') →
  highest_priority best rest = highest_priority best' rest'.
Proof.
  intros Hset.
  destruct (highest_priority_least best rest) as [Hin Hleast].
  destruct (highest_priority_least best' rest') as [Hin' Hleast'].
  set (r := highest_priority best rest) in *.
  set (r' := highest_priority best' rest') in *.
  destruct (decide (r = r')) as [|Hne]; [done|].
  apply Hset in Hin. apply Hset in Hin'.
  destruct (before_total _ _ Hne) as [H|H].
  - by rewrite (Hleast' _ Hin) in H.
  - by rewrite (Hleast _ Hin') in H.
Qed.

(** [select] is a function of the operator and of the set of the kinds of
    the tensor-family arguments. *)
Lemma select_set self args args' :
  (∀ k, k ∈ present_kinds args ↔ k ∈ present_kinds args') →
  select self args = select self args'.
Proof.
  intros Hset. unfold select.
  destruct (present_kinds args) as [|k ks] eqn:E,
    (present_kinds args') as [|k' ks'] eqn:E'; [done| | |].
  - exfalso. eapply not_elem_of_nil, Hset. left.
  - exfalso. eapply not_elem_of_nil, Hset. left.
  - cbn zeta. by rewrite (highest_priority_set k ks k' ks').
Qed.

Lemma present_kinds_elem a args :
  a ∈ args → is_tensor_family a = true → arg_kind a ∈ present_kinds args.
Proof.
  intros Hin Ht. unfold present_kinds. apply list_elem_of_fmap.
  exists a. split; [done|]. apply list_elem_of_In, filter_In.
  split; [by apply list_elem_of_In|done].
Qed.

Lemma present_kinds_nil args :
  (∀ a, a ∈ args → is_tensor_family a = false) → present_kinds args = [].
Proof.
  induction args as [|a args IH]; intros H; [done|].
  unfold present_kinds in *. cbn [List.filter].
  rewrite (H a) by left. apply IH. intros b Hb. apply H. by right.
Qed.

(** With a [cuda] tensor among the arguments, [select] looks up the
    [cuda] implementation. *)
Lemma select_cuda_present self args :
  cuda_tensor ∈ args →
  select self args
  = match _impls self !! "cuda" with
    | Some r => Ok r
    | None => Err (report_error_callback self "CUDA")
    end.
Proof.
  intros Hin. unfold select.
  pose proof (present_kinds_elem _ _ Hin eq_refl) as Hk. cbn in Hk.
  destruct (present_kinds args) as [|k ks]; [by apply elem_of_nil in Hk|].
  cbn zeta. by rewrite (highest_priority_has_cuda _ _ Hk).
Qed.

End Select.

(** C3.  On an operator with implementations registered for both [cuda] and
    [cpu], a call whose arguments include a [cuda] tensor and a [cpu] tensor
    selects the [cuda] implementation: [cuda] comes before [cpu] in the
    order of priority. *)
Theorem select_cuda_before_cpu (self : CustomOp) (args : list ArgProp)
    (r_cuda r_cpu : FuncAndLocation) :
  _impls self !! "cuda" = Some r_cuda →
  _impls self !! "cpu" = Some r_cpu →
  cuda_tensor ∈ args →
  cpu_tensor ∈ args →
  select self args = Ok r_cuda ∧ rank "cuda" < rank "cpu".
Proof.
  intros Hcuda _ Hin _. split; [|vm_compute; lia].
  by rewrite (select_cuda_present _ _ Hin), Hcuda.
Qed.

(** C4.  On a call without tensor-family arguments, [select] returns the
    factory implementation when one is registered, whatever else is
    registered, and otherwise fails with the error for a call without
    tensor inputs. *)
Theorem select_no_tensor_inputs (self : CustomOp) (args : list ArgProp) :
  (∀ a, a ∈ args → is_tensor_family a = false) →
  (_impls self !! "factory" = None →
     select self args = Err (NoTensorInputs self) ∧
     exn_class (NoTensorInputs self) = NotImplementedError ∧
     PyStr.occurs_in "There were no Tensor inputs to this operator"
       (exn_msg (NoTensorInputs self))) ∧
  (∀ r, _impls self !! "factory" = Some r → select self args = Ok r).
Proof.
  intros H. unfold select. rewrite (present_kinds_nil _ H). split.
  - intros ->. split_and!; [done..|].
    exists (CustomOp_repr self +:+ ": "),
      (" (e.g. you passed an empty list of Tensors). If your operator is a " +:+
       "factory function (that is, it takes no Tensors and constructs " +:+
       "a new one), then please use CustomOp.impl_factory to register " +:+
       "an implementation for it").
    unfold NoTensorInputs, report_error_callback.
    rewrite bool_decide_eq_true_2 by done. cbn [exn_msg].
    rewrite !PyStrFacts.app_assoc. done.
  - by intros r ->.
Qed.

(** C3 at work on an operator built with [impl]. *)
Lemma select_cuda_before_cpu_witness :
  select op_cpu_cuda [cpu_tensor; cuda_tensor]
  = Ok {| func := UserFn 2; location := "user.py:20" |}.
Proof.
  refine (proj1 (select_cuda_before_cpu op_cpu_cuda [cpu_tensor; cuda_tensor]
                   {| func := UserFn 2; location := "user.py:20" |}
                   {| func := UserFn 1; location := "user.py:10" |}
                   _ _ _ _)).
  - reflexivity.
  - reflexivity.
  - apply list_elem_of_further, list_elem_of_here.
  - apply list_elem_of_here.
Defined.

(** C4 at work: a call with one integer argument, without and with a
    factory implementation. *)
Lemma select_no_tensor_inputs_witness :
  select sample_op [int_argument] = Err (NoTensorInputs sample_op) ∧
  select op_factory_cpu [int_argument]
  = Ok {| func := UserFn 3; location := "user.py:30" |}.
Proof.
  assert (∀ a, a ∈ [int_argument] → is_tensor_family a = false) as H.
  { intros a Ha. apply list_elem_of_singleton in Ha. by subst. }
  split.
  - refine (proj1 (proj1 (select_no_tensor_inputs sample_op _ H) _)).
    reflexivity.
  - refine (proj2 (select_no_tensor_inputs op_factory_cpu _ H) _ _).
    reflexivity.
Defined.

(** ** Device types *)

Section DeviceTypes.
Context {D : Type} (host : Host D).

Lemma validate_device_type_ok d :
  validate_device_type d = Ok tt ↔ d = "cpu" ∨ d = "cuda".
Proof.
  unfold validate_device_type, SUPPORTED_DEVICE_TYPE_TO_KEY.
  destruct (decide (d = "cpu")) as [->|Hcpu]; [by split; [left|]|].
  destruct (decide (d = "cuda")) as [->|Hcuda]; [by split; [right|]|].
  rewrite lookup_insert_ne, lookup_insert_ne, lookup_empty by done.
  split; [done|]. by intros [|].
Qed.

Lemma validate_device_type_err d :
  d ≠ "cpu" → d ≠ "cuda" →
  validate_device_type d = Err (err_device_type d).
Proof.
  intros Hcpu Hcuda.
  unfold validate_device_type, SUPPORTED_DEVICE_TYPE_TO_KEY.
  by rewrite lookup_insert_ne, lookup_insert_ne, lookup_empty.
Qed.

(** The loop over the device types stops at the first one that is not
    supported. *)
Lemma validate_device_types_err l :
  (∃ d, d ∈ l ∧ d ≠ "cpu" ∧ d ≠ "cuda") →
  ∃ d', d' ∈ l ∧ d' ≠ "cpu" ∧ d' ≠ "cuda" ∧
        validate_device_types l = Err (err_device_type d').
Proof.
  induction l as [|x l IH]; intros (d & Hin & Hcpu & Hcuda).
  - by apply elem_of_nil in Hin.
  - cbn [validate_device_types].
    destruct (decide (x = "cpu" ∨ x = "cuda")) as [Hx|Hx].
    + rewrite (proj2 (validate_device_type_ok x) Hx). cbn [rbind].
      apply elem_of_cons in Hin as [->|Hin]; [by destruct Hx|].
      destruct IH as (d' & ? & ? & ? & ?); [by eauto|].
      exists d'. split_and!; [by right|done..].
    + exists x. split_and!; [left|naive_solver..|].
      rewrite validate_device_type_err by naive_solver. done.
Qed.

Lemma validate_device_types_ok l :
  validate_device_types l = Ok tt → ∀ d, d ∈ l → d = "cpu" ∨ d = "cuda".
Proof.
  induction l as [|x l IH]; intros H d Hin; [by apply elem_of_nil in Hin|].
  cbn [validate_device_types] in H.
  destruct (validate_device_type x) as [e|[]] eqn:Ex; [done|].
  apply elem_of_cons in Hin as [->|Hin].
  - by apply validate_device_type_ok.
  - by apply IH.
Qed.

(** [inner] reads nothing that the validation loop has not read. *)
Lemma device_types_left_sub dts d :
  d ∈ device_types_left dts → d ∈ device_type_list dts.
Proof. destruct dts; [done..|]. by intros ?%elem_of_nil. Qed.

(** [impl] returns normally only if every device type is supported. *)
Lemma impl_ok_device_types dts f caller s r s' :
  impl host dts f caller s = (Ok r, s') →
  ∀ d, d ∈ device_type_list dts → d = "cpu" ∨ d = "cuda".
Proof.
  unfold impl, pbind, plift. intros H.
  destruct (validate_device_types (device_type_list dts)) as [e|[]] eqn:Ev;
    [done|].
  by apply validate_device_types_ok.
Qed.

End DeviceTypes.

(** C10.  [impl] accepts only the device types [cpu] and [cuda].  If the
    argument, a string or a list, holds any other device type, the call
    raises the [ValueError] of [validate_device_type] for the first such
    element, and neither the operator nor the host has been touched: all
    elements are validated before any registration. *)
Theorem impl_validates_device_types {D : Type} (host : Host D)
    (device_types : DeviceTypes) (f : Callable) (caller : string)
    (s : CustomOp * External D) :
  (∃ d, d ∈ device_type_list device_types ∧ d ≠ "cpu" ∧ d ≠ "cuda") →
  ∃ d', d' ∈ device_type_list device_types ∧ d' ≠ "cpu" ∧ d' ≠ "cuda" ∧
        impl host device_types f caller s = (Err (err_device_type d'), s) ∧
        exn_class (err_device_type d') = ValueError.
Proof.
  intros H. destruct (validate_device_types_err _ H) as (d' & ? & ? & ? & Hv).
  exists d'. split_and!; [done..| |done].
  unfold impl, pbind, plift. by rewrite Hv.
Qed.

(** C10 at work: the list [cpu, xla, cuda] is refused and nothing is
    registered, not even [cpu]. *)
Lemma impl_validates_device_types_witness :
  ∃ d', impl lenient_host (DT_iter ["cpu"; "xla"; "cuda"]) (UserFn 1)
          "user.py:10" (sample_op, sample_external)
        = (Err (err_device_type d'), (sample_op, sample_external)).
Proof.
  destruct (impl_validates_device_types lenient_host
              (DT_iter ["cpu"; "xla"; "cuda"]) (UserFn 1) "user.py:10"
              (sample_op, sample_external)) as (d' & _ & _ & _ & H & _).
  - exists "xla". split_and!; [|done..].
    apply list_elem_of_further, list_elem_of_here.
  - by exists d'.
Defined.

(** ** Names *)

Section Names.

Lemma parse_qualname_ok q ns name :
  parse_qualname q = Ok (ns, name) ↔
  cut_at_first "::" q ns name ∧ ¬ PyStr.occurs_in "." name.
Proof.
  unfold parse_qualname. rewrite <-PyStrFacts.split1_spec.
  rewrite <-PyStrFacts.contains_false.
  destruct (PyStr.split1 "::" q) as [[a b]|]; [|by split; [|intros []]].
  destruct (PyStr.contains "." b) eqn:E.
  - split; [done|]. intros [[= -> ->] ?]. congruence.
  - split; [by intros [= -> ->]|]. by intros [[= -> ->] _].
Qed.

Lemma parse_qualname_err q e :
  parse_qualname q = Err e → exn_class e = ValueError.
Proof.
  unfold parse_qualname. destruct (PyStr.split1 "::" q) as [[a b]|].
  - destruct (PyStr.contains "." b); [|done]. by intros [= <-].
  - by intros [= <-].
Qed.

Lemma validate_namespace_ok ns :
  validate_namespace ns = Ok tt ↔
  ¬ PyStr.occurs_in "." ns ∧ ns ∉ RESERVED_NS.
Proof.
  unfold validate_namespace. rewrite <-PyStrFacts.contains_false.
  destruct (PyStr.contains "." ns); [by split; [|intros []]|].
  destruct (decide (ns ∈ RESERVED_NS)); [by split; [|intros []]|done].
Qed.

Lemma validate_namespace_err ns e :
  validate_namespace ns = Err e → exn_class e = ValueError.
Proof.
  unfold validate_namespace. destruct (PyStr.contains "." ns).
  - by intros [= <-].
  - destruct (decide (ns ∈ RESERVED_NS)); [|done]. by intros [= <-].
Qed.

(** The two validators accept exactly the names of [name_rule]. *)
Lemma name_rule_validators q :
  name_rule q ↔
  ∃ ns name, parse_qualname q = Ok (ns, name) ∧ validate_namespace ns = Ok tt.
Proof.
  unfold name_rule. split.
  - intros (ns & name & Hcut & Hns & Hres & Hname). exists ns, name.
    by rewrite parse_qualname_ok, validate_namespace_ok.
  - intros (ns & name & Hp & Hv). exists ns, name.
    apply parse_qualname_ok in Hp as [? ?].
    apply validate_namespace_ok in Hv as [? ?]. done.
Qed.

Lemma parse_qualname_join q ns name :
  parse_qualname q = Ok (ns, name) → q = ns +:+ "::" +:+ name.
Proof. intros H. by apply parse_qualname_ok in H as [[? _] _]. Qed.

End Names.

(** ** Declaring an operator *)

Section CustomOpDecl.
Context {D : Type} (host : Host D).

Lemma same_objects_refl (w : World D) : same_objects w w.
Proof. done. Qed.

Lemma same_objects_trans (w1 w2 w3 : World D) :
  same_objects w1 w2 → same_objects w2 w3 → same_objects w1 w3.
Proof.
  intros (?&?&?) (?&?&?). unfold same_objects. split_and!; congruence.
Qed.

Lemma with_ext_same {A} (m : Py (External D) A) w r w' :
  with_ext m w = (r, w') → same_objects w w'.
Proof.
  unfold with_ext. destruct (m (external w)) as [r0 ext']. by intros [= <- <-].
Qed.

Lemma with_self_registry {A} ref (m : Py (CustomOp * External D) A) w r w' :
  with_self ref m w = (r, w') →
  global_registry w' = global_registry w ∧ next_addr w' = next_addr w.
Proof.
  unfold with_self. destruct (heap w !! ref) as [self|]; [|by intros [= <- <-]].
  destruct (m (self, external w)) as [r0 [self' ext']]. by intros [= <- <-].
Qed.

(** The constructor never fails when called by the module, and it
    overwrites the registry entry of the name. *)
Lemma CustomOp_init_put lib ns schema name ophandle (w : World D) :
  ∃ w', CustomOp_init lib ns schema name ophandle true w
        = (Ok (next_addr w), w') ∧
        global_registry w'
        = <[ns +:+ "::" +:+ name := next_addr w]> (global_registry w) ∧
        next_addr w' = S (next_addr w).
Proof. eexists. by split_and!. Qed.

(** The start of [custom_op]: the function check and the three checks on
    names.  Either they pass, or [custom_op] raises a [ValueError] in the
    unchanged world. *)
Lemma custom_op_name_checks q manual_schema fn w :
  (∃ ns name, fn_is_function fn = true ∧
              parse_qualname q = Ok (ns, name) ∧
              validate_namespace ns = Ok tt ∧ fn_name fn = name) ∨
  (∃ e, custom_op host q manual_schema fn w = (Err e, w) ∧
        exn_class e = ValueError ∧
        (∀ ns name, parse_qualname q = Ok (ns, name) →
           validate_namespace ns = Ok tt →
           fn_name fn ≠ name ∨ fn_is_function fn = false)).
Proof.
  unfold custom_op.
  destruct (fn_is_function fn) eqn:Hf; cbn [negb].
  2:{ right. eexists. split_and!; [done..|]. by right. }
  unfold pbind at 1. unfold plift at 1.
  destruct (parse_qualname q) as [e|[ns name]] eqn:Hp.
  { right. exists e. split_and!; [done|by eapply parse_qualname_err|done]. }
  unfold pbind at 1. unfold plift at 1.
  destruct (validate_namespace ns) as [e|[]] eqn:Hv.
  { right. exists e. split_and!; [done|by eapply validate_namespace_err|].
    intros ?? [= <- <-] Hv'. rewrite Hv in Hv'. done. }
  destruct (bool_decide (fn_name fn = name)) eqn:Hn; cbn [negb].
  - left. apply bool_decide_eq_true in Hn. by exists ns, name.
  - right. apply bool_decide_eq_false in Hn. eexists.
    split_and!; [done..|]. intros ?? [= <- <-] _. by left.
Qed.

End CustomOpDecl.

(** A name has one cut at its leftmost [::]. *)
Lemma cut_at_first_unique sep q ns sym ns' sym' :
  cut_at_first sep q ns sym → cut_at_first sep q ns' sym' →
  ns = ns' ∧ sym = sym'.
Proof.
  intros H H'. apply PyStrFacts.split1_complete in H, H'.
  rewrite H in H'. by injection H' as <- <-.
Qed.

(** C9.  For a qualified name that reads [ns::sym] (cut at its first
    [::]), when the name of the function differs from [sym], [custom_op]
    raises a [ValueError] and the world, registry and objects included, is
    what it was before the call: no operator is created and no entry is
    added. *)
Theorem custom_op_name_mismatch {D : Type} (host : Host D)
    (qualname : string) (manual_schema : option string) (fn : PyFunction)
    (w : World D) (ns sym : string) :
  cut_at_first "::" qualname ns sym →
  fn_name fn ≠ sym →
  ∃ e, custom_op host qualname manual_schema fn w = (Err e, w) ∧
       exn_class e = ValueError.
Proof.
  intros Hcut Hne.
  destruct (custom_op_name_checks host qualname manual_schema fn w)
    as [(ns' & name' & _ & Hp' & _ & Hn)|(e & ? & ? & _)].
  - apply parse_qualname_ok in Hp' as [Hcut' _].
    destruct (cut_at_first_unique _ _ _ _ _ _ Hcut Hcut') as [_ ->]. done.
  - by exists e.
Qed.

(** C9 at work: the function [foo] declared as [mylib::bar]. *)
Lemma custom_op_name_mismatch_witness :
  ∃ e, custom_op lenient_host "mylib::bar" None sample_function empty_world
       = (Err e, empty_world) ∧ exn_class e = ValueError.
Proof.
  refine (custom_op_name_mismatch lenient_host "mylib::bar" None
            sample_function empty_world "mylib" "bar" _ _).
  - apply PyStrFacts.split1_sound. reflexivity.
  - discriminate.
Defined.

Lemma not_spec_name_rule_empty_namespace : ¬ spec_name_rule "::foo".
Proof.
  intros (ns & sym & E & Hne & _).
  destruct ns as [|c1 ns]; [done|].
  repeat (first [discriminate E
                | injection E as ? E; subst
                | destruct ns as [|? ns]; cbn in E]).
Qed.

(** Counterexample to C8 as the specification words it: an empty namespace
    passes both name checks, and with a host that takes the definition the
    operator is declared. *)
Lemma empty_namespace_accepted :
  ¬ spec_rejects_ill_formed ∧ ¬ spec_accepts_only_well_formed.
Proof.
  split.
  - intros H.
    apply (H "::foo" EmptyString "foo" not_spec_name_rule_empty_namespace);
      reflexivity.
  - intros H.
    assert (∃ r w', custom_op lenient_host "::foo" None sample_function
                      empty_world = (Ok r, w')) as (r & w' & E).
    { eexists _, _. vm_compute. reflexivity. }
    apply H in E. by apply not_spec_name_rule_empty_namespace.
Qed.

(** C8, as the code has it.  For a function whose name is not empty,
    [custom_op] accepts a qualified name only if, cut at its first [::], it
    reads [ns::sym] with no [.] in [ns], [ns] not reserved, [sym] not empty
    and no [.] in [sym]; [sym] is then the name of the function.  A name
    that breaks the rule makes [custom_op] raise a [ValueError] in the
    unchanged world.  Whether [ns] is empty is not looked at. *)
Theorem custom_op_name_rule {D : Type} (host : Host D) (qualname : string)
    (manual_schema : option string) (fn : PyFunction) (w : World D) :
  fn_name fn ≠ EmptyString →
  (∀ r w', custom_op host qualname manual_schema fn w = (Ok r, w') →
           declare_name_rule qualname ∧
           ∃ ns, cut_at_first "::" qualname ns (fn_name fn)) ∧
  (¬ declare_name_rule qualname →
     ∃ e, custom_op host qualname manual_schema fn w = (Err e, w) ∧
          exn_class e = ValueError).
Proof.
  intros Hfn.
  assert (∀ ns name,
            parse_qualname qualname = Ok (ns, name) →
            validate_namespace ns = Ok tt → fn_name fn = name →
            declare_name_rule qualname ∧
            ∃ ns, cut_at_first "::" qualname ns (fn_name fn)) as Hrule.
  { intros ns name Hp Hv <-.
    apply parse_qualname_ok in Hp as [Hcut Hdot].
    apply validate_namespace_ok in Hv as [Hnsdot Hres].
    split; [|by exists ns]. by exists ns, (fn_name fn). }
  split.
  - intros r w' H.
    destruct (custom_op_name_checks host qualname manual_schema fn w)
      as [(ns & name & _ & Hp & Hv & Hn)|(e & He & _)].
    + by eapply Hrule.
    + rewrite H in He. done.
  - intros Hn.
    destruct (custom_op_name_checks host qualname manual_schema fn w)
      as [(ns & name & _ & Hp & Hv & Hname)|(e & He & ? & _)].
    + destruct Hn. by eapply Hrule.
    + eauto.
Qed.

(** C8 at work on the function [foo]: [::foo] is accepted on the lenient
    host and satisfies the rule, [aten::foo] and [mylib::] are refused. *)
Lemma custom_op_name_rule_witness :
  declare_name_rule "::foo" ∧
  (∃ e, custom_op lenient_host "aten::foo" None sample_function empty_world
        = (Err e, empty_world) ∧ exn_class e = ValueError) ∧
  (∃ e, custom_op lenient_host "mylib::" None sample_function empty_world
        = (Err e, empty_world) ∧ exn_class e = ValueError).
Proof.
  assert (fn_name sample_function ≠ EmptyString) as Hfn by discriminate.
  split_and!.
  - refine (proj1 (proj1 (custom_op_name_rule lenient_host "::foo" None
                            sample_function empty_world Hfn) 0 _ _)).
    vm_compute. reflexivity.
  - refine (proj2 (custom_op_name_rule lenient_host "aten::foo" None
                     sample_function empty_world Hfn) _).
    intros (ns & sym & Hcut & _ & Hres & _).
    apply PyStrFacts.split1_complete in Hcut. vm_compute in Hcut.
    injection Hcut as <- <-. apply Hres. vm_compute. reflexivity.
  - refine (proj2 (custom_op_name_rule lenient_host "mylib::" None
                     sample_function empty_world Hfn) _).
    intros (ns & sym & Hcut & _ & _ & Hne & _).
    apply PyStrFacts.split1_complete in Hcut. vm_compute in Hcut.
    injection Hcut as <- <-. by apply Hne.
Defined.

Section Binds.
Context {S A B : Type}.

Lemma pbind_inv (m : Py S A) (k : A → Py S B) s r s' :
  pbind m k s = (r, s') →
  (∃ e, m s = (Err e, s') ∧ r = Err e) ∨
  (∃ a s1, m s = (Ok a, s1) ∧ k a s1 = (r, s')).
Proof.
  unfold pbind. destruct (m s) as [[e|a] s1].
  - intros [= <- <-]. left. by exists e.
  - intros H. right. by exists a, s1.
Qed.

Lemma plift_inv (x : Result A) (s : S) r s' :
  plift x s = (r, s') → r = x ∧ s' = s.
Proof. by intros [= <- <-]. Qed.

End Binds.

Section Declare.
Context {D : Type} (host : Host D).

Lemma custom_op_registry_cases qualname manual_schema fn (w : World D) r w' :
  custom_op host qualname manual_schema fn w = (r, w') →
  (is_ok r = false ∧ same_objects w w') ∨
  (global_registry w' = <[qualname := next_addr w]> (global_registry w) ∧
   next_addr w' = S (next_addr w) ∧
   ∀ ref, r = Ok ref → ref = next_addr w).
Proof.
  unfold custom_op.
  destruct (fn_is_function fn); cbn [negb];
    [|intros [= <- <-]; by left].
  intros H.
  apply pbind_inv in H as [(e & H & ->)|([ns name] & w1 & H1 & H)].
  { apply plift_inv in H as [_ ->]. by left. }
  apply plift_inv in H1 as [Hp ->]. symmetry in Hp.
  apply parse_qualname_join in Hp as Hq.
  apply pbind_inv in H as [(e & H & ->)|([] & w1 & H1 & H)].
  { apply plift_inv in H as [_ ->]. by left. }
  apply plift_inv in H1 as [_ ->].
  destruct (bool_decide (fn_name fn = name)); cbn [negb] in H;
    [|injection H as <- <-; by left].
  apply pbind_inv in H as [(e & H & ->)|(schema & w1 & H1 & H)].
  { left. split; [done|]. destruct manual_schema.
    - discriminate H.
    - by apply plift_inv in H as [_ ->]. }
  assert (w1 = w) as ->.
  { destruct manual_schema.
    - unfold pret in H1. by simplify_eq.
    - by apply plift_inv in H1 as [_ ->]. }
  clear H1.
  apply pbind_inv in H as [(e & H & ->)|(function_schema & w1 & H1 & H)].
  { apply plift_inv in H as [_ ->]. by left. }
  apply plift_inv in H1 as [_ ->].
  apply pbind_inv in H as [(e & H & ->)|([] & w1 & H1 & H)].
  { apply plift_inv in H as [_ ->]. by left. }
  apply plift_inv in H1 as [_ ->].
  apply pbind_inv in H as [(e & H & ->)|([] & w1 & H1 & H)].
  { left. split; [done|]. destruct manual_schema.
    - by apply plift_inv in H as [_ ->].
    - discriminate H. }
  assert (w1 = w) as ->.
  { destruct manual_schema.
    - by apply plift_inv in H1 as [_ ->].
    - unfold pret in H1. by simplify_eq. }
  clear H1.
  apply pbind_inv in H as [(e & H & ->)|(lib & w1 & H1 & H)].
  { left. split; [done|]. by eapply with_ext_same. }
  apply with_ext_same in H1 as Hw1.
  apply pbind_inv in H as [(e & H & ->)|([] & w2 & H2 & H)].
  { left. split; [done|]. eapply same_objects_trans; [done|].
    by eapply with_ext_same. }
  apply with_ext_same in H2 as Hw2.
  apply pbind_inv in H as [(e & H & ->)|(ophandle & w3 & H3 & H)].
  { left. split; [done|].
    eapply same_objects_trans; [done|].
    eapply same_objects_trans; [done|]. by eapply with_ext_same. }
  apply with_ext_same in H3 as Hw3.
  assert (same_objects w w3) as (Hreg & _ & Hnext).
  { eapply same_objects_trans; [done|]. by eapply same_objects_trans. }
  right.
  apply pbind_inv in H as [(e & H & ->)|(result & w4 & H4 & H)]; [done|].
  injection H4 as <- <-.
  assert (∀ w5 : World D,
            global_registry w5
            = <[ns +:+ "::" +:+ name := next_addr w3]> (global_registry w3) →
            next_addr w5 = S (next_addr w3) →
            global_registry w5 = <[qualname := next_addr w]> (global_registry w)
            ∧ next_addr w5 = S (next_addr w)) as Hfin.
  { intros w5 -> ->. by rewrite Hreg, Hnext, Hq. }
  apply pbind_inv in H as [(e & H & ->)|([] & w5 & H5 & H)].
  { apply with_self_registry in H as [Hr Hn].
    destruct (Hfin w') as [? ?]; [done..|]. by split_and!. }
  apply with_self_registry in H5 as [Hr5 Hn5]. cbn in Hr5, Hn5.
  apply pbind_inv in H as [(e & H & ->)|([] & w6 & H6 & H)].
  { apply with_ext_same in H as (Hr & _ & Hn).
    destruct (Hfin w') as [? ?]; [congruence..|]. by split_and!. }
  apply with_ext_same in H6 as (Hr6 & _ & Hn6).
  apply pbind_inv in H as [(e & H & ->)|([] & w7 & H7 & H)].
  { apply with_ext_same in H as (Hr & _ & Hn).
    destruct (Hfin w') as [? ?]; [congruence..|]. by split_and!. }
  apply with_ext_same in H7 as (Hr7 & _ & Hn7).
  injection H as <- <-.
  destruct (Hfin w7) as [? ?]; [congruence..|].
  split_and!; [done..|]. intros ref [= <-]. congruence.
Qed.

End Declare.

Section DeclareOnce.
Context {D : Type} (host : Host D).

Lemma with_ext_inv {A} (m : Py (External D) A) (w : World D) r w' :
  with_ext m w = (r, w') →
  m (external w) = (r, external w') ∧ same_objects w w'.
Proof.
  unfold with_ext. destruct (m (external w)) as [r0 ext'].
  by intros [= <- <-].
Qed.

Lemma with_self_external {A} ref (m : Py (CustomOp * External D) A) w r w' :
  (∀ s, (m s).2.2 = s.2) →
  with_self ref m w = (r, w') → external w' = external w.
Proof.
  intros Hm. unfold with_self.
  destruct (heap w !! ref) as [self|]; [|by intros [= <- <-]].
  specialize (Hm (self, external w)).
  destruct (m (self, external w)) as [r0 [self' ext']]. by intros [= <- <-].
Qed.

(** The checks and the host calls of a [custom_op] that returned. *)
Lemma custom_op_ok_run qualname manual_schema fn (w : World D) ref w1 :
  custom_op host qualname manual_schema fn w = (Ok ref, w1) →
  ∃ ns schema function_schema lib ext1 ext2 ophandle ext3 ext4,
    fn_is_function fn = true ∧
    parse_qualname qualname = Ok (ns, fn_name fn) ∧
    validate_namespace ns = Ok tt ∧
    match manual_schema with
    | None => infer_schema (fn_signature fn) [] = Ok schema
    | Some s => s = schema
    end ∧
    FunctionSchema_parse host (fn_name fn +:+ schema) = Ok function_schema ∧
    validate_schema host function_schema = Ok tt ∧
    match manual_schema with
    | None => True
    | Some _ => validate_function_matches_schema function_schema fn = Ok tt
    end ∧
    Library_new host ns (external w) = (Ok lib, ext1) ∧
    Library_define host lib (fn_name fn +:+ schema) [] ext1 = (Ok tt, ext2) ∧
    find_ophandle_or_throw host ns (schema_name function_schema) ext2
    = (Ok ophandle, ext3) ∧
    Library_impl host lib (fn_name fn) "Autograd" (K_autograd_indirection ref)
      ext3 = (Ok tt, ext4) ∧
    dispatch_set_report_error_callback host ophandle ref ext4
    = (Ok tt, external w1).
Proof.
  unfold custom_op.
  destruct (fn_is_function fn) eqn:Hf; cbn [negb]; [|done].
  intros H.
  apply pbind_inv in H as [(e & H & [=])|([ns name] & w0 & H1 & H)].
  apply plift_inv in H1 as [Hp ->]. symmetry in Hp.
  apply pbind_inv in H as [(e & H & [=])|([] & w0 & H1 & H)].
  apply plift_inv in H1 as [Hns ->]. symmetry in Hns.
  destruct (bool_decide (fn_name fn = name)) eqn:Hname; cbn [negb] in H;
    [|done].
  apply bool_decide_eq_true in Hname. subst name.
  apply pbind_inv in H as [(e & H & [=])|(schema & w0 & H1 & H)].
  assert (w0 = w ∧
          match manual_schema with
          | None => infer_schema (fn_signature fn) [] = Ok schema
          | Some s => s = schema
          end) as [-> Hschema].
  { destruct manual_schema.
    - unfold pret in H1. by simplify_eq.
    - by apply plift_inv in H1 as [-> ->]. }
  clear H1.
  apply pbind_inv in H as [(e & H & [=])|(function_schema & w0 & H1 & H)].
  apply plift_inv in H1 as [Hfs ->]. symmetry in Hfs.
  apply pbind_inv in H as [(e & H & [=])|([] & w0 & H1 & H)].
  apply plift_inv in H1 as [Hv ->]. symmetry in Hv.
  apply pbind_inv in H as [(e & H & [=])|([] & w0 & H1 & H)].
  assert (w0 = w ∧
          match manual_schema with
          | None => True
          | Some _ =>
              validate_function_matches_schema function_schema fn = Ok tt
          end) as [-> Hmatch].
  { destruct manual_schema.
    - by apply plift_inv in H1 as [-> ->].
    - unfold pret in H1. by simplify_eq. }
  clear H1.
  apply pbind_inv in H as [(e & H & [=])|(lib & w2 & H2 & H)].
  apply with_ext_inv in H2 as [Hnew _].
  apply pbind_inv in H as [(e & H & [=])|([] & w3 & H3 & H)].
  apply with_ext_inv in H3 as [Hdef _].
  apply pbind_inv in H as [(e & H & [=])|(ophandle & w4 & H4 & H)].
  apply with_ext_inv in H4 as [Hfind _].
  apply pbind_inv in H as [(e & H & [=])|(result & w5 & H5 & H)].
  assert (external w5 = external w4) as He5 by (by injection H5 as <- <-).
  apply pbind_inv in H as [(e & H & [=])|([] & w6 & H6 & H)].
  apply with_self_external in H6 as He6; [|by intros [??]].
  apply pbind_inv in H as [(e & H & [=])|([] & w7 & H7 & H)].
  apply with_ext_inv in H7 as [Himpl _].
  apply pbind_inv in H as [(e & H & [=])|([] & w8 & H8 & H)].
  apply with_ext_inv in H8 as [Hcb _].
  injection H as <- <-.
  rewrite He6, He5 in Himpl.
  by exists ns, schema, function_schema, lib, (external w2), (external w3),
    ophandle, (external w4), (external w7).
Qed.

Variable defined : string → string → External D → Prop.
Hypothesis Hhost : defines_once host defined.

(** After [custom_op] has returned, the host holds the definition. *)
Lemma custom_op_ok_defined qualname manual_schema fn (w : World D) ref w1 :
  custom_op host qualname manual_schema fn w = (Ok ref, w1) →
  ∃ ns schema,
    parse_qualname qualname = Ok (ns, fn_name fn) ∧
    match manual_schema with
    | None => infer_schema (fn_signature fn) [] = Ok schema
    | Some s => s = schema
    end ∧
    defined ns (fn_name fn +:+ schema) (external w1).
Proof.
  intros H.
  apply custom_op_ok_run in H
    as (ns & schema & fs & lib & ext1 & ext2 & oph & ext3 & ext4 & _ & Hp & _ &
        Hs & _ & _ & _ & Hnew & Hdef & Hfind & Himpl & Hcb).
  exists ns, schema. split_and!; [done..|].
  pose proof (define_records _ _ Hhost _ _ _ _ _ _ _ Hnew Hdef) as H2.
  pose proof (defined_find _ _ Hhost ns _ (ns +:+ "::" +:+
                base_name (schema_name fs))
                (default EmptyString (overload_name (schema_name fs)))
                _ H2) as H3.
  unfold find_ophandle_or_throw in Hfind. rewrite Hfind in H3.
  cbn [snd] in H3.
  pose proof (defined_impl _ _ Hhost ns _ lib (fn_name fn) "Autograd"
                (K_autograd_indirection ref) _ H3) as H4.
  rewrite Himpl in H4. cbn [snd] in H4.
  pose proof (defined_callback _ _ Hhost ns _ oph ref _ H4) as H5.
  by rewrite Hcb in H5.
Qed.

(** On a host that holds the definition, [custom_op] raises before the
    constructor runs. *)
Lemma custom_op_defined_fails qualname manual_schema fn (w : World D)
    ns schema :
  parse_qualname qualname = Ok (ns, fn_name fn) →
  match manual_schema with
  | None => infer_schema (fn_signature fn) [] = Ok schema
  | Some s => s = schema
  end →
  defined ns (fn_name fn +:+ schema) (external w) →
  ∃ e w', custom_op host qualname manual_schema fn w = (Err e, w') ∧
          same_objects w w'.
Proof.
  intros Hp Hs Hdef.
  destruct (custom_op host qualname manual_schema fn w) as [[e|ref] w'] eqn:E.
  { exists e, w'. split; [done|].
    destruct (custom_op_registry_cases host _ _ _ _ _ _ E)
      as [[_ ?]|(_ & Hput & _)]; [done|].
    exfalso. revert E. unfold custom_op.
    destruct (fn_is_function fn); cbn [negb]; [|by intros [= <- <-]; lia].
    intros H.
    apply pbind_inv in H as [(e0 & H & _)|([ns0 name] & w0 & H1 & H)].
    { apply plift_inv in H as [_ <-]. lia. }
    apply plift_inv in H1 as [Hp0 ->]. rewrite Hp in Hp0.
    injection Hp0 as -> ->.
    apply pbind_inv in H as [(e0 & H & _)|([] & w0 & H1 & H)].
    { apply plift_inv in H as [_ <-]. lia. }
    apply plift_inv in H1 as [_ ->].
    rewrite bool_decide_eq_true_2 in H by done. cbn [negb] in H.
    apply pbind_inv in H as [(e0 & H & _)|(schema0 & w0 & H1 & H)].
    { destruct manual_schema; [discriminate H|].
      apply plift_inv in H as [_ <-]. lia. }
    assert (w0 = w ∧ schema0 = schema) as [-> ->].
    { destruct manual_schema.
      - unfold pret in H1. by simplify_eq.
      - apply plift_inv in H1 as [H1 ->]. split; [done|]. congruence. }
    clear H1.
    apply pbind_inv in H as [(e0 & H & _)|(fs & w0 & H1 & H)].
    { apply plift_inv in H as [_ <-]. lia. }
    apply plift_inv in H1 as [_ ->].
    apply pbind_inv in H as [(e0 & H & _)|([] & w0 & H1 & H)].
    { apply plift_inv in H as [_ <-]. lia. }
    apply plift_inv in H1 as [_ ->].
    apply pbind_inv in H as [(e0 & H & _)|([] & w0 & H1 & H)].
    { destruct manual_schema.
      - apply plift_inv in H as [_ <-]. lia.
      - discriminate H. }
    assert (w0 = w) as ->.
    { destruct manual_schema.
      - by apply plift_inv in H1 as [_ ->].
      - unfold pret in H1. by simplify_eq. }
    clear H1.
    apply pbind_inv in H as [(e0 & H & _)|(lib & w2 & H2 & H)].
    { apply with_ext_same in H as (_ & _ & Hn). lia. }
    apply with_ext_inv in H2 as [Hnew (_ & _ & Hn2)].
    pose proof (define_refuses _ _ Hhost _ _ _ [] _ _ Hdef Hnew) as Hno.
    apply pbind_inv in H as [(e0 & H & _)|([] & w3 & H3 & H)].
    { apply with_ext_same in H as (_ & _ & Hn). lia. }
    apply with_ext_inv in H3 as [Hd _]. by rewrite Hd in Hno. }
  exfalso.
  apply custom_op_ok_run in E
    as (ns0 & schema0 & fs & lib & ext1 & ext2 & oph & ext3 & ext4 & _ & Hp0 &
        _ & Hs0 & _ & _ & _ & Hnew & Hd & _).
  rewrite Hp in Hp0. injection Hp0 as <-.
  assert (schema0 = schema) as -> by (destruct manual_schema; congruence).
  pose proof (define_refuses _ _ Hhost _ _ _ [] _ _ Hdef Hnew) as Hno.
  by rewrite Hd in Hno.
Qed.

End DeclareOnce.

Lemma strict_host_defines_once : defines_once strict_host strict_defined.
Proof.
  split.
  - intros ns lib schema_str tags ext ext1 ext2 Hnew Hdef.
    cbn in Hnew. injection Hnew as <- <-. cbn in Hdef.
    rewrite lookup_app_r, Nat.sub_diag in Hdef by done. cbn in Hdef.
    destruct (bool_decide _); [done|]. injection Hdef as <-.
    unfold strict_defined. cbn. left.
  - intros ns lib schema_str tags ext ext1 Hdef Hnew.
    cbn in Hnew. injection Hnew as <- <-. cbn.
    rewrite lookup_app_r, Nat.sub_diag by done. cbn.
    by rewrite bool_decide_eq_true_2.
  - done.
  - done.
  - done.
Qed.




(** ** Destroying an operator *)

Section Destroy.
Context {D : Type} (host : Host D).

Lemma destroy_ok_inv ref (w w' : World D) :
  _destroy ref w = (Ok tt, w') →
  ∃ self lib ref',
    heap w !! ref = Some self ∧ _lib self = Some lib ∧
    global_registry w !! _qualname self = Some ref' ∧
    w' = {| global_registry := delete (_qualname self) (global_registry w);
            heap := <[ref := set_lib None self]> (heap w);
            next_addr := next_addr w;
            external :=
              {| torch_ops := alter (delete (_opname self)) (_cpp_ns self)
                                    (torch_ops (external w));
                 dispatcher := dispatcher (external w) |} |}.
Proof.
  unfold _destroy. destruct (heap w !! ref) as [self|]; [|done].
  destruct (_lib self) as [lib|] eqn:El; [|done].
  destruct (global_registry w !! _qualname self) as [ref'|] eqn:E; [|done].
  intros [= <-]. by exists self, lib, ref'.
Qed.

Lemma get_impl_set_lib kind l self :
  _get_impl kind (set_lib l self) = _get_impl kind self.
Proof. done. Qed.

(** After [collect], an object that nothing refers to is gone. *)
Lemma collect_frees (held : gset nat) ref (w : World D) :
  ref ∉ held → ref ∉ (map_img (global_registry w) : gset nat) →
  proxy_deref ref (collect held w) = Err err_dead_reference.
Proof.
  intros Hh Hr. unfold proxy_deref, collect. cbn [heap].
  rewrite (proj2 (map_lookup_filter_None _ _ _)); [done|].
  right. intros self _. cbn. by intros [?|?]%elem_of_union.
Qed.

End Destroy.

(** Counterexample to C7 as the specification words it: after [_destroy]
    the operator still holds its implementations, and a lookup through a
    weak reference finds them. *)
Lemma weak_lookup_after_destroy : ¬ spec_weak_lookup_fails_after_destroy.
Proof.
  intros H.
  assert (_destroy 0 world_abstract
          = (Ok tt, snd (_destroy 0 world_abstract))) as E
    by (vm_compute; reflexivity).
  specialize (H _ _ _ E "abstract"). vm_compute in H. discriminate H.
Qed.

(** C7, as the code has it.  After [_destroy] has returned, the registry
    has no entry for the operator's qualified name and [torch.ops] has no
    attribute for it, so [get_abstract_impl] returns [None] for the name and
    [_find_custom_op] raises its not-found error.  The object keeps its
    implementations: a lookup through a weak reference gives what it gave
    before for as long as the object is alive, and raises [ReferenceError]
    once nothing holds the object and it has been freed. *)
Theorem destroy_removes_name {D : Type} (host : Host D) (w w' : World D)
    (ref : nat) (self : CustomOp) :
  heap w !! ref = Some self →
  _destroy ref w = (Ok tt, w') →
  global_registry w' !! _qualname self = None ∧
  (∀ opnamespace,
     torch_ops (external w') !! _cpp_ns self = Some opnamespace →
     opnamespace !! _opname self = None) ∧
  get_abstract_impl (_qualname self) w' = Ok None ∧
  _find_custom_op host (_qualname self) false w'
  = (Err (err_custom_op_not_found (_qualname self)), w') ∧
  (∀ kind, proxy_get_impl ref kind w' = proxy_get_impl ref kind w) ∧
  (∀ (held : gset nat) kind,
     ref ∉ held → ref ∉ (map_img (global_registry w') : gset nat) →
     proxy_get_impl ref kind (collect held w') = Err err_dead_reference).
Proof.
  intros Hself H.
  apply destroy_ok_inv in H as (self' & lib & ref' & Hs & Hlib & Hreg & ->).
  rewrite Hself in Hs. injection Hs as <-.
  assert (∀ m : gmap string nat, delete (_qualname self) m !! _qualname self
                                 = None) as Hdel
    by (intros m; apply lookup_delete_eq).
  split_and!.
  - apply Hdel.
  - cbn [external torch_ops]. intros opnamespace.
    rewrite lookup_alter_eq.
    destruct (torch_ops (external w) !! _cpp_ns self) as [m|]; [|done].
    intros [= <-]. apply lookup_delete_eq.
  - unfold get_abstract_impl. cbn [global_registry]. by rewrite Hdel.
  - unfold _find_custom_op. cbn [global_registry negb]. by rewrite Hdel.
  - intros kind. unfold proxy_get_impl, proxy_deref. cbn [heap].
    by rewrite lookup_insert_eq, Hself.
  - intros held kind Hh Hr. unfold proxy_get_impl.
    by rewrite collect_frees.
Qed.

(** C7 at work on the operator of [world_abstract]. *)
Lemma destroy_removes_name_witness :
  get_abstract_impl "mylib::foo" (snd (_destroy 0 world_abstract)) = Ok None ∧
  proxy_get_impl 0 "abstract" (snd (_destroy 0 world_abstract))
  = proxy_get_impl 0 "abstract" world_abstract.
Proof.
  assert (_destroy 0 world_abstract
          = (Ok tt, snd (_destroy 0 world_abstract))) as E
    by (vm_compute; reflexivity).
  assert (∃ self, heap world_abstract !! 0 = Some self ∧
                  _qualname self = "mylib::foo") as (self & Hs & Hq)
    by (eexists; split; vm_compute; reflexivity).
  destruct (destroy_removes_name lenient_host _ _ _ _ Hs E)
    as (_ & _ & Habs & _ & Hproxy & _).
  rewrite Hq in Habs. split; [exact Habs|apply Hproxy].
Defined.

(** ** The backward formula *)

Section Neutral.
Context {D : Type} (host : Host D).
Hypothesis Hhost : host_keeps_torch_ops host.

Abbreviation Self := (CustomOp * External D)%type.

Lemma neutral_step_refl (s : Self) : neutral_step s s.
Proof. done. Qed.

Lemma neutral_step_trans (s1 s2 s3 : Self) :
  neutral_step s1 s2 → neutral_step s2 s3 → neutral_step s1 s3.
Proof.
  intros (Ha & ? & ? & ?) (Hb & ? & ? & ?). split_and!; [|congruence..].
  intros k Hk. by rewrite Hb, Ha.
Qed.

Lemma neutral_pret {A} (a : A) : neutral (D:=D) (pret a).
Proof. intros s. apply neutral_step_refl. Qed.

Lemma neutral_praise {A} e : neutral (D:=D) (A:=A) (praise e).
Proof. intros s. apply neutral_step_refl. Qed.

Lemma neutral_plift {A} (r : Result A) : neutral (D:=D) (plift r).
Proof. intros s. apply neutral_step_refl. Qed.

Lemma neutral_pbind {A B} (m : Py Self A) (k : A → Py Self B) :
  neutral m → (∀ a, neutral (k a)) → neutral (pbind m k).
Proof.
  intros Hm Hk s. unfold pbind. specialize (Hm s).
  destruct (m s) as [[e|a] s1]; [done|].
  eapply neutral_step_trans; [exact Hm|apply Hk].
Qed.

(** The same, when the continuation is only known to be neutral on the
    values the first part can return. *)
Lemma neutral_pbind_plift {A B} (r : Result A) (k : A → Py Self B) :
  (∀ a, r = Ok a → neutral (k a)) → neutral (pbind (plift r) k).
Proof.
  intros Hk s. unfold pbind, plift. destruct r as [e|a].
  - apply neutral_step_refl.
  - by apply Hk.
Qed.

Lemma neutral_get_self : neutral (D:=D) get_self.
Proof. intros s. apply neutral_step_refl. Qed.

Lemma neutral_get_ext : neutral (D:=D) get_ext.
Proof. intros s. apply neutral_step_refl. Qed.

Lemma neutral_read_lib : neutral (D:=D) read_lib.
Proof.
  intros s. unfold read_lib. destruct (_lib s.1); apply neutral_step_refl.
Qed.

Lemma neutral_Library_impl lib opname key kernel :
  neutral (on_ext (Library_impl host lib opname key kernel)).
Proof.
  intros [self ext]. unfold on_ext.
  specialize (Hhost lib opname key kernel ext).
  destruct (Library_impl host lib opname key kernel ext) as [r ext'].
  by split_and!.
Qed.

Lemma neutral_register_impl kind f caller :
  kind ∉ composition_kinds →
  neutral (D:=D) (on_self (_register_impl kind f caller)).
Proof.
  intros Hk [self ext]. unfold on_self.
  destruct (_impls self !! kind) as [fl|] eqn:E.
  - rewrite (register_impl_present _ _ _ _ _ E). apply neutral_step_refl.
  - rewrite (register_impl_absent _ _ _ _ E). split_and!; [|done..].
    intros k Hin. cbn. apply lookup_insert_ne. by intros ->.
Qed.

Lemma neutral_for_each {A} (body : A → Py Self unit) l :
  (∀ x, x ∈ l → neutral (body x)) → neutral (for_each body l).
Proof.
  induction l as [|x l IH]; intros H; cbn [for_each].
  - apply neutral_pret.
  - apply neutral_pbind; [apply H; left|].
    intros _. apply IH. intros y Hy. apply H. by right.
Qed.

Lemma neutral_register_indirection ref :
  neutral (_register_autograd_kernel_indirection host ref).
Proof.
  unfold _register_autograd_kernel_indirection.
  apply neutral_pbind; [apply neutral_get_self|]. intros self.
  destruct (_registered_autograd_kernel_indirection self);
    [apply neutral_praise|].
  apply neutral_pbind; [apply neutral_read_lib|]. intros lib.
  apply neutral_pbind; [apply neutral_Library_impl|]. intros _.
  by intros [self' ext].
Qed.

Lemma neutral_check_library_impl device_type :
  neutral (_check_doesnt_have_library_impl host device_type).
Proof.
  unfold _check_doesnt_have_library_impl.
  apply neutral_pbind; [apply neutral_get_self|]. intros self.
  destruct (_has_impl device_type self); [apply neutral_pret|].
  destruct (SUPPORTED_DEVICE_TYPE_TO_KEY !! device_type);
    [|apply neutral_praise].
  apply neutral_pbind; [apply neutral_get_ext|]. intros ext.
  apply neutral_pbind; [apply neutral_plift|]. intros [|];
    [apply neutral_praise|apply neutral_pret].
Qed.

Lemma device_type_not_composition d :
  d = "cpu" ∨ d = "cuda" → d ∉ composition_kinds.
Proof.
  intros [->| ->]; unfold composition_kinds;
    rewrite !not_elem_of_cons; split_and!; try done; apply not_elem_of_nil.
Qed.

Lemma neutral_impl_one f caller d :
  d = "cpu" ∨ d = "cuda" → neutral (impl_one host f caller d).
Proof.
  intros Hd. unfold impl_one.
  apply neutral_pbind; [apply neutral_check_library_impl|]. intros _.
  apply neutral_pbind.
  { apply neutral_register_impl. by apply device_type_not_composition. }
  intros _.
  destruct (SUPPORTED_DEVICE_TYPE_TO_KEY !! d); [|apply neutral_praise].
  apply neutral_pbind; [apply neutral_get_self|]. intros self.
  apply neutral_pbind; [apply neutral_read_lib|]. intros lib.
  apply neutral_Library_impl.
Qed.

Lemma neutral_impl device_types f caller :
  neutral (impl host device_types f caller).
Proof.
  unfold impl. apply neutral_pbind_plift. intros [] Hv.
  unfold impl_inner.
  apply neutral_pbind; [|intros _; apply neutral_pret].
  apply neutral_for_each. intros d Hd. apply neutral_impl_one.
  apply (validate_device_types_ok _ Hv), device_types_left_sub.
  by apply elem_of_remove_dups.
Qed.

Lemma neutral_impl_factory f caller :
  neutral (impl_factory host f caller).
Proof.
  unfold impl_factory.
  apply neutral_pbind.
  { apply neutral_register_impl. unfold composition_kinds.
    rewrite !not_elem_of_cons. split_and!; try done. apply not_elem_of_nil. }
  intros _.
  apply neutral_pbind; [apply neutral_get_self|]. intros self.
  apply neutral_pbind; [apply neutral_read_lib|]. intros lib.
  apply neutral_pbind; [apply neutral_Library_impl|]. intros _.
  apply neutral_pret.
Qed.

Lemma neutral_check_meta : neutral (_check_doesnt_have_library_meta_impl host).
Proof.
  unfold _check_doesnt_have_library_meta_impl.
  apply neutral_pbind; [apply neutral_get_self|]. intros self.
  apply neutral_pbind; [apply neutral_get_ext|]. intros ext.
  destruct (_has_impl "abstract" self); [apply neutral_pret|].
  apply neutral_pbind; [apply neutral_plift|]. intros explicit.
  apply neutral_pbind.
  { destruct explicit; [|apply neutral_pret].
    apply neutral_pbind; [apply neutral_plift|]. intros meta.
    apply neutral_pret. }
  intros [|]; [apply neutral_pret|].
  apply neutral_pbind; [apply neutral_plift|]. intros [|];
    [apply neutral_praise|].
  apply neutral_pbind; [apply neutral_plift|]. intros [|];
    [apply neutral_praise|apply neutral_pret].
Qed.

Lemma neutral_impl_abstract f caller :
  neutral (impl_abstract host f caller).
Proof.
  unfold impl_abstract.
  apply neutral_pbind; [apply neutral_check_meta|]. intros _.
  apply neutral_pbind.
  { apply neutral_register_impl. unfold composition_kinds.
    rewrite !not_elem_of_cons. split_and!; try done. apply not_elem_of_nil. }
  intros _.
  apply neutral_pbind; [apply neutral_get_self|]. intros self.
  apply neutral_pbind; [apply neutral_plift|]. intros fl.
  apply neutral_pbind; [apply neutral_read_lib|]. intros lib.
  apply neutral_pbind; [apply neutral_Library_impl|]. intros _.
  apply neutral_pret.
Qed.

Lemma neutral_check_can_register_backward :
  neutral (D:=D) _check_can_register_backward.
Proof.
  unfold _check_can_register_backward.
  apply neutral_pbind; [apply neutral_get_self|]. intros self.
  destruct (negb _); [apply neutral_praise|].
  destruct (returns (_schema self)); [apply neutral_praise|].
  destruct (existsb _ _); [apply neutral_praise|].
  destruct (List.find _ _); [apply neutral_praise|apply neutral_pret].
Qed.

Lemma neutral_check_autograd :
  neutral (_check_doesnt_have_library_autograd_impl host).
Proof.
  unfold _check_doesnt_have_library_autograd_impl.
  apply neutral_pbind; [apply neutral_get_self|]. intros self.
  apply neutral_pbind; [apply neutral_get_ext|]. intros ext.
  destruct (_registered_autograd_kernel_indirection self);
    [apply neutral_pret|].
  apply neutral_pbind; [apply neutral_plift|]. intros [|];
    [apply neutral_praise|].
  apply neutral_for_each. intros key _.
  apply neutral_pbind; [apply neutral_plift|]. intros [|];
    [apply neutral_praise|apply neutral_pret].
Qed.

End Neutral.

Section Composition.
Context {D : Type} (host : Host D).
Hypothesis Hhost : host_keeps_torch_ops host.

Variable q : string.
Variable ops : gmap string (gmap string OpPacket).
Variable ov : Overload.
Hypothesis Hresolves :
  ∀ ext : External D, torch_ops ext = ops → get_op q ext = Ok ov.

Lemma call_inv_neutral (s s' : CustomOp * External D) :
  call_inv q ops s → neutral_step s s' → call_inv q ops s'.
Proof.
  intros ([Hiff Hod] & Hq & Hops) (Hk & Hq' & Hod' & Hops').
  assert (∀ k, k ∈ composition_kinds → _impls s'.1 !! k = _impls s.1 !! k)
    as Hk' by done.
  unfold call_inv, op_inv.
  rewrite (Hk' "autograd"), (Hk' "backward"), (Hk' "save_for_backward"), Hod'
    by (unfold composition_kinds; eauto using list_elem_of_here,
          list_elem_of_further).
  split_and!; [done..|congruence|congruence].
Qed.

Lemma preserves_neutral {A} (m : Py (CustomOp * External D) A) :
  neutral m → preserves q ops m.
Proof. intros Hm s Hs. eapply call_inv_neutral; [done|apply Hm]. Qed.

Lemma preserves_pbind_neutral {A B} (m : Py (CustomOp * External D) A)
    (k : A → Py (CustomOp * External D) B) :
  neutral m → (∀ a, preserves q ops (k a)) → preserves q ops (pbind m k).
Proof.
  intros Hm Hk s Hs. unfold pbind.
  pose proof (call_inv_neutral _ _ Hs (Hm s)) as Hs1.
  destruct (m s) as [[e|a] s1]; [done|]. by apply Hk.
Qed.

(** [_register_autograd_kernel] on an operator with both pieces and no
    composed kernel yet. *)
Lemma register_autograd_kernel_run caller self (ext : External D) fb fs o :
  _impls self !! "backward" = Some fb →
  _impls self !! "save_for_backward" = Some fs →
  _output_differentiability self = Some o →
  _qualname self = q → torch_ops ext = ops →
  _impls self !! "autograd" = None →
  _register_autograd_kernel caller (self, ext)
  = (Ok tt,
     (set_impls
        (λ m, <["autograd" :=
                  {| func := AutogradKernel o q (func fs) (func fb);
                     location := caller |}]> m) self, ext)).
Proof.
  intros Hb Hs Ho Hq Hops Ha.
  unfold _register_autograd_kernel, pbind, get_self, get_ext, plift, on_self.
  cbn [fst snd].
  rewrite (proj2 (has_impl_true "backward" self)) by (rewrite Hb; eauto).
  rewrite (proj2 (has_impl_true "save_for_backward" self))
    by (rewrite Hs; eauto).
  cbn [negb fst snd]. rewrite Ho. cbn [fst snd].
  rewrite Hq, (Hresolves ext Hops).
  unfold _get_impl. rewrite Hs, Hb.
  by rewrite (register_impl_absent _ _ _ _ Ha).
Qed.

(** The end of [inner] in [impl_backward], from the registration of the
    piece on. *)
Lemma preserves_backward_tail f caller caller' o :
  preserves (D:=D) q ops
    (pbind (on_self (_register_impl "backward" f caller)) (λ _,
     pbind (on_self (λ self, (Ok tt, set_output_differentiability o self)))
       (λ _,
     pbind get_self (λ self,
     if _has_impl "save_for_backward" self
     then _register_autograd_kernel caller'
     else pret tt)))).
Proof.
  intros [self ext] ([Hiff Hod] & Hq & Hops). cbn [fst snd] in *.
  unfold pbind at 1. unfold on_self at 1.
  destruct (_impls self !! "backward") as [fb|] eqn:Eb.
  { rewrite (register_impl_present _ _ _ _ _ Eb).
    unfold call_inv, op_inv. cbn [fst snd]. rewrite Eb. by split_and!. }
  rewrite (register_impl_absent _ _ _ _ Eb).
  assert (_impls self !! "autograd" = None) as Ea.
  { apply eq_None_not_Some. intros Ha. apply Hiff in Ha as [Hb _].
    by destruct Hb. }
  unfold pbind, on_self, get_self. cbn [fst snd].
  set (self3 := set_output_differentiability o (set_impls _ self)).
  assert (_impls self3 !! "backward"
          = Some {| func := f; location := caller |}) as Eb3
    by (cbn; apply lookup_insert_eq).
  assert (_impls self3 !! "save_for_backward"
          = _impls self !! "save_for_backward") as Es3
    by (cbn; by apply lookup_insert_ne).
  assert (_impls self3 !! "autograd" = None) as Ea3
    by (cbn; by rewrite lookup_insert_ne).
  destruct (_impls self !! "save_for_backward") as [fs|] eqn:Es.
  - rewrite (proj2 (has_impl_true "save_for_backward" self3))
      by (rewrite Es3; eauto).
    erewrite register_autograd_kernel_run; [|done..].
    cbn [fst snd]. split; [|done].
    assert (is_Some (_output_differentiability self3)) by (cbn; eauto).
    clearbody self3. unfold op_inv. cbn [fst snd _impls set_impls].
    rewrite lookup_insert_eq, !lookup_insert_ne, Eb3, Es3 by done.
    split; [split; eauto|done].
  - rewrite (proj2 (has_impl_false "save_for_backward" self3)) by done.
    unfold pret. cbn [fst snd]. split; [|done].
    assert (is_Some (_output_differentiability self3)) by (cbn; eauto).
    clearbody self3. unfold op_inv. cbn [fst snd]. rewrite Ea3, Es3.
    split; [|done]. split; [by intros []|by intros [_ []]].
Qed.

(** The end of [inner] in [impl_save_for_backward]. *)
Lemma preserves_save_tail f caller caller' :
  preserves (D:=D) q ops
    (pbind (on_self (_register_impl "save_for_backward" f caller)) (λ _,
     pbind get_self (λ self,
     if _has_impl "backward" self
     then _register_autograd_kernel caller'
     else pret tt))).
Proof.
  intros [self ext] ([Hiff Hod] & Hq & Hops). cbn [fst snd] in *.
  unfold pbind at 1. unfold on_self at 1.
  destruct (_impls self !! "save_for_backward") as [fs|] eqn:Es.
  { rewrite (register_impl_present _ _ _ _ _ Es).
    unfold call_inv, op_inv. cbn [fst snd]. rewrite Es. by split_and!. }
  rewrite (register_impl_absent _ _ _ _ Es).
  assert (_impls self !! "autograd" = None) as Ea.
  { apply eq_None_not_Some. intros Ha. apply Hiff in Ha as [_ Hs].
    by destruct Hs. }
  unfold pbind, get_self. cbn [fst snd].
  set (self2 := set_impls _ self).
  assert (_impls self2 !! "save_for_backward"
          = Some {| func := f; location := caller |}) as Es2
    by (cbn; apply lookup_insert_eq).
  assert (_impls self2 !! "backward" = _impls self !! "backward") as Eb2
    by (cbn; by apply lookup_insert_ne).
  assert (_impls self2 !! "autograd" = None) as Ea2
    by (cbn; by rewrite lookup_insert_ne).
  destruct (_impls self !! "backward") as [fb|] eqn:Eb.
  - rewrite (proj2 (has_impl_true "backward" self2)) by (rewrite Eb2; eauto).
    destruct Hod as [o Ho]; [eauto|].
    erewrite register_autograd_kernel_run; [|done..].
    cbn [fst snd]. split; [|done].
    assert (is_Some (_output_differentiability self2)) by (cbn; eauto).
    clearbody self2. unfold op_inv. cbn [fst snd _impls set_impls].
    rewrite lookup_insert_eq, !lookup_insert_ne, Eb2, Es2 by done.
    split; [split; eauto|done].
  - rewrite (proj2 (has_impl_false "backward" self2)) by done.
    unfold pret. cbn [fst snd]. split; [|done].
    clearbody self2. unfold op_inv. cbn [fst snd]. rewrite Ea2, Eb2.
    split; [|by intros []]. split; [by intros []|by intros [[] _]].
Qed.

Lemma preserves_impl_backward ref od f caller :
  preserves q ops (impl_backward host ref od f caller).
Proof.
  unfold impl_backward.
  apply preserves_pbind_neutral; [apply neutral_get_self|]. intros self.
  apply preserves_pbind_neutral; [apply neutral_plift|]. intros o.
  apply preserves_pbind_neutral;
    [apply neutral_check_can_register_backward|]. intros _.
  apply preserves_pbind_neutral; [apply neutral_check_autograd|]. intros _.
  apply preserves_pbind_neutral; [apply neutral_get_self|]. intros self'.
  apply preserves_pbind_neutral.
  { destruct (negb _);
      [by apply neutral_register_indirection|apply neutral_pret]. }
  intros _. apply preserves_backward_tail.
Qed.

Lemma preserves_impl_save_for_backward ref f caller :
  preserves q ops (impl_save_for_backward host ref f caller).
Proof.
  unfold impl_save_for_backward.
  apply preserves_pbind_neutral;
    [apply neutral_check_can_register_backward|]. intros _.
  apply preserves_pbind_neutral; [apply neutral_check_autograd|]. intros _.
  apply preserves_pbind_neutral; [apply neutral_get_self|]. intros self'.
  apply preserves_pbind_neutral.
  { destruct (negb _);
      [by apply neutral_register_indirection|apply neutral_pret]. }
  intros _. apply preserves_save_tail.
Qed.

Lemma preserves_run_call ref c : preserves q ops (run_call host ref c).
Proof.
  destruct c; cbn [run_call].
  - apply preserves_neutral, neutral_pbind;
      [by apply neutral_impl|intros; apply neutral_pret].
  - apply preserves_neutral, neutral_pbind;
      [by apply neutral_impl_factory|intros; apply neutral_pret].
  - apply preserves_neutral, neutral_pbind;
      [by apply neutral_impl_abstract|intros; apply neutral_pret].
  - apply preserves_impl_save_for_backward.
  - apply preserves_impl_backward.
Qed.

Lemma run_calls_inv ref calls s :
  call_inv q ops s → call_inv q ops (run_calls host ref calls s).
Proof.
  revert s. induction calls as [|c calls IH]; intros s Hs; [done|].
  cbn [run_calls]. apply IH. by apply preserves_run_call.
Qed.

End Composition.

Lemma get_op_torch_ops {D} q (ext ext' : External D) :
  torch_ops ext = torch_ops ext' → get_op q ext = get_op q ext'.
Proof. intros H. unfold get_op. by rewrite H. Qed.

Lemma op_inv_fresh self : _impls self = ∅ → op_inv self.
Proof.
  intros H. unfold op_inv. rewrite H, !lookup_empty.
  split; [|by intros []]. split; [by intros []|by intros [[] _]].
Qed.

Lemma lenient_host_keeps_torch_ops : host_keeps_torch_ops lenient_host.
Proof. by intros lib opname key kernel ext. Qed.

(** * Further properties *)

(** ** Qualified names *)

Section QualifiedNames.
Import PyStr.

Local Arguments String.append : simpl nomatch.

Lemma length_app (a b : string) :
  String.length (a +:+ b) = String.length a + String.length b.
Proof. induction a as [|c a IH]; cbn; [done|]. by rewrite IH. Qed.

(** Two cuts of one string: the longer first part extends the shorter. *)
Lemma app_eq_app_lt (a x b y : string) :
  a +:+ x = b +:+ y → String.length b < String.length a →
  ∃ c, c ≠ EmptyString ∧ a = b +:+ c ∧ y = c +:+ x.
Proof.
  revert a. induction b as [|cb b IH]; intros a E Hlen.
  - exists a. cbn in E. split_and!; [|done..]. intros ->. cbn in Hlen. lia.
  - destruct a as [|ca a]; cbn in Hlen; [lia|]. cbn in E.
    injection E as -> E. destruct (IH a E) as (c & ? & -> & ->); [lia|].
    by exists c.
Qed.

Lemma occurs_in_app_l sub a b : occurs_in sub a → occurs_in sub (a +:+ b).
Proof.
  intros (pre & post & ->). exists pre, (post +:+ b).
  by rewrite !PyStrFacts.app_assoc.
Qed.

End QualifiedNames.

(** X1.  What [parse_qualname] returns: the two parts put back together
    with [::] give the name that was parsed, the namespace holds no [::]
    (the cut is at the first one) and the operator name holds no [.]. *)
Theorem parse_qualname_parts (qualname ns name : string) :
  parse_qualname qualname = Ok (ns, name) →
  qualname = ns +:+ "::" +:+ name ∧
  ¬ PyStr.occurs_in "::" ns ∧
  ¬ PyStr.occurs_in "." name.
Proof.
  intros H. apply parse_qualname_ok in H as [[Hq Hmin] Hdot].
  split_and!; [done| |done].
  intros (pre & post & ->).
  specialize (Hmin pre (post +:+ "::" +:+ name)).
  rewrite !PyStrFacts.app_assoc in Hq. specialize (Hmin Hq).
  rewrite !length_app in Hmin. cbn in Hmin. lia.
Qed.

(** The parts of [mylib::foo]. *)
Lemma parse_qualname_parts_witness :
  "mylib::foo" = "mylib" +:+ "::" +:+ "foo" ∧
  ¬ PyStr.occurs_in "::" "mylib" ∧ ¬ PyStr.occurs_in "." "foo".
Proof.
  refine (parse_qualname_parts "mylib::foo" "mylib" "foo" _). reflexivity.
Defined.

(** X2.  Round trip: a namespace without [:] and an operator name without
    [.], joined with [::], parse back to the same two parts. *)
Theorem parse_qualname_join_round_trip (ns name : string) :
  ¬ PyStr.occurs_in ":" ns →
  ¬ PyStr.occurs_in "." name →
  parse_qualname (ns +:+ "::" +:+ name) = Ok (ns, name).
Proof.
  intros Hns Hname. apply parse_qualname_ok. split; [|done].
  split; [done|]. intros ns' sym' E.
  destruct (decide (String.length ns' < String.length ns)) as [Hlt|]; [|lia].
  destruct (app_eq_app_lt _ _ _ _ E Hlt) as (c & Hc & -> & E').
  destruct Hns. destruct c as [|ch c]; [done|].
  injection E' as <- _. exists ns', c. done.
Qed.

(** The round trip on [my_lib] and [numpy_sin]. *)
Lemma parse_qualname_join_round_trip_witness :
  parse_qualname ("my_lib" +:+ "::" +:+ "numpy_sin")
  = Ok ("my_lib", "numpy_sin").
Proof.
  refine (parse_qualname_join_round_trip "my_lib" "numpy_sin" _ _);
    apply PyStrFacts.contains_false; reflexivity.
Defined.

(** ** Schema inference, further *)

Section InferSchema.

Lemma infer_param_ok_inv sig mutated_args idx p s :
  infer_param sig mutated_args idx p = Ok s →
  supported_param p = true ∧ p_has_default p = false ∧
  p_annotation p ≠ A_empty ∧
  ∃ t, dict_get (p_annotation p) SUPPORTED_PARAM_TYPES = Some t ∧
       (p_name p ∈ mutated_args → PyStr.startswith "Tensor" t = true).
Proof.
  unfold infer_param. destruct (supported_param p); cbn [negb]; [|done].
  intros H.
  destruct (p_annotation p) as [| |ty] eqn:Ea; [done|..].
  all: destruct (dict_get _ SUPPORTED_PARAM_TYPES) as [t|] eqn:Et; [|done].
  all: destruct (p_has_default p); [done|].
  all: split_and!; [done..|]; exists t; split; [done|]; intros Hm.
  all: rewrite (bool_decide_eq_true_2 _ Hm) in H.
  all: by destruct (PyStr.startswith "Tensor" t).
Qed.

Lemma infer_params_ok_inv sig mutated_args idx ps ss :
  infer_params sig mutated_args idx ps = Ok ss →
  ∀ p, p ∈ ps → ∃ i s, infer_param sig mutated_args i p = Ok s.
Proof.
  revert idx ss. induction ps as [|q ps IH]; intros idx ss H p Hp.
  - by apply elem_of_nil in Hp.
  - cbn [infer_params] in H.
    destruct (infer_param sig mutated_args idx q) as [e|s] eqn:Eq; [done|].
    cbn [rbind] in H.
    destruct (infer_params sig mutated_args (S idx) ps) as [e|ss'] eqn:Eps;
      [done|].
    apply elem_of_cons in Hp as [->|Hp]; [by eauto|]. by eapply IH.
Qed.

(** Every schema type of the table that starts with [Tensor] belongs to
    one of the six tensor annotations. *)
Lemma tensor_schema_types :
  Forall (λ kv, PyStr.startswith "Tensor" kv.2 = true →
                kv.1 ∈ tensor_annotations) SUPPORTED_PARAM_TYPES.
Proof.
  unfold SUPPORTED_PARAM_TYPES, tensor_annotations.
  repeat (apply List.Forall_cons;
          [cbn [fst snd];
           first [ by intros [=] | intros _; repeat constructor ]|]).
  apply List.Forall_nil.
Qed.

Lemma infer_param_kind sig sig' mutated_args idx p p' :
  same_but_kind p p' →
  same_up_to_text sig sig' (infer_param sig mutated_args idx p)
    (infer_param sig' mutated_args idx p').
Proof.
  intros (Hn & Ha & Hd & Hk & Hk'). unfold infer_param.
  rewrite Hk, Hk', <-Hn, <-Ha, <-Hd. cbn [negb].
  destruct (p_annotation p) as [| |ty]; [by eexists|..].
  all: destruct (dict_get _ SUPPORTED_PARAM_TYPES) as [t|]; [|by eexists].
  all: destruct (p_has_default p); [by eexists|].
  all: destruct (bool_decide (p_name p ∈ mutated_args)); [|done].
  all: destruct (PyStr.startswith "Tensor" t); cbn [negb]; [done|by eexists].
Qed.

Lemma infer_params_kind sig sig' mutated_args idx ps ps' :
  Forall2 same_but_kind ps ps' →
  same_up_to_text sig sig' (infer_params sig mutated_args idx ps)
    (infer_params sig' mutated_args idx ps').
Proof.
  intros H. revert idx.
  induction H as [|p p' ps ps' Hp _ IH]; intros idx; [done|].
  cbn [infer_params].
  pose proof (infer_param_kind sig sig' mutated_args idx p p' Hp) as H1.
  destruct (infer_param sig mutated_args idx p) as [e|s1],
    (infer_param sig' mutated_args idx p') as [e'|s1']; try done.
  cbn in H1. subst s1'. cbn [rbind]. specialize (IH (S idx)).
  destruct (infer_params sig mutated_args (S idx) ps) as [e|ss],
    (infer_params sig' mutated_args (S idx) ps') as [e'|ss']; try done.
  cbn in IH. by subst ss'.
Qed.

Lemma parse_return_text sig sig' annotation :
  same_up_to_text sig sig' (parse_return annotation (infer_error sig))
    (parse_return annotation (infer_error sig')).
Proof.
  assert (∀ what args,
            same_up_to_text sig sig'
              (parse_return_args (infer_error sig what) args)
              (parse_return_args (infer_error sig' what) args)) as Hargs.
  { intros what args. induction args as [|arg args IH]; [done|].
    cbn [parse_return_args].
    destruct (dict_get (A_type arg) SUPPORTED_RETURN_TYPES); [|by eexists].
    destruct (parse_return_args (infer_error sig what) args) as [e|ss],
      (parse_return_args (infer_error sig' what) args) as [e'|ss'];
      try done.
    cbn in IH. by subst ss'. }
  unfold parse_return.
  destruct annotation as [| |ty]; [|done|].
  { by destruct (dict_get A_empty SUPPORTED_RETURN_TYPES); [|eexists]. }
  destruct ty;
    try (by destruct (dict_get _ SUPPORTED_RETURN_TYPES); [|eexists]).
  match goal with
  | |- context [parse_return_args (infer_error sig ?w) ?l] =>
      specialize (Hargs w l);
      destruct (parse_return_args (infer_error sig w) l) as [e|ss],
        (parse_return_args (infer_error sig' w) l) as [e'|ss']
  end; try done.
  cbn in Hargs. by subst ss'.
Qed.

End InferSchema.

(** X3.  [infer_schema] returns a schema only if every parameter is
    positional-or-keyword or keyword-only, carries an annotation of the
    supported table, and has no default value, and only if the function has
    a return annotation ([-> None] counts, no annotation does not). *)
Theorem infer_schema_ok_requires (sig : Signature)
    (mutated_args : list string) (s : string) :
  infer_schema sig mutated_args = Ok s →
  (∀ p, p ∈ parameters sig →
        supported_param p = true ∧ p_has_default p = false ∧
        p_annotation p ≠ A_empty ∧
        is_Some (dict_get (p_annotation p) SUPPORTED_PARAM_TYPES)) ∧
  return_annotation sig ≠ A_empty.
Proof.
  unfold infer_schema. intros H.
  destruct (infer_params sig mutated_args 0 (parameters sig)) as [e|ss] eqn:Ep;
    [done|].
  cbn [rbind] in H. split.
  - intros p Hp.
    destruct (infer_params_ok_inv _ _ _ _ _ Ep p Hp) as (i & s' & Hi).
    apply infer_param_ok_inv in Hi as (? & ? & ? & t & Ht & _). eauto.
  - intros Hr. rewrite Hr in H. done.
Qed.

(** X3 at work on the signature [(x: Tensor, n: int) -> Tensor]. *)
Lemma infer_schema_ok_requires_witness :
  (∀ p, p ∈ parameters (sig_tensor_int false true
                         "(x: torch.Tensor, *, n: int) -> torch.Tensor") →
        supported_param p = true ∧ p_has_default p = false ∧
        p_annotation p ≠ A_empty ∧
        is_Some (dict_get (p_annotation p) SUPPORTED_PARAM_TYPES)) ∧
  return_annotation (sig_tensor_int false true
                         "(x: torch.Tensor, *, n: int) -> torch.Tensor") ≠ A_empty.
Proof.
  refine (infer_schema_ok_requires (sig_tensor_int false true
                         "(x: torch.Tensor, *, n: int) -> torch.Tensor") []
            "(Tensor x, SymInt n) -> Tensor" _).
  reflexivity.
Defined.

(** X4.  Whether a parameter is keyword-only leaves no trace in the
    inferred schema: two signatures with the same return annotation whose
    parameters differ only in that, among the two supported kinds, give the
    same schema, or raise for the same reason; the two error messages
    differ only in the text of the signature they quote, where a
    keyword-only parameter shows. *)
Theorem infer_schema_ignores_keyword_only (sig sig' : Signature)
    (mutated_args : list string) :
  return_annotation sig = return_annotation sig' →
  Forall2 same_but_kind (parameters sig) (parameters sig') →
  same_up_to_text sig sig' (infer_schema sig mutated_args)
    (infer_schema sig' mutated_args).
Proof.
  intros Hr Hp. unfold infer_schema.
  pose proof (infer_params_kind sig sig' mutated_args 0 _ _ Hp) as H1.
  destruct (infer_params sig mutated_args 0 (parameters sig)) as [e|ss],
    (infer_params sig' mutated_args 0 (parameters sig')) as [e'|ss'];
    try done.
  cbn in H1. subst ss'. cbn [rbind]. rewrite <-Hr.
  pose proof (parse_return_text sig sig' (return_annotation sig)) as H2.
  destruct (parse_return (return_annotation sig) (infer_error sig)) as [e|s],
    (parse_return (return_annotation sig) (infer_error sig')) as [e'|s'];
    try done.
  cbn in H2. by subst s'.
Qed.

(** X4 at work: [n] keyword-only or not, each signature with its text. *)
Lemma infer_schema_ignores_keyword_only_witness :
  same_up_to_text
    (sig_tensor_int false false "(x: torch.Tensor, n: int) -> torch.Tensor")
    (sig_tensor_int false true
       "(x: torch.Tensor, *, n: int) -> torch.Tensor")
    (Ok "(Tensor(a0!) x, SymInt n) -> Tensor")
    (infer_schema
       (sig_tensor_int false true
          "(x: torch.Tensor, *, n: int) -> torch.Tensor") ["x"]).
Proof.
  refine (infer_schema_ignores_keyword_only
            (sig_tensor_int false false
               "(x: torch.Tensor, n: int) -> torch.Tensor")
            (sig_tensor_int false true
               "(x: torch.Tensor, *, n: int) -> torch.Tensor") ["x"] _ _).
  - reflexivity.
  - repeat constructor.
Defined.

(** X5.  Only tensors can be mutated: when [infer_schema] returns a schema,
    every parameter named in [mutated_args] is annotated with [Tensor],
    [Optional[Tensor]], or a [Sequence] or [List] of one of these. *)
Theorem infer_schema_mutated_are_tensors (sig : Signature)
    (mutated_args : list string) (s : string) (p : Param) :
  infer_schema sig mutated_args = Ok s →
  p ∈ parameters sig →
  p_name p ∈ mutated_args →
  p_annotation p ∈ tensor_annotations.
Proof.
  unfold infer_schema. intros H Hp Hm.
  destruct (infer_params sig mutated_args 0 (parameters sig)) as [e|ss] eqn:Ep;
    [done|].
  destruct (infer_params_ok_inv _ _ _ _ _ Ep p Hp) as (i & s' & Hi).
  apply infer_param_ok_inv in Hi as (_ & _ & _ & t & Ht & Hstart).
  apply dict_get_elem in Ht.
  pose proof (proj1 (Forall_forall _ _) tensor_schema_types _ Ht) as Hin.
  apply Hin, Hstart, Hm.
Qed.

(** X5 at work: [x] of [(x: Tensor, n: int)] is mutated. *)
Lemma infer_schema_mutated_are_tensors_witness :
  A_type T_Tensor ∈ tensor_annotations.
Proof.
  refine (infer_schema_mutated_are_tensors
            (sig_tensor_int false false
               "(x: torch.Tensor, n: int) -> torch.Tensor") ["x"]
            "(Tensor(a0!) x, SymInt n) -> Tensor"
            {| p_name := "x"; p_kind := POSITIONAL_OR_KEYWORD;
               p_annotation := A_type T_Tensor; p_has_default := false |}
            _ _ _).
  - vm_compute. reflexivity.
  - apply list_elem_of_here.
  - apply list_elem_of_here.
Defined.

Section ParseReturn.

Lemma parse_return_args_ok err args ss :
  parse_return_args err args = Ok ss ↔
  Forall2 (λ arg t, dict_get (A_type arg) SUPPORTED_RETURN_TYPES = Some t)
          args ss.
Proof.
  revert ss. induction args as [|arg args IH]; intros ss; cbn [parse_return_args].
  - split; [intros [= <-]; constructor|]. intros H. by inversion H.
  - destruct (dict_get (A_type arg) SUPPORTED_RETURN_TYPES) as [t|] eqn:Et.
    + destruct (parse_return_args err args) as [e|ss'] eqn:Er; cbn [rbind].
      * split; [done|]. intros H. inversion H as [|? t' ? ss'' Ht Hrest]; subst.
        apply IH in Hrest. done.
      * split.
        -- intros [= <-]. constructor; [done|]. by apply IH.
        -- intros H. inversion H as [|? t' ? ss'' Ht Hrest]; subst.
           apply IH in Hrest. injection Hrest as ->. congruence.
    + split; [done|]. intros H. inversion H; subst. congruence.
Qed.

End ParseReturn.

(** X6.  A tuple return annotation is accepted exactly when each item is a
    supported return type, and it is rendered as the items' schema types,
    in order, separated by commas and wrapped in parentheses. *)
Theorem parse_return_tuple (args : list PyType) (error_fn : string → Error)
    (s : string) :
  parse_return (A_type (T_Tuple args)) error_fn = Ok s ↔
  ∃ ss,
    Forall2 (λ arg t, dict_get (A_type arg) SUPPORTED_RETURN_TYPES = Some t)
            args ss ∧
    s = "(" +:+ PyStr.join ", " ss +:+ ")".
Proof.
  cbn [parse_return].
  destruct (parse_return_args
              (error_fn (err_unsupported_return (A_type (T_Tuple args)))) args)
    as [e|ss] eqn:E; cbn [rbind].
  - split; [done|]. intros (ss & Hss & _).
    apply (parse_return_args_ok
             (error_fn (err_unsupported_return (A_type (T_Tuple args))))) in Hss.
    rewrite E in Hss. done.
  - apply parse_return_args_ok in E. split.
    + intros [= <-]. by exists ss.
    + intros (ss' & Hss & ->).
      apply (parse_return_args_ok
               (error_fn (err_unsupported_return (A_type (T_Tuple args)))))
        in E, Hss.
      rewrite E in Hss. by injection Hss as ->.
Qed.

(** X6 at work on [Tuple[Tensor, int]]. *)
Lemma parse_return_tuple_witness :
  parse_return (A_type (T_Tuple [T_Tensor; T_int]))
    (infer_error (sig_tensor_int false false
               "(x: torch.Tensor, n: int) -> torch.Tensor"))
  = Ok "(Tensor, SymInt)".
Proof.
  refine (proj2 (parse_return_tuple [T_Tensor; T_int] _ "(Tensor, SymInt)") _).
  exists ["Tensor"; "SymInt"]. split; [|reflexivity].
  repeat constructor.
Defined.

(** ** A function against a manual schema *)

Section MatchesSchema.

Lemma compare_zip_ok sig schema ps args :
  length ps = length args →
  compare_zip sig schema ps args = Ok tt ↔
  map p_name ps = map arg_name args ∧
  Forall (λ p, p_has_default p = false) ps ∧
  Forall (λ a, arg_has_default a = false) args.
Proof.
  revert args. induction ps as [|p ps IH]; intros [|a args] Hlen;
    try discriminate Hlen.
  - cbn. split; [intros _|done]. by split_and!; constructor.
  - cbn [compare_zip map]. injection Hlen as Hlen.
    destruct (bool_decide (p_name p = arg_name a)) eqn:En; cbn [negb].
    + apply bool_decide_eq_true in En.
      destruct (p_has_default p) eqn:Ep; cbn [orb].
      { split; [done|]. intros (_ & H & _). inversion H; congruence. }
      destruct (arg_has_default a) eqn:Ea.
      { split; [done|]. intros (_ & _ & H). inversion H; congruence. }
      rewrite (IH args Hlen). split.
      * intros (Hm & Hp & Ha). split_and!; [congruence|by constructor..].
      * intros ([= _ Hm] & Hp & Ha). inversion Hp; inversion Ha. done.
    + apply bool_decide_eq_false in En. split; [done|].
      intros ([= Hn _] & _). done.
Qed.

Lemma compare_ok sig schema ps args :
  compare sig schema ps args = Ok tt ↔
  map p_name ps = map arg_name args ∧
  Forall (λ p, p_has_default p = false) ps ∧
  Forall (λ a, arg_has_default a = false) args.
Proof.
  unfold compare.
  destruct (bool_decide (length ps = length args)) eqn:El; cbn [negb].
  - apply bool_decide_eq_true in El. by apply compare_zip_ok.
  - apply bool_decide_eq_false in El. split; [done|]. intros (Hm & _).
    destruct El. by rewrite <-(length_map p_name), Hm, length_map.
Qed.

End MatchesSchema.

(** X7.  A function matches a manual schema exactly when all its parameters
    are of the two supported kinds, nothing in its signature is annotated,
    its positional-or-keyword parameters carry the names of the schema's
    positional arguments in the same order, its keyword-only parameters
    those of the schema's keyword-only arguments, and no parameter or
    argument on either side has a default. *)
Theorem validate_function_matches_schema_ok (schema : FunctionSchema)
    (fn : PyFunction) :
  let sig := fn_signature fn in
  let positional :=
    filter (λ p, has_kind POSITIONAL_OR_KEYWORD p = true) (parameters sig) in
  let kwargonly :=
    filter (λ p, has_kind KEYWORD_ONLY p = true) (parameters sig) in
  validate_function_matches_schema schema fn = Ok tt ↔
  (∀ p, p ∈ parameters sig →
        supported_param p = true ∧ p_annotation p = A_empty) ∧
  return_annotation sig = A_empty ∧
  map p_name positional = map arg_name (flat_positional schema) ∧
  map p_name kwargonly = map arg_name (flat_kwarg_only schema) ∧
  (∀ p, p ∈ parameters sig → p_has_default p = false) ∧
  (∀ a, a ∈ flat_positional schema ++ flat_kwarg_only schema →
        arg_has_default a = false).
Proof.
  intros sig positional kwargonly.
  unfold validate_function_matches_schema. fold sig.
  destruct (forallb supported_param (parameters sig)) eqn:Es; cbn [negb].
  2:{ split; [done|]. intros (H & _).
      apply not_true_iff_false in Es. destruct Es.
      apply forallb_forall. intros p Hp. apply list_elem_of_In in Hp.
      by apply H. }
  pose proof (proj1 (forallb_forall _ _) Es) as Hsup.
  destruct (existsb (λ p, negb (Annotation_eqb (p_annotation p) A_empty))
              (parameters sig)) eqn:Ea; cbn [orb].
  { split; [done|]. intros (H & _).
    apply existsb_exists in Ea as (p & Hp & Hpa).
    apply list_elem_of_In in Hp. destruct (H p Hp) as [_ Hemp].
    rewrite Hemp in Hpa. done. }
  assert (∀ p, p ∈ parameters sig → p_annotation p = A_empty) as Hann.
  { intros p Hp. apply Annotation_eqb_eq.
    destruct (Annotation_eqb (p_annotation p) A_empty) eqn:E; [done|].
    apply not_true_iff_false in Ea. destruct Ea.
    apply existsb_exists. exists p. rewrite E.
    split; [by apply list_elem_of_In|done]. }
  destruct (Annotation_eqb (return_annotation sig) A_empty) eqn:Er; cbn [negb].
  2:{ split; [done|]. intros (_ & Hr & _). rewrite Hr in Er. done. }
  apply Annotation_eqb_eq in Er.
  fold positional kwargonly.
  destruct (compare sig schema positional (flat_positional schema))
    as [e|[]] eqn:Ec1; cbn [rbind].
  { split; [done|]. intros (_ & _ & Hn & _ & Hd & Hd').
    assert (compare sig schema positional (flat_positional schema) = Ok tt)
      as Hc; [|by rewrite Hc in Ec1].
    apply compare_ok. split_and!; [done|..].
    - apply Forall_forall. intros p Hp. apply Hd.
      by apply list_elem_of_filter in Hp as [_ ?].
    - apply Forall_forall. intros a Ha. apply Hd'. apply elem_of_app. by left. }
  apply compare_ok in Ec1 as (Hn1 & Hp1 & Ha1).
  rewrite compare_ok. split.
  - intros (Hn2 & Hp2 & Ha2). split_and!; [|done..| |].
    + intros p Hp. split; [|by apply Hann].
      apply Hsup. by apply list_elem_of_In.
    + intros p Hp. assert (supported_param p = true) as Hs
        by (apply Hsup; by apply list_elem_of_In).
      unfold supported_param in Hs.
      destruct (p_kind p) eqn:Ek; try discriminate Hs.
      * apply (proj1 (Forall_forall _ _) Hp1). apply list_elem_of_filter.
        split; [|done]. unfold has_kind. by rewrite Ek.
      * apply (proj1 (Forall_forall _ _) Hp2). apply list_elem_of_filter.
        split; [|done]. unfold has_kind. by rewrite Ek.
    + intros a [Ha|Ha]%elem_of_app.
      * by apply (proj1 (Forall_forall _ _) Ha1).
      * by apply (proj1 (Forall_forall _ _) Ha2).
  - intros (_ & _ & _ & Hn2 & Hd & Hd'). split_and!; [done|..].
    + apply Forall_forall. intros p Hp. apply Hd.
      by apply list_elem_of_filter in Hp as [_ ?].
    + apply Forall_forall. intros a Ha. apply Hd'. apply elem_of_app. by right.
Qed.

(** X7 at work: [def foo(x)] against [foo(Tensor x) -> Tensor]. *)
Lemma validate_function_matches_schema_ok_witness :
  map p_name (parameters (fn_signature plain_function))
  = map arg_name (flat_positional sample_schema) ∧
  ∀ p, p ∈ parameters (fn_signature plain_function) →
       p_has_default p = false.
Proof.
  destruct (proj1 (validate_function_matches_schema_ok sample_schema
                     plain_function) eq_refl)
    as (_ & _ & Hn & _ & Hd & _).
  split; [exact Hn|exact Hd].
Defined.

(** ** Registration for device types, further *)

Section ImplFurther.
Context {D : Type} (host : Host D).

Lemma check_library_impl_state d (s : CustomOp * External D) :
  (_check_doesnt_have_library_impl host d s).2 = s.
Proof.
  unfold _check_doesnt_have_library_impl, pbind, get_self, get_ext.
  cbn [fst snd].
  destruct (_has_impl d s.1); [done|].
  destruct (SUPPORTED_DEVICE_TYPE_TO_KEY !! d); [|done].
  unfold plift.
  by destruct (dispatch_has_computed_kernel_for_dispatch_key _ _ _ _)
    as [e|[|]].
Qed.

Lemma impl_one_ok f c d self (ext : External D) s' :
  impl_one host f c d (self, ext) = (Ok tt, s') →
  _impls self !! d = None ∧ s'.1 = with_impl d f c self.
Proof.
  unfold impl_one. intros H.
  apply pbind_inv in H as [(e & H & [=])|([] & s1 & H1 & H)].
  pose proof (check_library_impl_state d (self, ext)) as Hs.
  rewrite H1 in Hs. cbn in Hs. subst s1.
  apply pbind_inv in H as [(e & H & [=])|([] & s1 & H1' & H)].
  unfold on_self in H1'.
  destruct (_register_impl d f c self) as [r self1] eqn:Er.
  injection H1' as -> <-.
  apply register_impl_ok_inv in Er as [Habs ->].
  split; [done|].
  destruct (SUPPORTED_DEVICE_TYPE_TO_KEY !! d) as [key|]; [|done].
  unfold pbind, get_self, read_lib, on_ext in H. cbn [fst snd] in H.
  destruct (_lib _) as [lib|]; [|done].
  destruct (Library_impl host lib _ key (K_callable f) ext) as [r ext'].
  by injection H as _ <-.
Qed.

Lemma for_each_impl_one_ok f c l self (ext : External D) s' :
  for_each (impl_one host f c) l (self, ext) = (Ok tt, s') →
  (∀ d, d ∈ l → _impls self !! d = None ∧
                _impls s'.1 !! d = Some {| func := f; location := c |}) ∧
  (∀ k, k ∉ l → _impls s'.1 !! k = _impls self !! k) ∧
  _qualname s'.1 = _qualname self.
Proof.
  revert self ext. induction l as [|d l IH]; intros self ext H.
  - injection H as <-. split_and!; [|done..].
    intros d Hd. by apply elem_of_nil in Hd.
  - cbn [for_each] in H.
    apply pbind_inv in H as [(e & H & [=])|([] & [self1 ext1] & H1 & H)].
    apply impl_one_ok in H1 as [Habs Hs1]. cbn [fst] in Hs1. subst self1.
    apply IH in H as (Hl & Hother & Hq).
    assert (∀ k, k ≠ d → _impls (with_impl d f c self) !! k = _impls self !! k)
      as Hne by (intros k Hk; cbn; by rewrite lookup_insert_ne).
    assert (_impls (with_impl d f c self) !! d
            = Some {| func := f; location := c |}) as Heq
      by (cbn; apply lookup_insert_eq).
    split_and!; [| |done].
    + intros d' [->|Hd']%elem_of_cons.
      * split; [done|]. destruct (decide (d ∈ l)) as [Hin|Hnin].
        -- destruct (Hl d Hin) as [Hnone _]. congruence.
        -- by rewrite Hother.
      * destruct (Hl d' Hd') as [Hnone Hsome]. split; [|done].
        rewrite <-Hne; [done|]. intros ->. congruence.
    + intros k Hk. apply not_elem_of_cons in Hk as [Hkd Hkl].
      by rewrite Hother, Hne.
Qed.

End ImplFurther.

(** X8.  When [impl(device_types)(f)] returns, it returns [f] and every
    device type of the argument is [cpu] or [cuda].  Every device type that
    [inner] still reads (all of them for a string or an iterable that can
    be read again, none for a one-shot iterator, which the validation loop
    has used up) had no implementation before and now has the record of [f]
    with the caller's location; every other kind is as it was. *)
Theorem impl_ok_registers {D : Type} (host : Host D)
    (device_types : DeviceTypes) (f : Callable) (caller : string)
    (self : CustomOp) (ext : External D) (r : Callable)
    (s' : CustomOp * External D) :
  impl host device_types f caller (self, ext) = (Ok r, s') →
  r = f ∧
  (∀ d, d ∈ device_type_list device_types → d = "cpu" ∨ d = "cuda") ∧
  (∀ d, d ∈ device_types_left device_types →
        _impls self !! d = None ∧
        _impls s'.1 !! d = Some {| func := f; location := caller |}) ∧
  (∀ k, k ∉ device_types_left device_types →
        _impls s'.1 !! k = _impls self !! k) ∧
  (device_types_left device_types = [] → s'.1 = self) ∧
  _qualname s'.1 = _qualname self.
Proof.
  unfold impl. intros H.
  apply pbind_inv in H as [(e & H & [=])|([] & s1 & H1 & H)].
  apply plift_inv in H1 as [Hv ->]. symmetry in Hv.
  unfold impl_inner in H.
  apply pbind_inv in H as [(e & H & [=])|([] & s1 & H1 & H)].
  injection H as <- <-.
  destruct (device_types_left device_types) as [|d0 l0] eqn:El.
  { injection H1 as <-. split_and!; [done| |by intros ? ?%elem_of_nil|done..].
    intros d Hd. by eapply validate_device_types_ok. }
  apply for_each_impl_one_ok in H1 as (Hl & Hother & Hq).
  split_and!; [done| | | |done|done].
  - intros d Hd. by eapply validate_device_types_ok.
  - intros d Hd. apply Hl. by apply elem_of_remove_dups.
  - intros k Hk. apply Hother. by rewrite elem_of_remove_dups.
Qed.

(** X8 at work: [impl(['cuda', 'cpu', 'cuda'])(f1)] on [sample_op]. *)
Lemma impl_ok_registers_witness :
  let op := op_after (impl lenient_host (DT_iter ["cuda"; "cpu"; "cuda"])
                        (UserFn 1) "user.py:10")
              sample_op sample_external in
  _impls op !! "cuda" = Some {| func := UserFn 1; location := "user.py:10" |} ∧
  _impls op !! "cpu" = Some {| func := UserFn 1; location := "user.py:10" |}.
Proof.
  intros op.
  destruct (impl_ok_registers lenient_host (DT_iter ["cuda"; "cpu"; "cuda"])
              (UserFn 1) "user.py:10" sample_op sample_external (UserFn 1)
              (impl lenient_host (DT_iter ["cuda"; "cpu"; "cuda"])
                 (UserFn 1) "user.py:10" (sample_op, sample_external)).2)
    as (_ & _ & H & _); [reflexivity|].
  split.
  - apply (H "cuda"). apply list_elem_of_here.
  - apply (H "cpu"). apply list_elem_of_further, list_elem_of_here.
Defined.

(** X10.  A registration the host refuses leaves its record behind: when
    [impl_factory()(f)] fails in the host's [impl], the factory record of
    [f] stays, and every later [impl_factory] fails with the duplicate
    error that names the location of the failed attempt. *)
Theorem impl_factory_host_failure {D : Type} (host : Host D) (f : Callable)
    (caller : string) (self : CustomOp) (ext ext' : External D) (lib : Lib)
    (e : Error) :
  _impls self !! "factory" = None →
  _lib self = Some lib →
  Library_impl host lib (_opname self) "BackendSelect" (K_callable f) ext
  = (Err e, ext') →
  let s1 := (with_impl "factory" f caller self, ext') in
  impl_factory host f caller (self, ext) = (Err e, s1) ∧
  ∀ g caller',
    impl_factory host g caller' s1
    = (Err (err_duplicate_impl "factory" (_qualname self) caller), s1).
Proof.
  intros Habs Hlib Hhost s1. split.
  - unfold impl_factory, pbind, on_self, get_self, read_lib, on_ext.
    rewrite (register_impl_absent _ _ _ _ Habs). cbn [fst snd].
    fold (with_impl "factory" f caller self).
    cbn [fst snd _lib with_impl set_impls _opname]. by rewrite Hlib, Hhost.
  - intros g caller'. unfold impl_factory, pbind, on_self. unfold s1.
    assert (_impls (with_impl "factory" f caller self) !! "factory"
            = Some {| func := f; location := caller |}) as Hk
      by (cbn; apply lookup_insert_eq).
    by rewrite (register_impl_present _ _ _ _ _ Hk).
Qed.

(** X10 at work on the host that refuses every kernel. *)
Lemma impl_factory_host_failure_witness :
  impl_factory refusing_host (UserFn 4) "user.py:35"
    (with_impl "factory" (UserFn 3) "user.py:30" sample_op, sample_external)
  = (Err (err_duplicate_impl "factory" "mylib::foo" "user.py:30"),
     (with_impl "factory" (UserFn 3) "user.py:30" sample_op,
      sample_external)).
Proof.
  refine (proj2 (impl_factory_host_failure refusing_host (UserFn 3)
                   "user.py:30" sample_op sample_external sample_external 0
                   (Raise HostError "kernel refused") _ _ _)
            (UserFn 4) "user.py:35");
    reflexivity.
Defined.

(** ** The backward formula, further *)

Section BackwardFurther.
Context {D : Type} (host : Host D).

Lemma differs_in_flag_refl self : differs_in_flag self self.
Proof. exists (_registered_autograd_kernel_indirection self). by destruct self. Qed.

Lemma check_can_register_backward_state (s : CustomOp * External D) :
  (_check_can_register_backward s).2 = s.
Proof.
  unfold _check_can_register_backward, pbind, get_self. cbn [fst snd].
  destruct (negb _); [done|].
  destruct (returns (_schema s.1)); [done|].
  destruct (existsb _ _); [done|].
  by destruct (List.find _ _).
Qed.

Lemma for_each_state {S A} (body : A → Py S unit) l (s : S) :
  (∀ x s0, (body x s0).2 = s0) → (for_each body l s).2 = s.
Proof.
  intros Hb. induction l as [|x l IH]; [done|].
  cbn [for_each]. unfold pbind. specialize (Hb x s).
  destruct (body x s) as [[e|[]] s1]; cbn in Hb; subst s1; [done|apply IH].
Qed.

Lemma check_autograd_state (s : CustomOp * External D) :
  (_check_doesnt_have_library_autograd_impl host s).2 = s.
Proof.
  unfold _check_doesnt_have_library_autograd_impl, pbind, get_self, get_ext.
  cbn [fst snd].
  destruct (_registered_autograd_kernel_indirection s.1); [done|].
  unfold plift.
  destruct (dispatch_has_kernel_for_dispatch_key _ _ _ _) as [e|[|]];
    [done..|].
  cbn [fst snd]. apply for_each_state. intros key s0.
  by destruct (dispatch_has_kernel_for_dispatch_key _ _ _ _) as [e|[|]].
Qed.

Lemma register_indirection_flag ref self (ext : External D) :
  differs_in_flag self
    (_register_autograd_kernel_indirection host ref (self, ext)).2.1.
Proof.
  unfold _register_autograd_kernel_indirection, pbind, get_self, read_lib,
    on_ext, on_self.
  cbn [fst snd].
  destruct (_registered_autograd_kernel_indirection self) eqn:Ef.
  { apply differs_in_flag_refl. }
  cbn [fst snd].
  destruct (_lib self) as [lib|]; [|apply differs_in_flag_refl].
  cbn [fst snd].
  destruct (Library_impl host lib _ _ _ ext) as [[e|[]] ext']; cbn [fst snd];
    [apply differs_in_flag_refl|].
  by exists true.
Qed.

(** What [_register_autograd_kernel] has done when it returns. *)
Lemma register_autograd_kernel_ok_inv caller self (ext : External D) s' :
  _register_autograd_kernel caller (self, ext) = (Ok tt, s') →
  ∃ fb fs o,
    _impls self !! "backward" = Some fb ∧
    _impls self !! "save_for_backward" = Some fs ∧
    _output_differentiability self = Some o ∧
    _impls self !! "autograd" = None ∧
    is_ok (get_op (_qualname self) ext) = true ∧
    s' = (set_impls
            (λ m, <["autograd" :=
                      autograd_record o (_qualname self) (func fs) (func fb)
                        caller]> m) self, ext).
Proof.
  unfold _register_autograd_kernel, pbind, get_self, get_ext, plift, on_self.
  cbn [fst snd].
  destruct (_impls self !! "backward") as [fb|] eqn:Eb.
  2:{ by rewrite (proj2 (has_impl_false "backward" self)). }
  rewrite (proj2 (has_impl_true "backward" self)) by (rewrite Eb; eauto).
  destruct (_impls self !! "save_for_backward") as [fs|] eqn:Es.
  2:{ by rewrite (proj2 (has_impl_false "save_for_backward" self)). }
  rewrite (proj2 (has_impl_true "save_for_backward" self))
    by (rewrite Es; eauto).
  cbn [negb]. destruct (_output_differentiability self) as [o|]; [|done].
  cbn [fst snd].
  destruct (get_op (_qualname self) ext) as [e|ov] eqn:Eop; [done|].
  unfold _get_impl. rewrite Es, Eb.
  destruct (_impls self !! "autograd") as [fa|] eqn:Ea.
  { by rewrite (register_impl_present _ _ _ _ _ Ea). }
  rewrite (register_impl_absent _ _ _ _ Ea). intros [= <-].
  exists fb, fs, o. by split_and!.
Qed.

(** The prefix of [inner] in both methods: the checks and the registration
    of the indirection change nothing but the flag and the host. *)
Lemma backward_prefix_ok {A} ref (k : Py (CustomOp * External D) A)
    self (ext : External D) r s' :
  pbind _check_can_register_backward (λ _,
  pbind (_check_doesnt_have_library_autograd_impl host) (λ _,
  pbind get_self (λ self0,
  pbind (if negb (_registered_autograd_kernel_indirection self0)
         then _register_autograd_kernel_indirection host ref
         else pret tt) (λ _, k)))) (self, ext) = (Ok r, s') →
  ∃ self1 ext1, differs_in_flag self self1 ∧ k (self1, ext1) = (Ok r, s').
Proof.
  intros H.
  apply pbind_inv in H as [(e & H & [=])|([] & s1 & H1 & H)].
  pose proof (check_can_register_backward_state (self, ext)) as Hs.
  rewrite H1 in Hs. cbn in Hs. subst s1.
  apply pbind_inv in H as [(e & H & [=])|([] & s1 & H1' & H)].
  pose proof (check_autograd_state (self, ext)) as Hs.
  rewrite H1' in Hs. cbn in Hs. subst s1.
  apply pbind_inv in H as [(e & H & [=])|(self0 & s1 & H1'' & H)].
  injection H1'' as <- <-.
  apply pbind_inv in H as [(e & H & [=])|([] & [self1 ext1] & H2 & H)].
  exists self1, ext1. split; [|done].
  destruct (negb _).
  - pose proof (register_indirection_flag ref self ext) as Hf.
    by rewrite H2 in Hf.
  - injection H2 as <- <-. apply differs_in_flag_refl.
Qed.

(** What [impl_backward] has done when it returns. *)
Lemma impl_backward_ok_inv ref od f caller self (ext : External D) s' :
  impl_backward host ref od f caller (self, ext) = (Ok tt, s') →
  ∃ o,
    check_output_differentiability self od = Ok o ∧
    _impls self !! "backward" = None ∧
    _impls s'.1 !! "backward" = Some {| func := f; location := caller |} ∧
    _output_differentiability s'.1 = Some o ∧
    _qualname s'.1 = _qualname self ∧
    _schema s'.1 = _schema self ∧
    _impls s'.1 !! "autograd"
    = match _impls self !! "save_for_backward" with
      | Some fs =>
          Some (autograd_record o (_qualname self) (func fs) f
                  (this_file +:+ ":631"))
      | None => _impls self !! "autograd"
      end ∧
    (∀ k, k ≠ "backward" → k ≠ "autograd" →
          _impls s'.1 !! k = _impls self !! k).
Proof.
  unfold impl_backward. intros H.
  apply pbind_inv in H as [(e & H & [=])|(self0 & s1 & H1 & H)].
  injection H1 as <- <-.
  apply pbind_inv in H as [(e & H & [=])|(o & s1 & H1 & H)].
  apply plift_inv in H1 as [Ho ->]. symmetry in Ho.
  apply backward_prefix_ok in H as (self1 & ext1 & [b ->] & H).
  exists o. split; [done|].
  apply pbind_inv in H as [(e & H & [=])|([] & [self2 ext2] & H1 & H)].
  unfold on_self in H1.
  destruct (_register_impl "backward" f caller _) as [r1 self2'] eqn:Er.
  injection H1 as -> <- <-.
  apply register_impl_ok_inv in Er as [Habs ->]. cbn in Habs.
  apply pbind_inv in H as [(e & H & [=])|([] & [self3 ext3] & H1 & H)].
  injection H1 as <- <-.
  apply pbind_inv in H as [(e & H & [=])|(self4 & s4 & H1 & H)].
  injection H1 as <- <-.
  set (self3 := set_output_differentiability o _) in *.
  assert (_impls self3 !! "backward"
          = Some {| func := f; location := caller |}) as Eb3
    by (cbn; apply lookup_insert_eq).
  assert (∀ k, k ≠ "backward" → _impls self3 !! k = _impls self !! k) as Ek3
    by (intros k Hk; cbn; by rewrite lookup_insert_ne).
  assert (_qualname self3 = _qualname self) as Eq3 by done.
  assert (_schema self3 = _schema self) as Esch3 by done.
  assert (_output_differentiability self3 = Some o) as Eo3 by done.
  clearbody self3.
  destruct (_impls self !! "save_for_backward") as [fs|] eqn:Es.
  - rewrite (proj2 (has_impl_true "save_for_backward" self3)) in H
      by (rewrite Ek3, Es; eauto).
    apply register_autograd_kernel_ok_inv in H
      as (fb & fs' & o' & Hb & Hs & Ho' & Ha & _ & ->).
    rewrite Ek3, Es in Hs by done. rewrite Eb3 in Hb. rewrite Eo3 in Ho'.
    injection Hs as <-. injection Hb as <-. injection Ho' as <-.
    cbn [fst snd _impls set_impls _qualname _schema _output_differentiability].
    rewrite lookup_insert_eq, lookup_insert_ne, Eq3 by done.
    split_and!; [done..|].
    intros k Hk1 Hk2. rewrite lookup_insert_ne by done. by apply Ek3.
  - rewrite (proj2 (has_impl_false "save_for_backward" self3)) in H
      by (by rewrite Ek3, Es).
    injection H as <-. cbn [fst snd].
    split_and!; [done..|by apply Ek3|].
    intros k Hk1 Hk2. by apply Ek3.
Qed.

(** What [impl_save_for_backward] has done when it returns. *)
Lemma impl_save_for_backward_ok_inv ref f caller self (ext : External D) s' :
  impl_save_for_backward host ref f caller (self, ext) = (Ok tt, s') →
  _impls self !! "save_for_backward" = None ∧
  _impls s'.1 !! "save_for_backward"
  = Some {| func := f; location := caller |} ∧
  _output_differentiability s'.1 = _output_differentiability self ∧
  _qualname s'.1 = _qualname self ∧
  _schema s'.1 = _schema self ∧
  _impls s'.1 !! "autograd"
  = match _impls self !! "backward", _output_differentiability self with
    | Some fb, Some o =>
        Some (autograd_record o (_qualname self) f (func fb)
                (this_file +:+ ":567"))
    | _, _ => _impls self !! "autograd"
    end ∧
  (∀ k, k ≠ "save_for_backward" → k ≠ "autograd" →
        _impls s'.1 !! k = _impls self !! k).
Proof.
  unfold impl_save_for_backward. intros H.
  apply backward_prefix_ok in H as (self1 & ext1 & [b ->] & H).
  apply pbind_inv in H as [(e & H & [=])|([] & [self2 ext2] & H1 & H)].
  unfold on_self in H1.
  destruct (_register_impl "save_for_backward" f caller _) as [r1 self2'] eqn:Er.
  injection H1 as -> <- <-.
  apply register_impl_ok_inv in Er as [Habs ->]. cbn in Habs.
  apply pbind_inv in H as [(e & H & [=])|(self4 & s4 & H1 & H)].
  injection H1 as <- <-.
  set (self2 := set_impls _ _) in *.
  assert (_impls self2 !! "save_for_backward"
          = Some {| func := f; location := caller |}) as Es2
    by (cbn; apply lookup_insert_eq).
  assert (∀ k, k ≠ "save_for_backward" →
               _impls self2 !! k = _impls self !! k) as Ek2
    by (intros k Hk; cbn; by rewrite lookup_insert_ne).
  assert (_qualname self2 = _qualname self) as Eq2 by done.
  assert (_schema self2 = _schema self) as Esch2 by done.
  assert (_output_differentiability self2 = _output_differentiability self)
    as Eo2 by done.
  clearbody self2.
  destruct (_impls self !! "backward") as [fb|] eqn:Eb.
  - rewrite (proj2 (has_impl_true "backward" self2)) in H
      by (rewrite Ek2, Eb; eauto).
    apply register_autograd_kernel_ok_inv in H
      as (fb' & fs' & o' & Hb & Hs & Ho' & Ha & _ & ->).
    rewrite Ek2, Eb in Hb by done. rewrite Es2 in Hs. rewrite Eo2 in Ho'.
    injection Hs as <-. injection Hb as <-. rewrite Ho'.
    cbn [fst snd _impls set_impls _qualname _schema _output_differentiability].
    rewrite lookup_insert_eq, lookup_insert_ne, Eq2, Eo2 by done.
    split_and!; [done..|].
    intros k Hk1 Hk2. rewrite lookup_insert_ne by done. by apply Ek2.
  - rewrite (proj2 (has_impl_false "backward" self2)) in H
      by (by rewrite Ek2, Eb).
    injection H as <-. cbn [fst snd].
    split_and!; [done..|by apply Ek2|].
    intros k Hk1 Hk2. by apply Ek2.
Qed.

End BackwardFurther.

(** X11. When [impl_backward] returns, the backward function is recorded
    under the location of the caller, the checked
    [output_differentiability] is stored, and no kind other than
    [backward] and [autograd] has changed; the composed kernel is stored
    (from line 631) exactly when a save-for-backward function was there. *)
Theorem impl_backward_ok_records {D} (host : Host D) (ref : nat)
    (od : OutputDiff) (f : Callable) (caller : string) (self : CustomOp)
    (ext : External D) (s' : CustomOp * External D) :
  impl_backward host ref od f caller (self, ext) = (Ok tt, s') →
  ∃ o,
    check_output_differentiability self od = Ok o ∧
    _impls self !! "backward" = None ∧
    _impls s'.1 !! "backward" = Some {| func := f; location := caller |} ∧
    _output_differentiability s'.1 = Some o ∧
    _impls s'.1 !! "autograd"
    = match _impls self !! "save_for_backward" with
      | Some fs =>
          Some (autograd_record o (_qualname self) (func fs) f
                  (this_file +:+ ":631"))
      | None => _impls self !! "autograd"
      end ∧
    (∀ k, k ≠ "backward" → k ≠ "autograd" →
          _impls s'.1 !! k = _impls self !! k).
Proof.
  intros H.
  apply impl_backward_ok_inv in H as (o & H1 & H2 & H3 & H4 & _ & _ & H5 & H6).
  exists o. by split_and!.
Qed.

Lemma impl_backward_ok_records_witness :
  let s' := (impl_backward lenient_host 0 (OD_list [Some true] "[True]")
               (UserFn 1) "user.py:50" (sample_op, sample_external)).2 in
  _impls s'.1 !! "backward"
  = Some {| func := UserFn 1; location := "user.py:50" |} ∧
  _output_differentiability s'.1 = Some (Some [true]) ∧
  _impls s'.1 !! "autograd" = None.
Proof.
  intros s'.
  assert (impl_backward lenient_host 0 (OD_list [Some true] "[True]")
            (UserFn 1) "user.py:50" (sample_op, sample_external)
          = (Ok tt, s')) as H by (vm_compute; reflexivity).
  destruct (impl_backward_ok_records _ _ _ _ _ _ _ _ H)
    as (o & Ho & _ & Hb & Hod & Ha & _).
  assert (o = Some [true]) as -> by (vm_compute in Ho; congruence).
  split_and!; [exact Hb|exact Hod|exact Ha].
Defined.

(** X12. When [impl_save_for_backward] returns, the function is recorded
    under the location of the caller and no kind other than
    [save_for_backward] and [autograd] has changed; the composed kernel is
    stored (from line 567) exactly when a backward function was there, and
    it carries the [output_differentiability] that [impl_backward] had
    stored. *)
Theorem impl_save_for_backward_ok_records {D} (host : Host D) (ref : nat)
    (f : Callable) (caller : string) (self : CustomOp) (ext : External D)
    (s' : CustomOp * External D) :
  impl_save_for_backward host ref f caller (self, ext) = (Ok tt, s') →
  _impls self !! "save_for_backward" = None ∧
  _impls s'.1 !! "save_for_backward"
  = Some {| func := f; location := caller |} ∧
  _output_differentiability s'.1 = _output_differentiability self ∧
  _impls s'.1 !! "autograd"
  = match _impls self !! "backward", _output_differentiability self with
    | Some fb, Some o =>
        Some (autograd_record o (_qualname self) f (func fb)
                (this_file +:+ ":567"))
    | _, _ => _impls self !! "autograd"
    end ∧
  (∀ k, k ≠ "save_for_backward" → k ≠ "autograd" →
        _impls s'.1 !! k = _impls self !! k).
Proof.
  intros H.
  apply impl_save_for_backward_ok_inv in H
    as (H1 & H2 & H3 & _ & _ & H4 & H5).
  by split_and!.
Qed.

Lemma impl_save_for_backward_ok_records_witness :
  let s' := (impl_save_for_backward lenient_host 0 (UserFn 2) "user.py:60"
               (sample_op, sample_external)).2 in
  _impls s'.1 !! "save_for_backward"
  = Some {| func := UserFn 2; location := "user.py:60" |} ∧
  _impls s'.1 !! "autograd" = None.
Proof.
  intros s'.
  assert (impl_save_for_backward lenient_host 0 (UserFn 2) "user.py:60"
            (sample_op, sample_external) = (Ok tt, s')) as H
    by (vm_compute; reflexivity).
  destruct (impl_save_for_backward_ok_records _ _ _ _ _ _ _ H)
    as (_ & Hs & _ & Ha & _).
  split; [exact Hs|exact Ha].
Defined.

(** X13. The two pieces of a backward formula may come in either order:
    when both calls return, the composed kernel is built from the same
    [output_differentiability], the same save-for-backward function and
    the same backward function; only the recorded line differs. *)
Theorem autograd_kernel_either_order {D} (host : Host D) (ref : nat)
    (od : OutputDiff) (f g : Callable) (cb cs : string) (self : CustomOp)
    (ext : External D) (s1 s2 : CustomOp * External D) :
  (impl_backward host ref od f cb (self, ext) = (Ok tt, s1) →
   impl_save_for_backward host ref g cs s1 = (Ok tt, s2) →
   ∃ o, check_output_differentiability self od = Ok o ∧
        _impls s2.1 !! "autograd"
        = Some (autograd_record o (_qualname self) g f
                  (this_file +:+ ":567"))) ∧
  (impl_save_for_backward host ref g cs (self, ext) = (Ok tt, s1) →
   impl_backward host ref od f cb s1 = (Ok tt, s2) →
   ∃ o, check_output_differentiability self od = Ok o ∧
        _impls s2.1 !! "autograd"
        = Some (autograd_record o (_qualname self) g f
                  (this_file +:+ ":631"))).
Proof.
  split; intros H1 H2; destruct s1 as [self1 ext1].
  - apply impl_backward_ok_inv in H1
      as (o & Ho & _ & Hb & Hod & Hq & _ & _ & _).
    apply impl_save_for_backward_ok_inv in H2
      as (_ & _ & _ & _ & _ & Ha & _).
    cbn [fst snd] in *. rewrite Hb, Hod, Hq in Ha. by exists o.
  - apply impl_save_for_backward_ok_inv in H1
      as (_ & Hs & _ & Hq & Hsch & _ & _).
    apply impl_backward_ok_inv in H2
      as (o & Ho & _ & _ & _ & _ & _ & Ha & _).
    cbn [fst snd] in *. rewrite Hs, Hq in Ha. exists o. split; [|done].
    destruct od as [|r|items r]; [done..|].
    cbn [check_output_differentiability] in *. by rewrite <- Hsch.
Qed.

Lemma autograd_kernel_either_order_witness :
  let start := (sample_op, sample_external) in
  let od := OD_list [Some true] "[True]" in
  let b := impl_backward lenient_host 0 od (UserFn 1) "user.py:50" in
  let s := impl_save_for_backward lenient_host 0 (UserFn 2) "user.py:60" in
  _impls (s (b start).2).2.1 !! "autograd"
  = Some (autograd_record (Some [true]) "mylib::foo" (UserFn 2) (UserFn 1)
            (this_file +:+ ":567")) ∧
  _impls (b (s start).2).2.1 !! "autograd"
  = Some (autograd_record (Some [true]) "mylib::foo" (UserFn 2) (UserFn 1)
            (this_file +:+ ":631")).
Proof.
  intros start od b s.
  split.
  - destruct (proj1 (autograd_kernel_either_order lenient_host 0 od
                       (UserFn 1) (UserFn 2) "user.py:50" "user.py:60"
                       sample_op sample_external (b start).2
                       (s (b start).2).2))
      as (o & Ho & Ha); [vm_compute; reflexivity..|].
    assert (o = Some [true]) as -> by (vm_compute in Ho; congruence).
    exact Ha.
  - destruct (proj2 (autograd_kernel_either_order lenient_host 0 od
                       (UserFn 1) (UserFn 2) "user.py:50" "user.py:60"
                       sample_op sample_external (s start).2
                       (b (s start).2).2))
      as (o & Ho & Ha); [vm_compute; reflexivity..|].
    assert (o = Some [true]) as -> by (vm_compute in Ho; congruence).
    exact Ha.
Defined.

(** ** Destroyed operators *)

Section DestroyFurther.
Context {D : Type} (host : Host D).

Lemma with_self_not_ok {A} ref (m : Py (CustomOp * External D) A)
    (w : World D) self :
  heap w !! ref = Some self →
  (∀ ext, is_ok (m (self, ext)).1 = false) →
  is_ok (with_self ref m w).1 = false.
Proof.
  intros Hs Hm. unfold with_self. rewrite Hs. specialize (Hm (external w)).
  by destruct (m (self, external w)) as [r [self' ext']].
Qed.

Lemma impl_factory_needs_lib f c self (ext : External D) :
  _lib self = None → is_ok (impl_factory host f c (self, ext)).1 = false.
Proof.
  intros Hl. unfold impl_factory, pbind, on_self, get_self, read_lib.
  destruct (_register_impl "factory" f c self) as [[e|[]] self'] eqn:Er;
    [done|].
  apply register_impl_ok_inv in Er as [_ ->]. cbn [fst snd _lib set_impls].
  by rewrite Hl.
Qed.

Lemma check_meta_state (s : CustomOp * External D) :
  (_check_doesnt_have_library_meta_impl host s).2 = s.
Proof.
  unfold _check_doesnt_have_library_meta_impl, pbind, get_self, get_ext,
    plift, pret, praise.
  cbn [fst snd].
  destruct (_has_impl "abstract" s.1); [done|].
  repeat (match goal with
          | |- context [dispatch_has_kernel_for_dispatch_key ?h ?q ?k ?e] =>
              destruct (dispatch_has_kernel_for_dispatch_key h q k e)
                as [?|[|]]; cbn [fst snd negb]
          end); done.
Qed.

Lemma impl_abstract_needs_lib f c self (ext : External D) :
  _lib self = None → is_ok (impl_abstract host f c (self, ext)).1 = false.
Proof.
  intros Hl. unfold impl_abstract.
  unfold pbind at 1.
  pose proof (check_meta_state (self, ext)) as Hs.
  destruct (_check_doesnt_have_library_meta_impl host (self, ext))
    as [[e|[]] s1]; [done|].
  cbn in Hs. subst s1.
  unfold pbind, on_self, get_self, read_lib, plift.
  destruct (_register_impl "abstract" f c self) as [[e|[]] self'] eqn:Er;
    [done|].
  apply register_impl_ok_inv in Er as [_ ->].
  cbn [fst snd _lib set_impls]. rewrite Hl.
  by destruct (_get_impl _ _).
Qed.

Lemma impl_one_needs_lib f c d self (ext : External D) :
  _lib self = None → is_ok (impl_one host f c d (self, ext)).1 = false.
Proof.
  intros Hl. unfold impl_one. unfold pbind at 1.
  pose proof (check_library_impl_state host d (self, ext)) as Hs.
  destruct (_check_doesnt_have_library_impl host d (self, ext))
    as [[e|[]] s1]; [done|].
  cbn in Hs. subst s1.
  unfold pbind, on_self, get_self, read_lib.
  destruct (_register_impl d f c self) as [[e|[]] self'] eqn:Er; [done|].
  apply register_impl_ok_inv in Er as [_ ->].
  destruct (SUPPORTED_DEVICE_TYPE_TO_KEY !! d); [|done].
  cbn [fst snd _lib set_impls]. by rewrite Hl.
Qed.

Lemma impl_needs_lib dts f c self (ext : External D) :
  _lib self = None → device_types_left dts ≠ [] →
  is_ok (impl host dts f c (self, ext)).1 = false.
Proof.
  intros Hl Hne. unfold impl, impl_inner, pbind, plift.
  destruct (validate_device_types _); [done|]. cbn [fst snd].
  destruct (remove_dups (device_types_left dts)) as [|d rest] eqn:Ed.
  { destruct (device_types_left dts) as [|x l]; [done|].
    assert (x ∈ remove_dups (x :: l)) as Hx
      by (apply elem_of_remove_dups; left).
    rewrite Ed in Hx. by apply elem_of_nil in Hx. }
  cbn [for_each]. unfold pbind.
  pose proof (impl_one_needs_lib f c d self ext Hl) as H1.
  by destruct (impl_one host f c d (self, ext)) as [[e|[]] s1].
Qed.

End DestroyFurther.

(** X14. A destroyed operator is left in a garbage state: a second
    [_destroy] raises [AttributeError] and changes nothing, and
    [impl_factory], [impl_abstract] and [impl] never return on it, the last
    one as soon as [inner] finds a device type to register (it finds none
    in an empty argument, or in a one-shot iterator, which the validation
    loop has used up). *)
Theorem destroyed_operator_is_garbage {D} (host : Host D) (ref : nat)
    (w w' : World D) :
  _destroy ref w = (Ok tt, w') →
  _destroy ref w' = (Err (err_attribute "_lib"), w') ∧
  (∀ f c, is_ok (with_self ref (impl_factory host f c) w').1 = false) ∧
  (∀ f c, is_ok (with_self ref (impl_abstract host f c) w').1 = false) ∧
  (∀ dts f c, device_types_left dts ≠ [] →
              is_ok (with_self ref (impl host dts f c) w').1 = false).
Proof.
  intros H.
  apply destroy_ok_inv in H as (self & lib & ref' & Hs & Hlib & Hreg & ->).
  match goal with |- context [_destroy ref ?w0] => set (w' := w0) end.
  assert (heap w' !! ref = Some (set_lib None self)) as Hh
    by apply lookup_insert_eq.
  split_and!.
  - unfold _destroy. by rewrite Hh.
  - intros f c. eapply with_self_not_ok; [done|].
    intros ext. by apply impl_factory_needs_lib.
  - intros f c. eapply with_self_not_ok; [done|].
    intros ext. by apply impl_abstract_needs_lib.
  - intros dts f c Hne. eapply with_self_not_ok; [done|].
    intros ext. by apply impl_needs_lib.
Qed.

Lemma destroyed_operator_is_garbage_witness :
  let w' := (_destroy 0 world_declared).2 in
  _destroy 0 w' = (Err (err_attribute "_lib"), w') ∧
  is_ok (with_self 0 (impl lenient_host (DT_str "cpu") (UserFn 1) "user.py:10")
           w').1 = false.
Proof.
  intros w'.
  assert (_destroy 0 world_declared = (Ok tt, w')) as H
    by (vm_compute; reflexivity).
  destruct (destroyed_operator_is_garbage lenient_host 0 _ _ H)
    as (H1 & _ & _ & H4).
  split; [exact H1|]. by apply H4.
Defined.

(** X15. [_destroy] touches one registry entry and one object: every other
    name and every other object stay as they were, whether the call returns
    or raises, and the destroyed object keeps its implementations. *)
Theorem destroy_frame {D} (ref : nat) (w w' : World D)
    (r : Result unit) (self : CustomOp) :
  heap w !! ref = Some self →
  _destroy ref w = (r, w') →
  (∀ q, q ≠ _qualname self →
        global_registry w' !! q = global_registry w !! q) ∧
  (∀ a, a ≠ ref → heap w' !! a = heap w !! a) ∧
  (∃ self', heap w' !! ref = Some self' ∧ _impls self' = _impls self ∧
            _qualname self' = _qualname self) ∧
  (∀ ns, ns ≠ _cpp_ns self →
         torch_ops (external w') !! ns = torch_ops (external w) !! ns) ∧
  next_addr w' = next_addr w.
Proof.
  intros Hs. unfold _destroy. rewrite Hs.
  destruct (_lib self) as [lib|].
  2:{ intros [= <- <-]. split_and!; eauto. }
  destruct (global_registry w !! _qualname self) as [ref'|];
    intros [= <- <-]; cbn [global_registry heap external torch_ops next_addr].
  - split_and!; [|by intros; apply lookup_insert_ne| |
                 by intros; apply lookup_alter_ne|done].
    + intros q Hq. by apply lookup_delete_ne.
    + exists (set_lib None self). by rewrite lookup_insert_eq.
  - split_and!; [done|by intros; apply lookup_insert_ne| |
                 by intros; apply lookup_alter_ne|done].
    exists (set_lib None self). by rewrite lookup_insert_eq.
Qed.

Lemma destroy_frame_witness :
  let w := (custom_op lenient_host "mylib::foo" None sample_function
              world_declared).2 in
  heap (_destroy 1 w).2 !! 0 = heap w !! 0.
Proof.
  intros w.
  assert (∃ self, heap w !! 1 = Some self) as (self & Hs)
    by (eexists; vm_compute; reflexivity).
  destruct (destroy_frame 1 w (_destroy 1 w).2 (_destroy 1 w).1 self Hs)
    as (_ & H & _); [by destruct (_destroy 1 w)|].
  apply H. lia.
Defined.

(** X16. Two objects under one qualified name: once one of them has been
    destroyed, [_destroy] on the other raises [KeyError] for the name, and
    still takes the library away from it. *)
Theorem destroy_second_of_same_name {D} (ref1 ref2 : nat)
    (w w1 : World D) (self1 self2 : CustomOp) (lib : Lib) :
  heap w !! ref1 = Some self1 →
  heap w !! ref2 = Some self2 →
  ref1 ≠ ref2 →
  _qualname self2 = _qualname self1 →
  _lib self2 = Some lib →
  _destroy ref1 w = (Ok tt, w1) →
  ∃ w2, _destroy ref2 w1 = (Err (err_key (_qualname self2)), w2) ∧
        heap w2 !! ref2 = Some (set_lib None self2) ∧
        _destroy ref2 w2 = (Err (err_attribute "_lib"), w2).
Proof.
  intros H1 H2 Hne Hq Hl H.
  apply destroy_ok_inv in H as (self & lib1 & ref' & Hs & Hlib & Hreg & ->).
  rewrite H1 in Hs. injection Hs as <-.
  unfold _destroy at 1. cbn [heap global_registry external next_addr].
  rewrite lookup_insert_ne, H2, Hl, Hq, lookup_delete_eq by done.
  eexists. split; [done|]. cbn [heap].
  split; [apply lookup_insert_eq|].
  unfold _destroy. cbn [heap]. by rewrite lookup_insert_eq.
Qed.

Lemma destroy_second_of_same_name_witness :
  let w := (custom_op lenient_host "mylib::foo" None sample_function
              world_declared).2 in
  ∃ w2, _destroy 0 (_destroy 1 w).2 = (Err (err_key "mylib::foo"), w2).
Proof.
  intros w.
  assert (∃ self1 self2,
            heap w !! 1 = Some self1 ∧ heap w !! 0 = Some self2 ∧
            _qualname self2 = _qualname self1 ∧ _lib self2 = Some 0 ∧
            _qualname self2 = "mylib::foo")
    as (self1 & self2 & H1 & H2 & Hq & Hl & Hn)
    by (do 2 eexists; split_and!; vm_compute; reflexivity).
  assert (_destroy 1 w = (Ok tt, (_destroy 1 w).2)) as H
    by (vm_compute; reflexivity).
  destruct (destroy_second_of_same_name 1 0 w _ self1 self2 0 H1 H2
              ltac:(lia) Hq Hl H) as (w2 & Hd & _).
  exists w2. rewrite <- Hn. exact Hd.
Defined.

(** ** Declaring, looking up, destroying *)

Section DeclareFurther.
Context {D : Type} (host : Host D).

(** What [custom_op] has done when it returns. *)
Lemma custom_op_ok_inv qualname manual_schema fn (w : World D) ref w' :
  custom_op host qualname manual_schema fn w = (Ok ref, w') →
  ∃ ns function_schema lib ophandle,
    parse_qualname qualname = Ok (ns, fn_name fn) ∧
    validate_namespace ns = Ok tt ∧
    validate_schema host function_schema = Ok tt ∧
    ref = next_addr w ∧
    global_registry w' = <[qualname := ref]> (global_registry w) ∧
    heap w'
    = <[ref := declared_op qualname ns fn function_schema lib ophandle]>
        (heap w) ∧
    next_addr w' = S ref.
Proof.
  unfold custom_op.
  destruct (fn_is_function fn); cbn [negb]; [|done].
  intros H.
  apply pbind_inv in H as [(e & H & [=])|([ns name] & w1 & H1 & H)].
  apply plift_inv in H1 as [Hp ->]. symmetry in Hp.
  apply parse_qualname_join in Hp as Hq.
  apply pbind_inv in H as [(e & H & [=])|([] & w1 & H1 & H)].
  apply plift_inv in H1 as [Hns ->]. symmetry in Hns.
  destruct (bool_decide (fn_name fn = name)) eqn:Hname; cbn [negb] in H;
    [|done].
  apply bool_decide_eq_true in Hname. subst name.
  apply pbind_inv in H as [(e & H & [=])|(schema & w1 & H1 & H)].
  assert (w1 = w) as ->.
  { destruct manual_schema.
    - unfold pret in H1. by simplify_eq.
    - by apply plift_inv in H1 as [_ ->]. }
  clear H1.
  apply pbind_inv in H as [(e & H & [=])|(function_schema & w1 & H1 & H)].
  apply plift_inv in H1 as [_ ->].
  apply pbind_inv in H as [(e & H & [=])|([] & w1 & H1 & H)].
  apply plift_inv in H1 as [Hv ->]. symmetry in Hv.
  apply pbind_inv in H as [(e & H & [=])|([] & w1 & H1 & H)].
  assert (w1 = w) as ->.
  { destruct manual_schema.
    - by apply plift_inv in H1 as [_ ->].
    - unfold pret in H1. by simplify_eq. }
  clear H1.
  apply pbind_inv in H as [(e & H & [=])|(lib & w1 & H1 & H)].
  apply with_ext_same in H1 as Hw1.
  apply pbind_inv in H as [(e & H & [=])|([] & w2 & H2 & H)].
  apply with_ext_same in H2 as Hw2.
  apply pbind_inv in H as [(e & H & [=])|(ophandle & w3 & H3 & H)].
  apply with_ext_same in H3 as Hw3.
  assert (same_objects w w3) as (Hreg & Hheap & Hnext).
  { eapply same_objects_trans; [done|]. by eapply same_objects_trans. }
  apply pbind_inv in H as [(e & H & [=])|(result & w4 & H4 & H)].
  injection H4 as <- <-.
  apply pbind_inv in H as [(e & H & [=])|([] & w5 & H5 & H)].
  unfold with_self in H5. cbn [heap global_registry next_addr external] in H5.
  rewrite lookup_insert_eq in H5. injection H5 as <-.
  apply pbind_inv in H as [(e & H & [=])|([] & w6 & H6 & H)].
  apply with_ext_same in H6 as (Hr6 & Hh6 & Hn6).
  apply pbind_inv in H as [(e & H & [=])|([] & w7 & H7 & H)].
  apply with_ext_same in H7 as (Hr7 & Hh7 & Hn7).
  injection H as <- <-.
  cbn [heap global_registry next_addr] in *.
  exists ns, function_schema, lib, ophandle.
  rewrite Hr7, Hh7, Hn7, Hr6, Hh6, Hn6, Hreg, Hheap, Hnext, insert_insert_eq.
  subst qualname. by split_and!.
Qed.

Lemma impl_abstract_ok_inv f c self (ext : External D) g s' :
  impl_abstract host f c (self, ext) = (Ok g, s') →
  g = f ∧
  _impls s'.1 !! "abstract" = Some {| func := f; location := c |}.
Proof.
  unfold impl_abstract. intros H.
  apply pbind_inv in H as [(e & H & [=])|([] & [self1 ext1] & H1 & H)].
  apply pbind_inv in H as [(e & H & [=])|([] & [self2 ext2] & H2 & H)].
  unfold on_self in H2.
  destruct (_register_impl "abstract" f c self1) as [r1 self2'] eqn:Er.
  injection H2 as -> <- <-.
  apply register_impl_ok_inv in Er as [_ ->].
  apply pbind_inv in H as [(e & H & [=])|(self3 & s3 & H3 & H)].
  injection H3 as <- <-.
  apply pbind_inv in H as [(e & H & [=])|(fl & s3 & H3 & H)].
  apply plift_inv in H3 as [_ ->].
  apply pbind_inv in H as [(e & H & [=])|(lib & s3 & H3 & H)].
  unfold read_lib in H3. cbn [fst] in H3.
  destruct (_lib _); [|done]. injection H3 as <- <-.
  apply pbind_inv in H as [(e & H & [=])|([] & [self4 ext4] & H4 & H)].
  unfold on_ext in H4.
  destruct (Library_impl host _ _ _ _ _) as [r4 ext4'].
  injection H4 as -> <- <-.
  injection H as <- <-. split; [done|]. cbn. apply lookup_insert_eq.
Qed.

End DeclareFurther.

(** X17. When [custom_op] returns, the new operator sits at a fresh
    address under the qualified name it was declared with: its name is the
    name of the function, its namespace passed [validate_namespace], its
    schema passed [validate_schema], it has no implementation yet, and its
    flag for the autograd indirection is still unset. *)
Theorem custom_op_ok_object {D} (host : Host D) (qualname : string)
    (manual_schema : option string) (fn : PyFunction) (w : World D)
    (ref : nat) (w' : World D) :
  custom_op host qualname manual_schema fn w = (Ok ref, w') →
  ref = next_addr w ∧
  global_registry w' !! qualname = Some ref ∧
  ∃ self,
    heap w' !! ref = Some self ∧
    _qualname self = qualname ∧
    _qualname self = _cpp_ns self +:+ "::" +:+ _opname self ∧
    _opname self = fn_name fn ∧
    op__name__ self = Some (fn_name fn) ∧
    validate_namespace (_cpp_ns self) = Ok tt ∧
    validate_schema host (_schema self) = Ok tt ∧
    _impls self = ∅ ∧
    _registered_autograd_kernel_indirection self = false ∧
    is_Some (_lib self).
Proof.
  intros H.
  apply custom_op_ok_inv in H
    as (ns & fs & lib & oph & Hp & Hns & Hv & -> & Hr & Hh & _).
  split; [done|]. rewrite Hr, Hh, !lookup_insert_eq. split; [done|].
  eexists. split; [done|]. cbn.
  apply parse_qualname_join in Hp. by split_and!; eauto.
Qed.

Lemma custom_op_ok_object_witness :
  global_registry world_declared !! "mylib::foo" = Some 0 ∧
  ∃ self, heap world_declared !! 0 = Some self ∧ _opname self = "foo".
Proof.
  assert (custom_op lenient_host "mylib::foo" None sample_function empty_world
          = (Ok 0, world_declared)) as H by (vm_compute; reflexivity).
  destruct (custom_op_ok_object lenient_host _ _ _ _ _ _ H)
    as (_ & Hr & self & Hs & _ & _ & Hn & _).
  split; [exact Hr|]. exists self. split; [exact Hs|exact Hn].
Defined.

(** X18. Declaring an operator and destroying it right away: [_destroy]
    returns, the name is gone from the registry, and a registry that did
    not hold the name before is back to what it was. *)
Theorem declare_then_destroy {D} (host : Host D) (qualname : string)
    (manual_schema : option string) (fn : PyFunction) (w : World D)
    (ref : nat) (w1 : World D) :
  custom_op host qualname manual_schema fn w = (Ok ref, w1) →
  ∃ w2, _destroy ref w1 = (Ok tt, w2) ∧
        global_registry w2 = delete qualname (global_registry w) ∧
        (global_registry w !! qualname = None →
         global_registry w2 = global_registry w).
Proof.
  intros H.
  apply custom_op_ok_inv in H
    as (ns & fs & lib & oph & _ & _ & _ & -> & Hr & Hh & _).
  unfold _destroy. rewrite Hh, lookup_insert_eq.
  cbn [_lib declared_op _qualname]. rewrite Hr, lookup_insert_eq.
  eexists. split; [done|]. cbn [global_registry].
  rewrite delete_insert_eq. split; [done|]. intros Hn. by apply delete_id.
Qed.

Lemma declare_then_destroy_witness :
  ∃ w2, _destroy 0 world_declared = (Ok tt, w2) ∧
        global_registry w2 = global_registry empty_world.
Proof.
  assert (custom_op lenient_host "mylib::foo" None sample_function empty_world
          = (Ok 0, world_declared)) as H by (vm_compute; reflexivity).
  destruct (declare_then_destroy lenient_host _ _ _ _ _ _ H)
    as (w2 & Hd & _ & Hr).
  exists w2. split; [exact Hd|]. apply Hr. reflexivity.
Defined.

(** X19. An operator that [custom_op] has returned is found under its
    qualified name, whatever [also_check_torch_library] says, without any
    change of state, and it has no abstract implementation yet. *)
Theorem declare_then_find {D} (host : Host D) (qualname : string)
    (manual_schema : option string) (fn : PyFunction) (w : World D)
    (ref : nat) (w1 : World D) (also_check_torch_library : bool) :
  custom_op host qualname manual_schema fn w = (Ok ref, w1) →
  _find_custom_op host qualname also_check_torch_library w1 = (Ok ref, w1) ∧
  get_abstract_impl qualname w1 = Ok None ∧
  (∀ kind, proxy_has_impl ref kind w1 = Ok false).
Proof.
  intros H.
  apply custom_op_ok_inv in H
    as (ns & fs & lib & oph & _ & _ & _ & -> & Hr & Hh & _).
  unfold _find_custom_op, get_abstract_impl, proxy_has_impl, proxy_deref.
  rewrite Hr, Hh, !lookup_insert_eq. by split_and!.
Qed.

Lemma declare_then_find_witness :
  _find_custom_op lenient_host "mylib::foo" true world_declared
  = (Ok 0, world_declared).
Proof.
  assert (custom_op lenient_host "mylib::foo" None sample_function empty_world
          = (Ok 0, world_declared)) as H by (vm_compute; reflexivity).
  exact (proj1 (declare_then_find lenient_host _ _ _ _ _ _ true H)).
Defined.

(** X20. After [impl_abstract] has returned on the operator a name is
    registered for, it has handed back the function it was given, and
    [get_abstract_impl] gives that function for the name. *)
Theorem impl_abstract_then_get {D} (host : Host D) (qualname : string)
    (ref : nat) (f g : Callable) (caller : string) (w w' : World D) :
  global_registry w !! qualname = Some ref →
  with_self ref (impl_abstract host f caller) w = (Ok g, w') →
  g = f ∧ get_abstract_impl qualname w' = Ok (Some f).
Proof.
  intros Hq H. unfold with_self in H.
  destruct (heap w !! ref) as [self|]; [|done].
  destruct (impl_abstract host f caller (self, external w))
    as [r [self' ext']] eqn:E.
  injection H as -> <-.
  apply impl_abstract_ok_inv in E as [-> Ha]. split; [done|].
  unfold get_abstract_impl, proxy_deref. cbn [global_registry heap].
  rewrite Hq, lookup_insert_eq. cbn [rbind fst] in *.
  rewrite (proj2 (has_impl_true "abstract" self')) by (rewrite Ha; eauto).
  unfold _get_impl. by rewrite Ha.
Qed.

Lemma impl_abstract_then_get_witness :
  get_abstract_impl "mylib::foo" world_abstract = Ok (Some (UserFn 7)).
Proof.
  assert (with_self 0 (impl_abstract lenient_host (UserFn 7) "user.py:40")
            world_declared = (Ok (UserFn 7), world_abstract)) as H
    by (vm_compute; reflexivity).
  assert (global_registry world_declared !! "mylib::foo" = Some 0) as Hq
    by (vm_compute; reflexivity).
  exact (proj2 (impl_abstract_then_get lenient_host "mylib::foo" 0 _ _ _ _ _
                  Hq H)).
Defined.

(** ** Operators declared from a schema *)

Section WithSchema.
Context {D : Type} (host : Host D).

Lemma split_upto_not_nil n sep s : PyStr.split_upto n sep s ≠ [].
Proof.
  destruct n as [|n]; cbn [PyStr.split_upto]; [done|].
  by destruct (PyStr.split1 sep s) as [[a b]|].
Qed.

(** A split into exactly two pieces is the cut at the first separator. *)
Lemma split_two sep q a b :
  PyStr.split sep q = [a; b] → PyStr.split1 sep q = Some (a, b).
Proof.
  unfold PyStr.split. destruct (String.length q) as [|n];
    cbn [PyStr.split_upto]; [done|].
  destruct (PyStr.split1 sep q) as [[a' b']|]; [|done].
  intros [= -> H]. f_equal. f_equal.
  destruct n as [|n]; cbn [PyStr.split_upto] in H; [by simplify_eq|].
  destruct (PyStr.split1 sep b') as [[a2 b2]|]; [|by simplify_eq].
  injection H as _ H. by apply split_upto_not_nil in H.
Qed.

Lemma register_indirection_ok_inv ref self (ext : External D) self' ext' :
  _register_autograd_kernel_indirection host ref (self, ext)
  = (Ok tt, (self', ext')) →
  self' = set_registered_indirection true self.
Proof.
  unfold _register_autograd_kernel_indirection, pbind, get_self, read_lib,
    on_ext, on_self.
  cbn [fst snd].
  destruct (_registered_autograd_kernel_indirection self); [done|].
  cbn [fst snd].
  destruct (_lib self) as [lib|]; [|done]. cbn [fst snd].
  destruct (Library_impl host lib _ _ _ ext) as [[e|[]] ext1]; [done|].
  by intros [= <- <-].
Qed.

(** What [_custom_op_with_schema] has done when it returns. *)
Lemma custom_op_with_schema_ok_inv qualname schema fixed (w : World D) ov w' :
  _custom_op_with_schema host qualname schema fixed w = (Ok ov, w') →
  ∃ ns name function_schema lib ophandle,
    parse_qualname qualname = Ok (ns, name) ∧
    validate_schema host function_schema = Ok tt ∧
    get_op qualname (external w') = Ok ov ∧
    global_registry w' = <[qualname := next_addr w]> (global_registry w) ∧
    heap w'
    = <[next_addr w :=
          {| _schema := function_schema; _cpp_ns := ns; _lib := Some lib;
             _ophandle := inl ophandle; _opname := name;
             _qualname := qualname; op__name__ := None;
             op__module__ := None; op__doc__ := None; _impls := ∅;
             _registered_autograd_kernel_indirection := true;
             _output_differentiability := None |}]> (heap w) ∧
    next_addr w' = S (next_addr w).
Proof.
  unfold _custom_op_with_schema.
  destruct (PyStr.split "::" qualname) as [|ns [|name [|]]] eqn:Esplit;
    [done|done| |done].
  apply split_two in Esplit.
  intros H.
  apply pbind_inv in H as [(e & H & [=])|(function_schema & w1 & H1 & H)].
  apply plift_inv in H1 as [_ ->].
  apply pbind_inv in H as [(e & H & [=])|([] & w1 & H1 & H)].
  apply plift_inv in H1 as [Hv ->]. symmetry in Hv.
  apply pbind_inv in H as [(e & H & [=])|(lib & w1 & H1 & H)].
  apply with_ext_same in H1 as Hw1.
  apply pbind_inv in H as [(e & H & [=])|([] & w2 & H2 & H)].
  apply with_ext_same in H2 as Hw2.
  apply pbind_inv in H as [(e & H & [=])|(ophandle & w3 & H3 & H)].
  apply with_ext_same in H3 as Hw3.
  assert (same_objects w w3) as (Hreg & Hheap & Hnext).
  { eapply same_objects_trans; [done|]. by eapply same_objects_trans. }
  apply pbind_inv in H as [(e & H & [=])|(result & w4 & H4 & H)].
  injection H4 as <- <-.
  apply pbind_inv in H as [(e & H & [=])|([] & w5 & H5 & H)].
  unfold with_self in H5. cbn [heap global_registry next_addr external] in H5.
  rewrite lookup_insert_eq in H5.
  destruct (_register_autograd_kernel_indirection _ _ _)
    as [r5 [self5 ext5]] eqn:E5.
  injection H5 as -> <-.
  apply register_indirection_ok_inv in E5 as ->.
  apply pbind_inv in H as [(e & H & [=])|([] & w6 & H6 & H)].
  apply with_ext_same in H6 as (Hr6 & Hh6 & Hn6).
  injection H as Hop <-.
  assert (parse_qualname qualname = Ok (ns, name)) as Hp.
  { unfold get_op in Hop. unfold parse_qualname in *. rewrite Esplit in *.
    by destruct (PyStr.contains "." name). }
  apply parse_qualname_join in Hp as Hq.
  cbn [heap global_registry next_addr] in *.
  exists ns, name, function_schema, lib, ophandle.
  rewrite Hr6, Hh6, Hn6, Hreg, Hheap, Hnext, insert_insert_eq.
  subst qualname. by split_and!.
Qed.

End WithSchema.

(** X21. When [_custom_op_with_schema] returns, the qualified name has
    passed [parse_qualname] although the function only splits it, the new
    operator is registered under that name with its autograd indirection
    flagged as registered, and the value returned is what [get_op] finds
    for the name. *)
Theorem custom_op_with_schema_ok {D} (host : Host D)
    (qualname schema : string) (needs_fixed_stride_order : bool)
    (w : World D) (ov : Overload) (w' : World D) :
  _custom_op_with_schema host qualname schema needs_fixed_stride_order w
  = (Ok ov, w') →
  (∃ ns name, parse_qualname qualname = Ok (ns, name)) ∧
  get_op qualname (external w') = Ok ov ∧
  global_registry w' !! qualname = Some (next_addr w) ∧
  ∃ self,
    heap w' !! next_addr w = Some self ∧
    _qualname self = qualname ∧
    validate_schema host (_schema self) = Ok tt ∧
    _impls self = ∅ ∧
    _registered_autograd_kernel_indirection self = true.
Proof.
  intros H.
  apply custom_op_with_schema_ok_inv in H
    as (ns & name & fs & lib & oph & Hp & Hv & Hop & Hr & Hh & _).
  rewrite Hr, Hh, !lookup_insert_eq.
  split_and!; [by eauto|done..|]. eexists. by split_and!.
Qed.

Lemma custom_op_with_schema_ok_witness :
  let w' := (_custom_op_with_schema lenient_host "mylib::foo"
               "(Tensor x) -> Tensor" true empty_world).2 in
  global_registry w' !! "mylib::foo" = Some 0 ∧
  get_op "mylib::foo" (external w') = Ok sample_overload.
Proof.
  intros w'.
  assert (_custom_op_with_schema lenient_host "mylib::foo"
            "(Tensor x) -> Tensor" true empty_world
          = (Ok sample_overload, w')) as H by (vm_compute; reflexivity).
  destruct (custom_op_with_schema_ok lenient_host _ _ _ _ _ _ H)
    as (_ & Hop & Hr & _).
  split; [exact Hr|exact Hop].
Defined.

(** ** Which schemas may have a backward formula *)

Section CanRegisterBackward.
Context {D : Type} (host : Host D).

Lemma check_can_register_backward_cases self (ext : External D) :
  (differentiable_schema (_schema self) ∧
   _check_can_register_backward (self, ext) = (Ok tt, (self, ext))) ∨
  (¬ differentiable_schema (_schema self) ∧
   ∃ detail, _check_can_register_backward (self, ext)
             = (Err (err_cannot_register_backward self detail), (self, ext))).
Proof.
  unfold _check_can_register_backward, differentiable_schema, pbind, get_self,
    praise, pret.
  cbn [fst snd].
  destruct (bool_decide (schema_kind (_schema self) = functional)) eqn:Ek;
    cbn [negb].
  2:{ apply bool_decide_eq_false in Ek. right. split; [by intros [? _]|].
      by eexists. }
  apply bool_decide_eq_true in Ek.
  destruct (returns (_schema self)) as [|r0 rets] eqn:Er.
  { right. split; [by intros (_ & ? & _)|]. by eexists. }
  destruct (existsb _ (r0 :: rets)) eqn:Ev.
  { right. split; [|by eexists].
    apply existsb_exists in Ev as (r & Hin & Hr).
    intros (_ & _ & Hall). apply list_elem_of_In in Hin.
    destruct (Hall r Hin) as [Ha _].
    destruct (ret_annotation r) as [[]|]; done. }
  destruct (List.find _ (r0 :: rets)) as [r|] eqn:Ef.
  { right. split; [|by eexists].
    apply find_some in Ef as [Hin Hr].
    intros (_ & _ & Hall). apply list_elem_of_In in Hin.
    destruct (Hall r Hin) as [_ Ht].
    unfold is_allowed_return in Hr. by rewrite bool_decide_eq_true_2 in Hr. }
  left. split; [|done]. split_and!; [done..|].
  intros r Hin. apply list_elem_of_In in Hin. split.
  - intros Ha.
    assert (existsb (λ r, match ret_annotation r with
                          | Some is_write => negb is_write
                          | None => false
                          end) (r0 :: rets) = true) as Hex.
    { apply existsb_exists. exists r. by rewrite Ha. }
    by rewrite Hex in Ev.
  - pose proof (find_none _ _ Ef r Hin) as Hr. unfold is_allowed_return in Hr.
    apply negb_false_iff, bool_decide_eq_true in Hr. exact Hr.
Qed.

End CanRegisterBackward.

(** X22. [_check_can_register_backward] passes exactly on a schema that
    is functional, has a return, returns no view and only returns of the
    allowed types.  On any other schema [impl_save_for_backward] and
    [impl_backward] raise its [RuntimeError] without asking the host and
    change nothing. *)
Theorem backward_needs_differentiable_schema {D} (host : Host D)
    (ref : nat) (g : Callable) (c : string) (self : CustomOp)
    (ext : External D) :
  (_check_can_register_backward (self, ext) = (Ok tt, (self, ext))
   ↔ differentiable_schema (_schema self)) ∧
  (¬ differentiable_schema (_schema self) →
   ∃ detail,
     impl_save_for_backward host ref g c (self, ext)
     = (Err (err_cannot_register_backward self detail), (self, ext)) ∧
     ∀ od f o,
       check_output_differentiability self od = Ok o →
       impl_backward host ref od f c (self, ext)
       = (Err (err_cannot_register_backward self detail), (self, ext))).
Proof.
  destruct (check_can_register_backward_cases self ext)
    as [[Hok E]|[Hno [detail E]]].
  - split; [by split|]. by intros [].
  - split.
    + split; [|by intros ?]. rewrite E. by intros [=].
    + intros _. exists detail. split.
      * unfold impl_save_for_backward. unfold pbind at 1. by rewrite E.
      * intros od f o Ho. unfold impl_backward, pbind, get_self, plift.
        cbn [fst snd]. rewrite Ho. cbn [fst snd]. by rewrite E.
Qed.

Lemma backward_needs_differentiable_schema_witness :
  _check_can_register_backward (sample_op, sample_external)
  = (Ok tt, (sample_op, sample_external)).
Proof.
  apply (proj1 (backward_needs_differentiable_schema lenient_host 0
                  (UserFn 1) "user.py:10" sample_op sample_external)).
  split_and!; [reflexivity|discriminate|].
  intros r Hr. apply list_elem_of_singleton in Hr as ->.
  split; [discriminate|]. cbn. apply list_elem_of_In. cbn. tauto.
Defined.

(** ** When an abstract implementation is accepted *)

Section AbstractFurther.
Context {D : Type} (host : Host D).

Lemma pbind_run {S A B} (m : Py S A) (k : A → Py S B) s a s1 :
  m s = (Ok a, s1) → pbind m k s = k a s1.
Proof. intros E. unfold pbind. by rewrite E. Qed.

Lemma check_meta_cases self (ext : External D) :
  let has key :=
    dispatch_has_kernel_for_dispatch_key host (_qualname self) key ext in
  _has_impl "abstract" self = false →
  ∃ r, _check_doesnt_have_library_meta_impl host (self, ext)
       = (r, (self, ext)) ∧
       (is_ok r = true ↔
        has "Meta" = Ok false ∧
        (has "CompositeExplicitAutograd" = Ok true ∨
         (has "CompositeExplicitAutograd" = Ok false ∧
          has "CompositeImplicitAutograd" = Ok false))).
Proof.
  intros has Habs. subst has. cbn beta.
  unfold _check_doesnt_have_library_meta_impl, pbind, get_self, get_ext,
    plift, pret, praise.
  cbn [fst snd]. rewrite Habs.
  destruct (dispatch_has_kernel_for_dispatch_key host (_qualname self)
              "CompositeExplicitAutograd" ext) as [?|[|]],
    (dispatch_has_kernel_for_dispatch_key host (_qualname self) "Meta" ext)
      as [?|[|]],
    (dispatch_has_kernel_for_dispatch_key host (_qualname self)
       "CompositeImplicitAutograd" ext) as [?|[|]];
    cbn [fst snd negb];
    (eexists; split; [reflexivity|]); cbn [is_ok];
    (split;
     [intros Hr;
      first [discriminate Hr | split; [done|first [by left|by right]]]
     |intros (? & [?|[? ?]]); first [done|congruence]]).
Qed.

End AbstractFurther.

(** X23. [impl_abstract] returns exactly when the operator has no abstract
    implementation yet, the host answers that it has no [Meta] kernel for
    it and either a [CompositeExplicitAutograd] kernel or neither that nor
    a [CompositeImplicitAutograd] kernel, the operator still has its
    library, and the host accepts the [Meta] kernel built from the function
    and the location of the caller.  A query that raises, as it does for an
    operator the dispatcher does not know, makes [impl_abstract] raise. *)
Theorem impl_abstract_returns_iff {D} (host : Host D) (f : Callable)
    (c : string) (self : CustomOp) (ext : External D) :
  let has key :=
    dispatch_has_kernel_for_dispatch_key host (_qualname self) key ext in
  is_ok (impl_abstract host f c (self, ext)).1 = true ↔
  _impls self !! "abstract" = None ∧
  has "Meta" = Ok false ∧
  (has "CompositeExplicitAutograd" = Ok true ∨
   (has "CompositeExplicitAutograd" = Ok false ∧
    has "CompositeImplicitAutograd" = Ok false)) ∧
  ∃ lib, _lib self = Some lib ∧
         is_ok (Library_impl host lib (_opname self) "Meta"
                  (K_callable (FWithCtx f (_qualname self) c)) ext).1 = true.
Proof.
  intros has. subst has. cbn beta.
  split.
  - destruct (impl_abstract host f c (self, ext)) as [[e|g] s'] eqn:E; [done|].
    intros _. unfold impl_abstract in E.
    apply pbind_inv in E as [(e & E & [=])|([] & s1 & H1 & E)].
    pose proof (check_meta_state host (self, ext)) as Hs1.
    rewrite H1 in Hs1. cbn in Hs1. subst s1.
    apply pbind_inv in E as [(e & E & [=])|([] & [self2 ext2] & H2 & E)].
    unfold on_self in H2.
    destruct (_register_impl "abstract" f c self) as [r1 self2'] eqn:Er.
    injection H2 as -> <- <-.
    apply register_impl_ok_inv in Er as [Habs ->].
    destruct (check_meta_cases host self ext) as (r0 & Ec & Hr0);
      [by apply has_impl_false|].
    cbn beta zeta in Hr0. rewrite H1 in Ec. injection Ec as <-.
    destruct (proj1 Hr0 eq_refl) as [Hm Hc].
    apply pbind_inv in E as [(e & E & [=])|(self3 & s3 & H3 & E)].
    injection H3 as <- <-.
    apply pbind_inv in E as [(e & E & [=])|(fl & s3 & H3 & E)].
    apply plift_inv in H3 as [Hfl ->]. unfold _get_impl in Hfl.
    cbn [_impls set_impls] in Hfl. rewrite lookup_insert_eq in Hfl.
    injection Hfl as ->.
    apply pbind_inv in E as [(e & E & [=])|(lib & s3 & H3 & E)].
    unfold read_lib in H3. cbn [fst _lib set_impls] in H3.
    destruct (_lib self) as [lib'|] eqn:El; [|done]. injection H3 as <- <-.
    apply pbind_inv in E as [(e & E & [=])|([] & s4 & H4 & E)].
    unfold on_ext in H4. cbn [location _opname _qualname set_impls] in H4.
    destruct (Library_impl host lib' _ _ _ ext) as [r4 ext4] eqn:E4.
    injection H4 as -> <-.
    split_and!; [done..|]. exists lib'. by rewrite E4.
  - intros (Habs & Hm & Hc & lib & Hl & Hk).
    destruct (check_meta_cases host self ext) as (r0 & Ec & Hr0);
      [by apply has_impl_false|].
    cbn beta zeta in Hr0.
    assert (is_ok r0 = true) as Hok by (by apply Hr0).
    destruct r0 as [e|[]]; [done|].
    unfold impl_abstract. rewrite (pbind_run _ _ _ _ _ Ec).
    unfold pbind at 1. unfold on_self.
    rewrite (register_impl_absent _ _ _ _ Habs).
    unfold pbind, get_self, plift, read_lib, on_ext, _get_impl.
    cbn [fst snd _impls set_impls _lib _opname _qualname].
    rewrite lookup_insert_eq, Hl. cbn [fst snd location].
    by destruct (Library_impl host lib _ _ _ ext) as [[e|[]] ext1].
Qed.

Lemma impl_abstract_returns_iff_witness :
  is_ok (impl_abstract lenient_host (UserFn 7) "user.py:40"
           (sample_op, sample_external)).1 = true.
Proof.
  apply (proj2 (impl_abstract_returns_iff lenient_host (UserFn 7) "user.py:40"
                  sample_op sample_external)).
  split_and!; [reflexivity|reflexivity|right; split; reflexivity|].
  exists 0. split; reflexivity.
Defined.

(** ** Lookup by qualified name *)

Section FindFurther.
Context {D : Type} (host : Host D).

Lemma custom_op_from_existing_cases op (w : World D) r w' :
  custom_op_from_existing host op w = (r, w') →
  (is_ok r = false ∧ same_objects w w') ∨
  (r = Ok (next_addr w) ∧
   ∃ self, heap w' !! next_addr w = Some self ∧
           _ophandle self = inr op ∧ _cpp_ns self = ov_namespace op ∧
           _impls self = ∅ ∧
           global_registry w' !! _qualname self = Some (next_addr w)).
Proof.
  unfold custom_op_from_existing. intros H.
  apply pbind_inv in H as [(e & H & ->)|(lib & w1 & H1 & H)].
  { left. split; [done|]. by eapply with_ext_same. }
  apply with_ext_same in H1 as (Hr1 & Hh1 & Hn1).
  apply pbind_inv in H as [(e & H & ->)|(schema & w2 & H2 & H)].
  { left. split; [done|]. apply plift_inv in H as [_ ->].
    by split_and!. }
  apply plift_inv in H2 as [_ ->].
  injection H as <- <-. right. rewrite Hn1. split; [done|].
  eexists. cbn [heap global_registry]. rewrite lookup_insert_eq.
  split; [done|]. cbn. split_and!; [done..|]. apply lookup_insert_eq.
Qed.

End FindFurther.

(** X24. [_find_custom_op] changes nothing when the name is in the
    registry or when [torch.ops] is not to be searched, and a lookup that
    raises leaves registry and objects as they were.  An address it
    returns is the registry's entry for the name, or else that of a new
    operator wrapped around the overload [get_op] found, registered under
    its own qualified name. *)
Theorem find_custom_op_effects {D} (host : Host D) (qualname : string)
    (also_check_torch_library : bool) (w : World D) (r : Result nat)
    (w' : World D) :
  _find_custom_op host qualname also_check_torch_library w = (r, w') →
  (also_check_torch_library = false ∨ is_Some (global_registry w !! qualname)
   → w' = w) ∧
  (is_ok r = false → same_objects w w') ∧
  (∀ ref, r = Ok ref →
     global_registry w !! qualname = Some ref ∨
     (global_registry w !! qualname = None ∧ ref = next_addr w ∧
      ∃ ov self,
        get_op qualname (external w) = Ok ov ∧
        heap w' !! ref = Some self ∧
        _ophandle self = inr ov ∧ _impls self = ∅ ∧
        global_registry w' !! _qualname self = Some ref)).
Proof.
  unfold _find_custom_op.
  destruct (global_registry w !! qualname) as [ref0|] eqn:Eq.
  { intros [= <- <-]. split_and!; [done..|]. intros ref [= <-]. by left. }
  destruct also_check_torch_library; cbn [negb].
  2:{ intros [= <- <-]. by split_and!. }
  intros H.
  apply pbind_inv in H as [(e & H & ->)|(ov & w1 & H1 & H)].
  { apply plift_inv in H as [_ ->]. split_and!; [|done..].
    by intros [[=]|[? [=]]]. }
  apply plift_inv in H1 as [Hop ->]. symmetry in Hop.
  apply custom_op_from_existing_cases in H
    as [[Hr Hs]|[-> (self & Hh & Ho & _ & Hi & Hg)]].
  - split_and!; [by intros [[=]|[? [=]]]|done|].
    intros ref ->. done.
  - split_and!; [by intros [[=]|[? [=]]]|done|].
    intros ref [= <-]. right. split_and!; [done..|]. by exists ov, self.
Qed.

Lemma find_custom_op_effects_witness :
  let w := (_destroy 0 world_declared).2 in
  (_find_custom_op lenient_host "mylib::foo" false w).2 = w.
Proof.
  intros w.
  destruct (find_custom_op_effects lenient_host "mylib::foo" false w
              (_find_custom_op lenient_host "mylib::foo" false w).1
              (_find_custom_op lenient_host "mylib::foo" false w).2)
    as (H & _); [by destruct (_find_custom_op _ _ _ _)|].
  apply H. left. reflexivity.
Defined.

(** ** The composed kernel and its pieces *)

Section Growing.
Context {D : Type} (host : Host D).

Lemma grows_refl (s : CustomOp * External D) : grows s s.
Proof. split; [done|]. by left. Qed.

Lemma grows_trans (s1 s2 s3 : CustomOp * External D) :
  grows s1 s2 → grows s2 s3 → grows s1 s3.
Proof.
  intros [Ha Hb] [Ha' Hb']. split; [by eauto|].
  intros H3. destruct (Hb' H3) as [H2|?]; [|by right].
  destruct (Hb H2) as [?|[? ?]]; [by left|right]. by split; apply Ha'.
Qed.

(** A step that leaves the implementations as they are. *)
Lemma grows_same_impls (s s' : CustomOp * External D) :
  _impls s'.1 = _impls s.1 → grows s s'.
Proof. intros E. unfold grows. rewrite E. split; [done|]. by left. Qed.

Lemma growing_pret {A} (a : A) : growing (D:=D) (pret a).
Proof. intros s. apply grows_refl. Qed.

Lemma growing_praise {A} e : growing (D:=D) (A:=A) (praise e).
Proof. intros s. apply grows_refl. Qed.

Lemma growing_plift {A} (r : Result A) : growing (D:=D) (plift r).
Proof. intros s. apply grows_refl. Qed.

Lemma growing_pbind {A B} (m : Py (CustomOp * External D) A)
    (k : A → Py (CustomOp * External D) B) :
  growing m → (∀ a, growing (k a)) → growing (pbind m k).
Proof.
  intros Hm Hk s. unfold pbind. specialize (Hm s).
  destruct (m s) as [[e|a] s1]; [done|].
  eapply grows_trans; [exact Hm|apply Hk].
Qed.

Lemma growing_pbind_plift {A B} (r : Result A)
    (k : A → Py (CustomOp * External D) B) :
  (∀ a, r = Ok a → growing (k a)) → growing (pbind (plift r) k).
Proof.
  intros Hk s. unfold pbind, plift. destruct r as [e|a].
  - apply grows_refl.
  - by apply Hk.
Qed.

Lemma growing_get_self : growing (D:=D) get_self.
Proof. intros s. apply grows_refl. Qed.

Lemma growing_get_ext : growing (D:=D) get_ext.
Proof. intros s. apply grows_refl. Qed.

Lemma growing_read_lib : growing (D:=D) read_lib.
Proof. intros s. unfold read_lib. destruct (_lib s.1); apply grows_refl. Qed.

(** Whatever the host does. *)
Lemma growing_on_ext {A} (m : Py (External D) A) : growing (on_ext m).
Proof.
  intros [self ext]. unfold on_ext. destruct (m ext) as [r ext'].
  by apply grows_same_impls.
Qed.

Lemma growing_register_impl kind f caller :
  kind ≠ "autograd" →
  growing (D:=D) (on_self (_register_impl kind f caller)).
Proof.
  intros Hk [self ext]. unfold on_self.
  destruct (_impls self !! kind) as [fl|] eqn:E.
  - rewrite (register_impl_present _ _ _ _ _ E). apply grows_refl.
  - rewrite (register_impl_absent _ _ _ _ E). split; cbn.
    + intros k Hs. destruct (decide (k = kind)) as [->|Hne].
      * rewrite lookup_insert_eq. eauto.
      * by rewrite lookup_insert_ne.
    + rewrite lookup_insert_ne by done. by left.
Qed.

Lemma growing_for_each {A} (body : A → Py (CustomOp * External D) unit) l :
  (∀ x, x ∈ l → growing (body x)) → growing (for_each body l).
Proof.
  induction l as [|x l IH]; intros H; cbn [for_each].
  - apply growing_pret.
  - apply growing_pbind; [apply H; left|].
    intros _. apply IH. intros y Hy. apply H. by right.
Qed.

Lemma growing_register_indirection ref :
  growing (_register_autograd_kernel_indirection host ref).
Proof.
  unfold _register_autograd_kernel_indirection.
  apply growing_pbind; [apply growing_get_self|]. intros self.
  destruct (_registered_autograd_kernel_indirection self);
    [apply growing_praise|].
  apply growing_pbind; [apply growing_read_lib|]. intros lib.
  apply growing_pbind; [apply growing_on_ext|]. intros _.
  intros [self' ext]. by apply grows_same_impls.
Qed.

Lemma growing_check_library_impl device_type :
  growing (_check_doesnt_have_library_impl host device_type).
Proof.
  intros s. apply grows_same_impls.
  by rewrite (check_library_impl_state host device_type s).
Qed.

Lemma growing_impl_one f caller d :
  d = "cpu" ∨ d = "cuda" → growing (impl_one host f caller d).
Proof.
  intros Hd. unfold impl_one.
  apply growing_pbind; [apply growing_check_library_impl|]. intros _.
  apply growing_pbind.
  { apply growing_register_impl. by destruct Hd as [->| ->]. }
  intros _.
  destruct (SUPPORTED_DEVICE_TYPE_TO_KEY !! d); [|apply growing_praise].
  apply growing_pbind; [apply growing_get_self|]. intros self.
  apply growing_pbind; [apply growing_read_lib|]. intros lib.
  apply growing_on_ext.
Qed.

Lemma growing_impl device_types f caller :
  growing (impl host device_types f caller).
Proof.
  unfold impl. apply growing_pbind_plift. intros [] Hv.
  unfold impl_inner.
  apply growing_pbind; [|intros _; apply growing_pret].
  apply growing_for_each. intros d Hd. apply growing_impl_one.
  apply (validate_device_types_ok _ Hv), device_types_left_sub.
  by apply elem_of_remove_dups.
Qed.

Lemma growing_impl_factory f caller :
  growing (impl_factory host f caller).
Proof.
  unfold impl_factory.
  apply growing_pbind; [by apply growing_register_impl|]. intros _.
  apply growing_pbind; [apply growing_get_self|]. intros self.
  apply growing_pbind; [apply growing_read_lib|]. intros lib.
  apply growing_pbind; [apply growing_on_ext|]. intros _.
  apply growing_pret.
Qed.

Lemma growing_impl_abstract f caller :
  growing (impl_abstract host f caller).
Proof.
  unfold impl_abstract.
  apply growing_pbind.
  { intros s. apply grows_same_impls. by rewrite (check_meta_state host s). }
  intros _.
  apply growing_pbind; [by apply growing_register_impl|]. intros _.
  apply growing_pbind; [apply growing_get_self|]. intros self.
  apply growing_pbind; [apply growing_plift|]. intros fl.
  apply growing_pbind; [apply growing_read_lib|]. intros lib.
  apply growing_pbind; [apply growing_on_ext|]. intros _.
  apply growing_pret.
Qed.

(** [_register_autograd_kernel] changes nothing when it raises, and stores
    the composed kernel of the two pieces when it returns. *)
Lemma register_autograd_kernel_cases caller self (ext : External D) r s' :
  _register_autograd_kernel caller (self, ext) = (r, s') →
  (is_ok r = false ∧ s' = (self, ext)) ∨
  (r = Ok tt ∧
   ∃ fb fs o,
     _impls self !! "backward" = Some fb ∧
     _impls self !! "save_for_backward" = Some fs ∧
     _output_differentiability self = Some o ∧
     _impls self !! "autograd" = None ∧
     is_ok (get_op (_qualname self) ext) = true ∧
     s' = (set_impls
             (λ m, <["autograd" :=
                       autograd_record o (_qualname self) (func fs) (func fb)
                         caller]> m) self, ext)).
Proof.
  intros H. destruct r as [e|[]].
  - left. split; [done|]. revert H.
    unfold _register_autograd_kernel, pbind, get_self, get_ext, plift,
      on_self, praise.
    cbn [fst snd].
    destruct (negb (_has_impl "backward" self)); [by intros [= _ <-]|].
    destruct (negb (_has_impl "save_for_backward" self));
      [by intros [= _ <-]|].
    destruct (_output_differentiability self) as [o|]; [|by intros [= _ <-]].
    cbn [fst snd].
    destruct (get_op (_qualname self) ext) as [e1|ov]; [by intros [= _ <-]|].
    destruct (_get_impl "save_for_backward" self) as [e1|fs];
      [by intros [= _ <-]|].
    destruct (_get_impl "backward" self) as [e1|fb]; [by intros [= _ <-]|].
    destruct (_impls self !! "autograd") as [fa|] eqn:Ea.
    + rewrite (register_impl_present _ _ _ _ _ Ea). by intros [= _ <-].
    + by rewrite (register_impl_absent _ _ _ _ Ea).
  - right. split; [done|]. by apply register_autograd_kernel_ok_inv.
Qed.

Lemma growing_register_autograd_kernel caller :
  growing (D:=D) (_register_autograd_kernel caller).
Proof.
  intros [self ext].
  destruct (_register_autograd_kernel caller (self, ext)) as [r s'] eqn:E.
  apply register_autograd_kernel_cases in E
    as [[_ ->]|[_ (fb & fs & o & Hb & Hs & _ & _ & _ & ->)]].
  - apply grows_refl.
  - split; cbn.
    + intros k Hk. destruct (decide (k = "autograd")) as [->|Hne].
      * rewrite lookup_insert_eq. eauto.
      * by rewrite lookup_insert_ne.
    + intros _. right. rewrite !lookup_insert_ne, Hb, Hs by done. eauto.
Qed.

Lemma growing_backward_prefix ref :
  growing
    (pbind _check_can_register_backward (λ _,
     pbind (_check_doesnt_have_library_autograd_impl host) (λ _,
     pbind get_self (λ self0,
     if negb (_registered_autograd_kernel_indirection self0)
     then _register_autograd_kernel_indirection host ref
     else pret tt)))).
Proof.
  apply growing_pbind.
  { intros s. apply grows_same_impls.
    by rewrite check_can_register_backward_state. }
  intros _. apply growing_pbind.
  { intros s. apply grows_same_impls.
    by rewrite (check_autograd_state host s). }
  intros _. apply growing_pbind; [apply growing_get_self|]. intros self0.
  destruct (negb _); [apply growing_register_indirection|apply growing_pret].
Qed.

Lemma growing_impl_save_for_backward ref f caller :
  growing (impl_save_for_backward host ref f caller).
Proof.
  unfold impl_save_for_backward.
  apply growing_pbind.
  { intros s. apply grows_same_impls.
    by rewrite check_can_register_backward_state. }
  intros _. apply growing_pbind.
  { intros s. apply grows_same_impls.
    by rewrite (check_autograd_state host s). }
  intros _. apply growing_pbind; [apply growing_get_self|]. intros self0.
  apply growing_pbind.
  { destruct (negb _);
      [apply growing_register_indirection|apply growing_pret]. }
  intros _.
  apply growing_pbind; [by apply growing_register_impl|]. intros _.
  apply growing_pbind; [apply growing_get_self|]. intros self.
  destruct (_has_impl "backward" self);
    [apply growing_register_autograd_kernel|apply growing_pret].
Qed.

Lemma growing_impl_backward ref od f caller :
  growing (impl_backward host ref od f caller).
Proof.
  unfold impl_backward.
  apply growing_pbind; [apply growing_get_self|]. intros self1.
  apply growing_pbind; [apply growing_plift|]. intros o.
  apply growing_pbind.
  { intros s. apply grows_same_impls.
    by rewrite check_can_register_backward_state. }
  intros _. apply growing_pbind.
  { intros s. apply grows_same_impls.
    by rewrite (check_autograd_state host s). }
  intros _. apply growing_pbind; [apply growing_get_self|]. intros self0.
  apply growing_pbind.
  { destruct (negb _);
      [apply growing_register_indirection|apply growing_pret]. }
  intros _.
  apply growing_pbind; [by apply growing_register_impl|]. intros _.
  apply growing_pbind.
  { intros [self ext]. by apply grows_same_impls. }
  intros _.
  apply growing_pbind; [apply growing_get_self|]. intros self.
  destruct (_has_impl "save_for_backward" self);
    [apply growing_register_autograd_kernel|apply growing_pret].
Qed.

Lemma growing_run_call ref c : growing (run_call host ref c).
Proof.
  destruct c; cbn [run_call].
  - apply growing_pbind; [apply growing_impl|intros; apply growing_pret].
  - apply growing_pbind;
      [apply growing_impl_factory|intros; apply growing_pret].
  - apply growing_pbind;
      [apply growing_impl_abstract|intros; apply growing_pret].
  - apply growing_impl_save_for_backward.
  - apply growing_impl_backward.
Qed.

Lemma grows_run_calls ref calls s : grows s (run_calls host ref calls s).
Proof.
  revert s. induction calls as [|c calls IH]; intros s; [apply grows_refl|].
  cbn [run_calls]. eapply grows_trans; [apply growing_run_call|apply IH].
Qed.

(** The composed kernel is never registered without its two pieces. *)
Lemma run_calls_autograd_needs_both ref calls self0 (ext0 : External D) :
  _impls self0 = ∅ →
  let self := (run_calls host ref calls (self0, ext0)).1 in
  _has_impl "autograd" self = true →
  _has_impl "backward" self = true ∧ _has_impl "save_for_backward" self = true.
Proof.
  intros Hfresh self Ha.
  destruct (grows_run_calls ref calls (self0, ext0)) as [_ Hg].
  apply has_impl_true in Ha. destruct (Hg Ha) as [H0|[Hb Hs]].
  - cbn in H0. rewrite Hfresh, lookup_empty in H0. by destruct H0.
  - by rewrite !has_impl_true.
Qed.

(** With the indirection already registered, neither method asks the
    host anything; when [get_op] raises for the operator's name, the two
    calls leave both pieces and no composed kernel. *)
Lemma pieces_without_kernel ref f g c c' self (ext : External D) :
  _registered_autograd_kernel_indirection self = true →
  differentiable_schema (_schema self) →
  _impls self = ∅ →
  is_ok (get_op (_qualname self) ext) = false →
  let s2 := run_calls host ref
              [Call_impl_save_for_backward g c';
               Call_impl_backward OD_None f c] (self, ext) in
  _has_impl "backward" s2.1 = true ∧
  _has_impl "save_for_backward" s2.1 = true ∧
  _has_impl "autograd" s2.1 = false.
Proof.
  intros Hflag Hschema Hfresh Hop.
  assert (∀ self1 : CustomOp,
            _schema self1 = _schema self →
            _check_can_register_backward (self1, ext) = (Ok tt, (self1, ext)))
    as Hcan.
  { intros self1 E.
    destruct (check_can_register_backward_cases self1 ext) as [[_ ?]|[Hno _]];
      [done|]. destruct Hno. by rewrite E. }
  assert (∀ self1 : CustomOp,
            _registered_autograd_kernel_indirection self1 = true →
            _check_doesnt_have_library_autograd_impl host (self1, ext)
            = (Ok tt, (self1, ext))) as Hauto.
  { intros self1 E. unfold _check_doesnt_have_library_autograd_impl, pbind,
      get_self, get_ext. cbn [fst snd]. by rewrite E. }
  cbn [run_calls run_call].
  set (self1 := with_impl "save_for_backward" g c' self).
  assert (impl_save_for_backward host ref g c' (self, ext)
          = (Ok tt, (self1, ext))) as E1.
  { unfold impl_save_for_backward.
    rewrite (pbind_run _ _ _ _ _ (Hcan self eq_refl)).
    rewrite (pbind_run _ _ _ _ _ (Hauto self Hflag)).
    unfold pbind at 1. unfold get_self at 1. cbn [fst snd].
    rewrite Hflag. cbn [negb]. unfold pbind at 1. unfold pret at 1.
    unfold pbind at 1. unfold on_self at 1.
    rewrite register_impl_absent by (by rewrite Hfresh, lookup_empty).
    unfold pbind, get_self. cbn [fst snd].
    rewrite (proj2 (has_impl_false "backward" _))
      by (cbn; by rewrite lookup_insert_ne, Hfresh, lookup_empty).
    done. }
  rewrite E1. cbn [snd].
  set (self2 := set_output_differentiability None
                  (with_impl "backward" f c self1)).
  assert (∃ e, impl_backward host ref OD_None f c (self1, ext)
               = (Err e, (self2, ext))) as [e E2].
  { unfold impl_backward.
    unfold pbind at 1. unfold get_self at 1. cbn [fst snd].
    unfold pbind at 1. unfold plift at 1.
    cbn [check_output_differentiability].
    rewrite (pbind_run _ _ _ _ _ (Hcan self1 eq_refl)).
    rewrite (pbind_run _ _ _ _ _ (Hauto self1 Hflag)).
    unfold pbind at 1. unfold get_self at 1. cbn [fst snd].
    assert (_registered_autograd_kernel_indirection self1 = true) as ->
      by done.
    cbn [negb]. unfold pbind at 1. unfold pret at 1.
    unfold pbind at 1. unfold on_self at 1.
    rewrite register_impl_absent
      by (cbn; by rewrite lookup_insert_ne, Hfresh, lookup_empty).
    unfold pbind at 1. unfold on_self at 1.
    unfold pbind at 1. unfold get_self at 1. cbn [fst snd].
    fold (with_impl "backward" f c self1). fold self2.
    rewrite (proj2 (has_impl_true "save_for_backward" self2))
      by (cbn; rewrite lookup_insert_ne, lookup_insert_eq by done; eauto).
    destruct (_register_autograd_kernel (this_file +:+ ":631") (self2, ext))
      as [r s'] eqn:E.
    apply register_autograd_kernel_cases in E
      as [[Hr ->]|[_ (? & ? & ? & _ & _ & _ & _ & Hres & _)]].
    - destruct r as [e|[]]; [by exists e|done].
    - cbn in Hres. by rewrite Hres in Hop. }
  rewrite E2. cbn [fst snd]. split_and!.
  - apply has_impl_true. cbn. rewrite lookup_insert_eq. eauto.
  - apply has_impl_true. cbn.
    rewrite lookup_insert_ne, lookup_insert_eq by done. eauto.
  - apply not_true_is_false. intros Ha%has_impl_true. revert Ha. cbn.
    rewrite !lookup_insert_ne, Hfresh, lookup_empty by done. by intros [].
Qed.

End Growing.

Lemma sample_schema_differentiable : differentiable_schema sample_schema.
Proof.
  split_and!; [reflexivity|discriminate|].
  intros r Hr. apply list_elem_of_singleton in Hr as ->.
  split; [discriminate|]. cbn. apply list_elem_of_In. cbn. tauto.
Qed.



